(** * Jellyfin -> Plex playlist migration: the three migrators of the repository

    The repository holds three implementations of the same tool:
    - [src/migrate_playlist.py]      (module [MigratePlaylist], class based, has a dry-run mode),
    - [src/playlist_migrator.py]     (module [PlaylistMigrator], search-based playlist lookup),
    - [src/migrate_playlist/cli.py]  (module [Cli], the short functional version).

    The servers are external: a [World] records what each remote call answers
    (a value or a raised exception).  The Python code is embedded as functions
    into a small trace-and-exception monad [Run]: a run yields the ordered
    list of the remote calls and messages it issued, and either a value or
    the exception that escaped. *)

From stdpp Require Import base list sets strings pretty.
From Stdlib Require Import Ascii.

Local Open Scope string_scope.
Local Open Scope list_scope.

(** ** Exceptions *)

(** The exception classes the code tells apart.  [SystemExit] is not an
    [Exception] in Python: [except Exception] lets it through, a bare
    [except:] catches it. *)
Inductive Exn : Type :=
| RequestException (msg : string)   (* requests.exceptions.RequestException *)
| Exception (msg : string)          (* any other subclass of Exception *)
| SystemExit (arg : string).        (* sys.exit(1) / raise SystemExit(msg) *)

Definition is_Exception (e : Exn) : bool :=
  match e with SystemExit _ => false | _ => true end.

Definition is_RequestException (e : Exn) : bool :=
  match e with RequestException _ => true | _ => false end.

(** [f"{e}"] *)
Definition str_exn (e : Exn) : string :=
  match e with RequestException m | Exception m | SystemExit m => m end.

(** ** Data as the two servers report it *)

(** A Jellyfin playlist object (the keys the code reads). *)
Record JfPlaylist := { pl_Name : string; pl_Id : string }.

(** One entry of [item["MediaSources"]]. *)
Record MediaSource := { ms_Path : option string }.

(** A Jellyfin playlist item: every key the code reads is optional. *)
Record JfItem := {
  it_Name : option string;
  it_MediaSources : option (list MediaSource);
  it_Path : option string
}.

(** A Plex library entry: [item.media[*].parts[*].file]. *)
Record MediaPart := { file : string }.
Record Media := { parts : list MediaPart }.
Record PlexItem := {
  title : string;
  media : option (list Media)     (* [None]: no [media] attribute *)
}.

(** A Plex library section.  [section.all()] and the two server-side
    searches are remote calls: each answers a list or raises. *)
Record PlexSection := {
  sec_title : string;
  sec_all : Exn + list PlexItem;
  sec_search_filepath : string -> Exn + list PlexItem;
  sec_search_filename : string -> Exn + list PlexItem
}.

(** What the remote ends answer during one run (a read-only snapshot). *)
Record World := {
  jf_authenticate : Exn + string;             (* POST /Users/authenticatebyname: user name *)
  jf_users_me : Exn + string;                 (* GET /Users/Me: user id *)
  jf_playlists : Exn + list JfPlaylist;       (* listing of all playlists *)
  jf_search : string -> Exn + list JfPlaylist;        (* search by term *)
  jf_playlist_items : string -> Exn + list JfItem;    (* by playlist id *)
  myplex_account : Exn + string;              (* MyPlexAccount(...): user name *)
  plex_server : Exn + string;                 (* PlexServer(...): friendly name *)
  plex_sections : Exn + list PlexSection;     (* plex.library.sections() *)
  plex_create : string -> list PlexItem -> Exn + string  (* title of the new playlist *)
}.

(** ** Observable events *)

Inductive Level := INFO | WARNING | ERROR.

Inductive Event : Type :=
| Logging (lvl : Level) (msg : string)
| Stdout (msg : string)
| Stderr (msg : string)
| JfAuthenticate
| JfUsersMe
| JfGetPlaylists
| JfSearchPlaylists (term : string)
| JfGetPlaylistItems (playlist_id : string)
| PlexAccount
| PlexConnect
| PlexSections
| PlexSectionAll (section : string)
| PlexSearch (section : string) (path : string)
| PlexCreatePlaylist (name : string) (items : list PlexItem).

(** The playlist-creation calls of a trace, in order. *)
Definition creations (t : list Event) : list (string * list PlexItem) :=
  omap (fun ev => match ev with
                  | PlexCreatePlaylist n its => Some (n, its)
                  | _ => None
                  end) t.

(** The destination library queries of a trace (listing the sections,
    reading a section, searching a section). *)
Definition is_library_query (ev : Event) : bool :=
  match ev with
  | PlexSections | PlexSectionAll _ | PlexSearch _ _ => true
  | _ => false
  end.

Definition library_queries (t : list Event) : list Event :=
  List.filter is_library_query t.

(** The paths handed to a server-side search. *)
Definition searched_paths (t : list Event) : list string :=
  omap (fun ev => match ev with PlexSearch _ p => Some p | _ => None end) t.

(** The messages of a trace, whatever the channel. *)
Definition messages (t : list Event) : list string :=
  omap (fun ev => match ev with
                  | Logging _ m | Stdout m | Stderr m => Some m
                  | _ => None
                  end) t.

(** ** The monad of runs *)

Definition Run (A : Type) : Type := list Event * (Exn + A).

Definition trace {A} (m : Run A) : list Event := fst m.
Definition outcome {A} (m : Run A) : Exn + A := snd m.

Definition ret {A} (a : A) : Run A := ([], inr a).
Definition raise {A} (e : Exn) : Run A := ([], inl e).
Definition emit (ev : Event) : Run unit := ([ev], inr tt).

Definition bind {A B} (m : Run A) (k : A -> Run B) : Run B :=
  match m with
  | (t, inl e) => (t, inl e)
  | (t, inr a) => let '(t', r) := k a in (t ++ t', r)
  end.

(** [try: m  except <caught>: h] *)
Definition try_except {A} (m : Run A) (caught : Exn -> bool) (h : Exn -> Run A) : Run A :=
  match m with
  | (t, inl e) => if caught e then let '(t', r) := h e in (t ++ t', r) else (t, inl e)
  | (t, inr a) => (t, inr a)
  end.

Declare Scope run_scope.
Delimit Scope run_scope with run.
Notation "x <- m ;; k" := (bind m (fun x => k))
  (at level 100, m at next level, right associativity) : run_scope.
Notation "m ;;; k" := (bind m (fun _ => k))
  (at level 100, right associativity) : run_scope.
Local Open Scope run_scope.

(** A remote call: the call is observed, then it answers or raises. *)
Definition call {A} (ev : Event) (answer : Exn + A) : Run A :=
  (emit ev ;;; match answer with inl e => raise e | inr a => ret a end).

Definition print (msg : string) : Run unit := emit (Stdout msg).
Definition log (lvl : Level) (msg : string) : Run unit := emit (Logging lvl msg).

(** Unfolding the operations of the monad in a goal. *)
Ltac run_unfold :=
  unfold call, bind, try_except, emit, ret, raise, print, log; simpl.

(** ** Python helpers *)

(** The path that passes [if not file_path: ... continue]: [None] and the
    empty string are false in Python and do not pass. *)
Definition truthy (p : option string) : option string :=
  match p with
  | Some EmptyString => None
  | other => other
  end.

(** [item.get('Name', 'Unknown')] *)
Definition item_name (item : JfItem) : string :=
  default "Unknown" (it_Name item).

(** The newline character of ["\n..."]. *)
Definition nl : string := String (ascii_of_nat 10) EmptyString.

(** [len(xs)] inside an f-string. *)
Definition str_len {A} (xs : list A) : string := pretty (length xs).

(** [for x in xs: body(x)] for a body that only acts. *)
Fixpoint for_each {A} (body : A -> Run unit) (xs : list A) : Run unit :=
  match xs with
  | [] => ret tt
  | x :: rest => (body x ;;; for_each body rest)
  end.

(** The path of an item as [migrate_playlist.py] and [playlist_migrator.py]
    read it: the [Path] of the first media source, when there is one. *)
Definition media_source_path (item : JfItem) : option string :=
  match it_MediaSources item with
  | Some (media_source :: _) => ms_Path media_source
  | _ => None
  end.

(** ** src/migrate_playlist/cli.py *)
Module Cli.

(** [find_plex_item]: the loop over the sections.  The [try] block either
    returns the first result ([Some]) or falls through to the next
    section; [except Exception: continue] does the same, silently. *)
Fixpoint find_in_sections (sections : list PlexSection) (path : string)
  : Run (option PlexItem) :=
  match sections with
  | [] => ret None
  | section :: rest =>
      found <- try_except
                 (results <- call (PlexSearch (sec_title section) path)
                                  (sec_search_filename section path) ;;
                  match results with
                  | first :: _ => ret (Some first)
                  | [] => ret None
                  end)
                 is_Exception
                 (fun _ => ret None) ;;
      match found with
      | Some plex_item => ret (Some plex_item)
      | None => find_in_sections rest path
      end
  end.

Definition find_plex_item (w : World) (path : string) : Run (option PlexItem) :=
  (sections <- call PlexSections (plex_sections w) ;;
   find_in_sections sections path).

(** The body of [for item in items]. *)
Definition loop_body (w : World) (plex_items : list PlexItem) (item : JfItem)
  : Run (list PlexItem) :=
  match truthy (it_Path item) with
  | None => ret plex_items
  | Some path =>
      plex_item <- find_plex_item w path ;;
      match plex_item with
      | Some p => ret (plex_items ++ [p])
      | None =>
          (emit (Stderr ("Warning: could not find '" +:+ path +:+ "' in Plex")) ;;;
           ret plex_items)
      end
  end.

Fixpoint for_items (w : World) (items : list JfItem) (plex_items : list PlexItem)
  : Run (list PlexItem) :=
  match items with
  | [] => ret plex_items
  | item :: rest =>
      (plex_items' <- loop_body w plex_items item ;;
       for_items w rest plex_items')
  end.

(** [next((p for p in playlists if p.get("Name") == name), None)] *)
Definition select_playlist (playlists : list JfPlaylist) (name : string)
  : option JfPlaylist :=
  List.find (fun p => String.eqb (pl_Name p) name) playlists.

(** [migrate_playlist]: returns normally after the creation, raises
    [SystemExit] with a message otherwise. *)
Definition migrate_playlist (w : World) (name : string) : Run unit :=
  (user_id <- call JfUsersMe (jf_users_me w) ;;
   playlists <- call JfGetPlaylists (jf_playlists w) ;;
   match select_playlist playlists name with
   | None => raise (SystemExit ("Playlist '" +:+ name +:+ "' not found on Jellyfin"))
   | Some playlist =>
       items <- call (JfGetPlaylistItems (pl_Id playlist))
                     (jf_playlist_items w (pl_Id playlist)) ;;
       account <- call PlexAccount (myplex_account w) ;;
       plex <- call PlexConnect (plex_server w) ;;
       plex_items <- for_items w items [] ;;
       match plex_items with
       | [] => raise (SystemExit "No matching items found in Plex")
       | _ =>
           (created <- call (PlexCreatePlaylist name plex_items)
                            (plex_create w name plex_items) ;;
            print ("Created playlist '" +:+ name +:+ "' in Plex with "
                   +:+ str_len plex_items +:+ " items"))
       end
   end).

End Cli.

(** ** src/playlist_migrator.py *)
Module PlaylistMigrator.

(** [JellyfinClient.__init__] / [_authenticate] *)
Definition JellyfinClient (w : World) : Run unit :=
  try_except
    (user <- call JfAuthenticate (jf_authenticate w) ;;
     print ("Successfully authenticated with Jellyfin as user: " +:+ user))
    is_RequestException
    (fun e =>
       (print ("Failed to authenticate with Jellyfin: " +:+ str_exn e) ;;;
        raise (SystemExit "1"))).

Definition search_playlists (w : World) (search_term : string)
  : Run (list JfPlaylist) :=
  try_except
    (call (JfSearchPlaylists search_term) (jf_search w search_term))
    is_RequestException
    (fun e => (print ("Failed to search playlists: " +:+ str_exn e) ;;; ret [])).

Definition get_playlist_items (w : World) (playlist_id : string)
  : Run (list JfItem) :=
  try_except
    (call (JfGetPlaylistItems playlist_id) (jf_playlist_items w playlist_id))
    is_RequestException
    (fun e => (print ("Failed to get playlist items: " +:+ str_exn e) ;;; ret [])).

(** [PlexClient.__init__] (both ways of connecting are one remote call). *)
Definition PlexClient (w : World) : Run unit :=
  try_except
    (account <- call PlexAccount (myplex_account w) ;;
     print ("Successfully authenticated with MyPlex as user: " +:+ account) ;;;
     server <- call PlexConnect (plex_server w) ;;
     print ("Successfully connected to Plex server: " +:+ server))
    is_Exception
    (fun e =>
       (print ("Failed to connect to Plex server: " +:+ str_exn e) ;;;
        raise (SystemExit "1"))).

(** The loop of [find_media_by_path]; the bare [except: continue]
    catches everything and says nothing. *)
Fixpoint find_in_sections (sections : list PlexSection) (file_path : string)
  : Run (option PlexItem) :=
  match sections with
  | [] => ret None
  | library :: rest =>
      found <- try_except
                 (results <- call (PlexSearch (sec_title library) file_path)
                                  (sec_search_filepath library file_path) ;;
                  match results with
                  | first :: _ => ret (Some first)
                  | [] => ret None
                  end)
                 (fun _ => true)
                 (fun _ => ret None) ;;
      match found with
      | Some plex_item => ret (Some plex_item)
      | None => find_in_sections rest file_path
      end
  end.

Definition find_media_by_path (w : World) (file_path : string)
  : Run (option PlexItem) :=
  try_except
    (sections <- call PlexSections (plex_sections w) ;;
     find_in_sections sections file_path)
    is_Exception
    (fun e =>
       (print ("Error searching for media by path " +:+ file_path +:+ ": "
               +:+ str_exn e) ;;;
        ret None)).

Definition create_playlist (w : World) (name : string) (items : list PlexItem)
  : Run bool :=
  try_except
    match items with
    | [] => (print ("No valid items found to create playlist '" +:+ name +:+ "'") ;;;
             ret false)
    | _ =>
        (playlist <- call (PlexCreatePlaylist name items) (plex_create w name items) ;;
         print ("Successfully created playlist '" +:+ name +:+ "' with "
                +:+ str_len items +:+ " items") ;;;
         ret true)
    end
    is_Exception
    (fun e =>
       (print ("Failed to create playlist '" +:+ name +:+ "': " +:+ str_exn e) ;;;
        ret false)).

(** The body of [for item in jellyfin_items], on the pair
    [(plex_items, not_found_items)]. *)
Definition loop_body (w : World) (acc : list PlexItem * list string) (item : JfItem)
  : Run (list PlexItem * list string) :=
  let '(plex_items, not_found_items) := acc in
  match truthy (media_source_path item) with
  | None =>
      (print ("No file path found for item: " +:+ item_name item) ;;;
       ret (plex_items, not_found_items ++ [item_name item]))
  | Some file_path =>
      plex_item <- find_media_by_path w file_path ;;
      match plex_item with
      | Some p =>
          (print ("✓ Found: " +:+ item_name item) ;;;
           ret (plex_items ++ [p], not_found_items))
      | None =>
          (print ("✗ Not found in Plex: " +:+ item_name item
                  +:+ " (path: " +:+ file_path +:+ ")") ;;;
           ret (plex_items, not_found_items ++ [item_name item]))
      end
  end.

Fixpoint for_items (w : World) (items : list JfItem)
  (acc : list PlexItem * list string) : Run (list PlexItem * list string) :=
  match items with
  | [] => ret acc
  | item :: rest => (acc' <- loop_body w acc item ;; for_items w rest acc')
  end.

Section Lower.
(** [str.lower] *)
Variable lower : string -> string.

(** The exact-match loop over the search results, then the fallback to
    [playlists[0]] with its message.  [playlists] is not empty here. *)
Definition select_playlist (playlists : list JfPlaylist) (playlist_name : string)
  : Run JfPlaylist :=
  match List.find (fun p => String.eqb (lower (pl_Name p)) (lower playlist_name))
                  playlists with
  | Some target_playlist =>
      (print ("Found playlist: " +:+ pl_Name target_playlist) ;;;
       ret target_playlist)
  | None =>
      match playlists with
      | target_playlist :: _ =>
          (print ("Exact match not found, using playlist: "
                  +:+ pl_Name target_playlist) ;;;
           ret target_playlist)
      | [] => raise (Exception "IndexError: list index out of range")
      end
  end.

Definition migrate_playlist (w : World) (playlist_name : string) : Run bool :=
  (print ("Starting migration of playlist '" +:+ playlist_name +:+ "'...") ;;;
   JellyfinClient w ;;;
   PlexClient w ;;;
   print ("Searching for playlist '" +:+ playlist_name +:+ "' in Jellyfin...") ;;;
   playlists <- search_playlists w playlist_name ;;
   match playlists with
   | [] => (print ("No playlist found with name '" +:+ playlist_name +:+ "'") ;;;
            ret false)
   | _ =>
       target_playlist <- select_playlist playlists playlist_name ;;
       print "Retrieving playlist items..." ;;;
       jellyfin_items <- get_playlist_items w (pl_Id target_playlist) ;;
       match jellyfin_items with
       | [] => (print "Playlist is empty or could not retrieve items" ;;; ret false)
       | _ =>
           print ("Found " +:+ str_len jellyfin_items +:+ " items in Jellyfin playlist") ;;;
           acc <- for_items w jellyfin_items ([], []) ;;
           let '(plex_items, not_found_items) := acc in
           match plex_items with
           | [] => (print "No matching items found in Plex. Cannot create playlist." ;;;
                    ret false)
           | _ =>
               print (nl +:+ "Found " +:+ str_len plex_items +:+ " matching items in Plex") ;;;
               match not_found_items with
               | [] => ret tt
               | _ =>
                   (print ("Could not find " +:+ str_len not_found_items
                           +:+ " items in Plex:") ;;;
                    for_each (fun item_name => print ("  - " +:+ item_name))
                             not_found_items)
               end ;;;
               let playlist_name_plex := pl_Name target_playlist +:+ " (from Jellyfin)" in
               success <- create_playlist w playlist_name_plex plex_items ;;
               if success : bool then
                 (print (nl +:+ "✅ Successfully migrated playlist '" +:+ playlist_name +:+ "' to Plex!") ;;;
                  print ("   Plex playlist name: '" +:+ playlist_name_plex +:+ "'") ;;;
                  print ("   Items migrated: " +:+ str_len plex_items +:+ "/"
                         +:+ str_len jellyfin_items) ;;;
                  ret true)
               else
                 (print (nl +:+ "❌ Failed to create playlist in Plex") ;;; ret false)
           end
       end
   end).
End Lower.

End PlaylistMigrator.

(** ** src/migrate_playlist.py *)
Module MigratePlaylist.

(** [JellyfinClient.get_playlists]: [raise_for_status] lets the error out. *)
Definition get_playlists (w : World) : Run (list JfPlaylist) :=
  call JfGetPlaylists (jf_playlists w).

Definition get_playlist_items (w : World) (playlist_id : string)
  : Run (list JfItem) :=
  call (JfGetPlaylistItems playlist_id) (jf_playlist_items w playlist_id).

(** The three inner loops of [find_media_by_path] on one entry:
    some part of some media has exactly this file. *)
Definition has_file (file_path : string) (item : PlexItem) : bool :=
  match media item with
  | None => false
  | Some medias =>
      existsb (fun m => existsb (fun part => String.eqb (file part) file_path)
                                (parts m))
              medias
  end.

(** The loop over the sections: reading a section may raise, which is
    logged as a warning before going on with the next section. *)
Fixpoint find_in_sections (sections : list PlexSection) (file_path : string)
  : Run (option PlexItem) :=
  match sections with
  | [] => ret None
  | section :: rest =>
      found <- try_except
                 (items <- call (PlexSectionAll (sec_title section)) (sec_all section) ;;
                  ret (List.find (has_file file_path) items))
                 is_Exception
                 (fun e =>
                    (log WARNING ("Error searching section " +:+ sec_title section
                                  +:+ ": " +:+ str_exn e) ;;;
                     ret None)) ;;
      match found with
      | Some item => ret (Some item)
      | None => find_in_sections rest file_path
      end
  end.

Definition find_media_by_path (w : World) (file_path : string)
  : Run (option PlexItem) :=
  (sections <- call PlexSections (plex_sections w) ;;
   find_in_sections sections file_path).

Definition create_playlist (w : World) (name : string) (items : list PlexItem)
  : Run string :=
  call (PlexCreatePlaylist name items) (plex_create w name items).

(** The body of [for item in jellyfin_items], on the pair
    [(plex_items, missing_items)]. *)
Definition loop_body (w : World) (acc : list PlexItem * list string) (item : JfItem)
  : Run (list PlexItem * list string) :=
  let '(plex_items, missing_items) := acc in
  (log INFO ("Processing item: " +:+ item_name item) ;;;
   match truthy (media_source_path item) with
   | None =>
       (log WARNING ("No file path found for item: " +:+ item_name item) ;;;
        ret (plex_items, missing_items ++ [item_name item]))
   | Some file_path =>
       plex_item <- find_media_by_path w file_path ;;
       match plex_item with
       | Some p =>
           (log INFO ("Found matching Plex item: " +:+ title p) ;;;
            ret (plex_items ++ [p], missing_items))
       | None =>
           (log WARNING ("No matching Plex item found for path: " +:+ file_path) ;;;
            ret (plex_items,
                 missing_items ++ [item_name item +:+ " (" +:+ file_path +:+ ")"]))
       end
   end).

Fixpoint for_items (w : World) (items : list JfItem)
  (acc : list PlexItem * list string) : Run (list PlexItem * list string) :=
  match items with
  | [] => ret acc
  | item :: rest => (acc' <- loop_body w acc item ;; for_items w rest acc')
  end.

Section Lower.
(** [str.lower] *)
Variable lower : string -> string.

Definition find_playlist_by_name (w : World) (name : string)
  : Run (option JfPlaylist) :=
  (playlists <- get_playlists w ;;
   ret (List.find (fun p => String.eqb (lower (pl_Name p)) (lower name)) playlists)).

(** [PlaylistMigrator.migrate_playlist] *)
Definition migrate_playlist (w : World) (playlist_name : string) (dry_run : bool)
  : Run bool :=
  (log INFO ("Starting migration of playlist: " +:+ playlist_name) ;;;
   jellyfin_playlist <- find_playlist_by_name w playlist_name ;;
   match jellyfin_playlist with
   | None =>
       (log ERROR ("Playlist '" +:+ playlist_name +:+ "' not found in Jellyfin") ;;;
        ret false)
   | Some jellyfin_playlist =>
       log INFO ("Found playlist: " +:+ pl_Name jellyfin_playlist
                 +:+ " (ID: " +:+ pl_Id jellyfin_playlist +:+ ")") ;;;
       jellyfin_items <- get_playlist_items w (pl_Id jellyfin_playlist) ;;
       log INFO ("Playlist contains " +:+ str_len jellyfin_items +:+ " items") ;;;
       acc <- for_items w jellyfin_items ([], []) ;;
       let '(plex_items, missing_items) := acc in
       match missing_items with
       | [] => ret tt
       | _ =>
           (log WARNING ("Could not find " +:+ str_len missing_items
                         +:+ " items in Plex:") ;;;
            for_each (fun item => log WARNING ("  - " +:+ item)) missing_items)
       end ;;;
       match plex_items with
       | [] =>
           (log ERROR "No matching items found in Plex. Cannot create playlist." ;;;
            ret false)
       | _ =>
           log INFO ("Found " +:+ str_len plex_items +:+ " matching items in Plex") ;;;
           if dry_run then
             (log INFO "DRY RUN: Would create playlist with the following items:" ;;;
              for_each (fun item => log INFO ("  - " +:+ title item)) plex_items ;;;
              ret true)
           else
             try_except
               (new_playlist <- create_playlist w (pl_Name jellyfin_playlist) plex_items ;;
                log INFO ("Successfully created playlist '" +:+ new_playlist
                          +:+ "' in Plex") ;;;
                ret true)
               is_Exception
               (fun e =>
                  (log ERROR ("Failed to create playlist in Plex: " +:+ str_exn e) ;;;
                   ret false))
       end
   end).
End Lower.

End MigratePlaylist.

(** ** Vocabulary of the statements *)

(** The run ended in failure: [False] was returned, or an exception
    (a [SystemExit] included) escaped. *)
Definition failed_bool (r : Exn + bool) : Prop := r <> inr true.
Definition failed_unit (r : Exn + unit) : Prop := exists e, r = inl e.

(** What a lookup found ([None] when it raised). *)
Definition lookup_result (r : Run (option PlexItem)) : option PlexItem :=
  match outcome r with
  | inr found => found
  | inl _ => None
  end.

(** The destination entry an item resolves to: it needs a usable path, and
    the lookup of that path must return an entry. *)
Definition cli_resolve (w : World) (item : JfItem) : option PlexItem :=
  match truthy (it_Path item) with
  | Some path => lookup_result (Cli.find_plex_item w path)
  | None => None
  end.

Definition pm_resolve (w : World) (item : JfItem) : option PlexItem :=
  match truthy (media_source_path item) with
  | Some path => lookup_result (PlaylistMigrator.find_media_by_path w path)
  | None => None
  end.

Definition mp_resolve (w : World) (item : JfItem) : option PlexItem :=
  match truthy (media_source_path item) with
  | Some path => lookup_result (MigratePlaylist.find_media_by_path w path)
  | None => None
  end.

(** The entry an unmatched item leaves in [missing_items]
    ([migrate_playlist.py]) or [not_found_items] ([playlist_migrator.py]). *)
Definition mp_missing_entry (w : World) (item : JfItem) : option string :=
  match truthy (media_source_path item) with
  | None => Some (item_name item)
  | Some path =>
      match lookup_result (MigratePlaylist.find_media_by_path w path) with
      | Some _ => None
      | None => Some (item_name item +:+ " (" +:+ path +:+ ")")
      end
  end.

Definition pm_missing_entry (w : World) (item : JfItem) : option string :=
  match pm_resolve w item with
  | Some _ => None
  | None => Some (item_name item)
  end.

(** The message an unmatched item leaves in the report, if any. *)
Definition mp_unmatched_message (w : World) (item : JfItem) : option string :=
  match truthy (media_source_path item) with
  | None => Some ("No file path found for item: " +:+ item_name item)
  | Some path =>
      match lookup_result (MigratePlaylist.find_media_by_path w path) with
      | Some _ => None
      | None => Some ("No matching Plex item found for path: " +:+ path)
      end
  end.

Definition pm_unmatched_message (w : World) (item : JfItem) : option string :=
  match truthy (media_source_path item) with
  | None => Some ("No file path found for item: " +:+ item_name item)
  | Some path =>
      match lookup_result (PlaylistMigrator.find_media_by_path w path) with
      | Some _ => None
      | None => Some ("✗ Not found in Plex: " +:+ item_name item
                      +:+ " (path: " +:+ path +:+ ")")
      end
  end.

Definition cli_unmatched_message (w : World) (item : JfItem) : option string :=
  match truthy (it_Path item) with
  | None => None
  | Some path =>
      match lookup_result (Cli.find_plex_item w path) with
      | Some _ => None
      | None => Some ("Warning: could not find '" +:+ path +:+ "' in Plex")
      end
  end.

(** The section's query raises an [Exception] / answers without a hit. *)
Definition raises {A} (answer : Exn + A) : Prop :=
  exists e, answer = inl e /\ is_Exception e = true.

Definition no_hit (answer : Exn + list PlexItem) : Prop := answer = inr [].

(** Some part of the entry is indexed under exactly this path. *)
Definition indexed_under (p : PlexItem) (path : string) : Prop :=
  exists medias m part,
    media p = Some medias /\ m ∈ medias /\ part ∈ parts m /\ file part = path.

(** Every event of a run satisfies [P]. *)
Definition only {A} (P : Event -> Prop) (m : Run A) : Prop := Forall P (trace m).

(** Predicates on single events. *)
Definition no_creation (ev : Event) : Prop :=
  match ev with PlexCreatePlaylist _ _ => False | _ => True end.

Definition search_for (path : string) (ev : Event) : Prop :=
  match ev with PlexSearch _ p => p = path | _ => True end.

Definition no_message (ev : Event) : Prop :=
  match ev with Logging _ _ | Stdout _ | Stderr _ => False | _ => True end.

(** ** Sample data *)

(** [str.lower] on ASCII letters. *)
Definition ascii_lower (c : ascii) : ascii :=
  let n := nat_of_ascii c in
  if Nat.leb 65 n && Nat.leb n 90 then ascii_of_nat (n + 32) else c.

Fixpoint str_lower (s : string) : string :=
  match s with
  | EmptyString => EmptyString
  | String c rest => String (ascii_lower c) (str_lower rest)
  end.

Definition jf_item (name : string) (path : option string) : JfItem :=
  {| it_Name := Some name;
     it_MediaSources := Some [ {| ms_Path := path |} ];
     it_Path := path |}.

Definition track (path : string) : PlexItem :=
  {| title := path; media := Some [ {| parts := [ {| file := path |} ] |} ] |}.

(** A section that indexes [entries] and answers searches by exact file. *)
Definition section_of (name : string) (entries : list PlexItem) : PlexSection :=
  {| sec_title := name;
     sec_all := inr entries;
     sec_search_filepath :=
       fun p => inr (List.filter (MigratePlaylist.has_file p) entries);
     sec_search_filename :=
       fun p => inr (List.filter (MigratePlaylist.has_file p) entries) |}.

(** A section whose every query raises. *)
Definition broken_section (name : string) : PlexSection :=
  {| sec_title := name;
     sec_all := inl (Exception "timeout");
     sec_search_filepath := fun _ => inl (Exception "timeout");
     sec_search_filename := fun _ => inl (Exception "timeout") |}.

(** A world where every call but the listed ones succeeds. *)
Definition world_of (playlists : list JfPlaylist) (items : list JfItem)
  (sections : list PlexSection) : World :=
  {| jf_authenticate := inr "demo";
     jf_users_me := inr "user-1";
     jf_playlists := inr playlists;
     jf_search := fun _ => inr playlists;
     jf_playlist_items := fun _ => inr items;
     myplex_account := inr "plex-user";
     plex_server := inr "plex-server";
     plex_sections := inr sections;
     plex_create := fun name _ => inr name |}.

Definition road_trip : JfPlaylist := {| pl_Name := "Road Trip"; pl_Id := "7" |}.
Definition road_trip_mix : JfPlaylist := {| pl_Name := "Road Trip Mix"; pl_Id := "8" |}.

(** The source only has a playlist with a longer name. *)
Definition only_the_mix : World :=
  world_of [road_trip_mix] [jf_item "a" (Some "/media/a.mp3")]
           [section_of "Music" [track "/media/a.mp3"]].

(** Scenario A of the specification. *)
Definition scenario_a : World :=
  world_of [road_trip]
           [jf_item "a" (Some "/media/a.mp3"); jf_item "b" (Some "/media/b.mp3");
            jf_item "c" None]
           [section_of "Music" [track "/media/b.mp3"; track "/media/a.mp3"]].

(** Scenario B: nothing matches. *)
Definition scenario_b : World :=
  world_of [road_trip] [jf_item "x" (Some "/media/x.mp3")]
           [section_of "Music" [track "/media/a.mp3"]].

(** Scenario C: the first library fails, the second has the file. *)
Definition scenario_c : World :=
  world_of [road_trip] [jf_item "a" (Some "/media/a.mp3")]
           [broken_section "Films"; section_of "Music" [track "/media/a.mp3"]].

(** Every library fails. *)
Definition all_broken : World :=
  world_of [road_trip] [jf_item "a" (Some "/media/a.mp3")]
           [broken_section "Films"; broken_section "Music"].

(** Every library answers, none has the file. *)
Definition all_empty : World :=
  world_of [road_trip] [jf_item "a" (Some "/media/a.mp3")]
           [section_of "Films" []; section_of "Music" []].

(** ** The base URL of the Jellyfin requests *)

(** [s.rstrip('/')]: the string without its trailing slashes. *)
Fixpoint rstrip_slash (s : string) : string :=
  match s with
  | EmptyString => EmptyString
  | String c rest =>
      match rstrip_slash rest with
      | EmptyString => if Ascii.eqb c "/" then EmptyString else String c EmptyString
      | kept => String c kept
      end
  end.

(** [n] slashes. *)
Fixpoint slashes (n : nat) : string :=
  match n with
  | O => EmptyString
  | S n' => String "/" (slashes n')
  end.

(** The last character of a string, if any. *)
Fixpoint last_char (s : string) : option ascii :=
  match s with
  | EmptyString => None
  | String c EmptyString => Some c
  | String _ rest => last_char rest
  end.

(** The URLs [playlist_migrator.py] requests: [self.base_url] is
    [base_url.rstrip('/')] ([JellyfinClient.__init__]). *)
Module PlaylistMigratorUrls.

Definition auth_url (base_url : string) : string :=
  rstrip_slash base_url +:+ "/Users/authenticatebyname".

Definition search_url (base_url user_id : string) : string :=
  rstrip_slash base_url +:+ "/Users/" +:+ user_id +:+ "/Items".

Definition items_url (base_url playlist_id : string) : string :=
  rstrip_slash base_url +:+ "/Playlists/" +:+ playlist_id +:+ "/Items".

End PlaylistMigratorUrls.

(** The URLs of [get_jf_user], [get_jf_playlists] and
    [get_jf_playlist_items] in [cli.py]. *)
Module CliUrls.

Definition get_jf_user (base_url : string) : string :=
  rstrip_slash base_url +:+ "/Users/Me".

Definition get_jf_playlists (base_url : string) : string :=
  rstrip_slash base_url +:+ "/Items".

Definition get_jf_playlist_items (base_url playlist_id : string) : string :=
  rstrip_slash base_url +:+ "/Playlists/" +:+ playlist_id +:+ "/Items".

End CliUrls.

(** ** The entry points *)

(** The status the process ends with: [0] after a normal return or
    [sys.exit(0)], the integer given to [sys.exit] ([SystemExit "1"] and
    [SystemExit "2"] stand for [sys.exit(1)] and for the exit of
    [parser.error]), and [1] for a [SystemExit] with a message or for any
    other exception that escapes. *)
Definition exit_status {A} (r : Exn + A) : nat :=
  match r with
  | inr _ => 0
  | inl (SystemExit arg) =>
      if String.eqb arg "0" then 0 else if String.eqb arg "2" then 2 else 1
  | inl _ => 1
  end.

(** [all([...])] over optional strings: every one is present and not empty. *)
Definition all_truthy (values : list (option string)) : bool :=
  forallb (fun v => match truthy v with Some _ => true | None => false end) values.

(** [main] of [src/migrate_playlist.py].  The password read by [getpass]
    and the credentials are inputs of the remote ends, whose answers the
    [World] holds; the prompt itself goes to the terminal and is not part
    of the trace. *)
Module MigratePlaylistMain.

Record Args := {
  playlist_name : string;
  jellyfin_url : option string;
  jellyfin_api_key : option string;
  plex_url : option string;
  plex_username : option string;
  dry_run : bool;
  verbose : bool
}.

(** [PlexClient.__init__]: the account, then the server. *)
Definition PlexClient (w : World) : Run unit :=
  (account <- call PlexAccount (myplex_account w) ;;
   plex <- call PlexConnect (plex_server w) ;;
   ret tt).

Section Main.
(** [str.lower], and the two [isinstance] tests of the [except] clauses:
    [plexapi.exceptions.Unauthorized] and
    [requests.exceptions.ConnectionError], both subclasses of [Exception]. *)
Variable lower : string -> string.
Variable is_Unauthorized : Exn -> bool.
Variable is_ConnectionError : Exn -> bool.

(** The three [except] clauses, in order.  [logging.exception] logs its
    message at level ERROR (the traceback that follows it is not kept). *)
Definition handle (args : Args) (e : Exn) : Run unit :=
  if is_Unauthorized e then
    (log ERROR "Authentication failed. Please check your credentials." ;;;
     raise (SystemExit "1"))
  else if is_ConnectionError e then
    (log ERROR "Connection failed. Please check your server URLs." ;;;
     raise (SystemExit "1"))
  else
    (log ERROR ("Unexpected error: " +:+ str_exn e) ;;;
     (if verbose args then log ERROR "Full traceback:" else ret tt) ;;;
     raise (SystemExit "1")).

Definition main (args : Args) (w : World) : Run unit :=
  if all_truthy [jellyfin_url args; jellyfin_api_key args; plex_url args;
                 plex_username args]
  then
    try_except
      (PlexClient w ;;;
       success <- MigratePlaylist.migrate_playlist lower w (playlist_name args)
                                                   (dry_run args) ;;
       if success : bool then
         (log INFO (if dry_run args then "Dry run completed successfully"
                    else "Playlist migration completed successfully") ;;;
          raise (SystemExit "0"))
       else
         (log ERROR "Playlist migration failed" ;;;
          raise (SystemExit "1")))
      is_Exception
      (handle args)
  else
    (log ERROR "Missing required credentials. Please provide all of:" ;;;
     log ERROR "  - Jellyfin URL and API key" ;;;
     log ERROR "  - Plex URL and username" ;;;
     log ERROR "Use --help for more information about setting these values." ;;;
     raise (SystemExit "1")).
End Main.

End MigratePlaylistMain.

(** [main] of [src/playlist_migrator.py]: argparse requires every
    connection argument, the passwords are prompted for when missing, and
    the process exits with [0 if success else 1]. *)
Module PlaylistMigratorMain.

Definition main (lower : string -> string) (playlist : string) (w : World) : Run unit :=
  (success <- PlaylistMigrator.migrate_playlist lower w playlist ;;
   raise (SystemExit (if success : bool then "0" else "1"))).

End PlaylistMigratorMain.

(** [main] of [src/migrate_playlist/cli.py]: [parser.error] writes its
    message (after the usage line) on stderr and exits with status 2; the
    missing user name and password are prompted for on the terminal. *)
Module CliMain.

Record Args := {
  playlist_name : string;
  jellyfin_url : option string;
  jellyfin_token : option string;
  plex_url : option string;
  plex_username : option string;
  plex_password : option string
}.

Definition main (args : Args) (w : World) : Run unit :=
  if all_truthy [jellyfin_url args; jellyfin_token args; plex_url args]
  then Cli.migrate_playlist w (playlist_name args)
  else
    (emit (Stderr "Jellyfin and Plex connection information is required") ;;;
     raise (SystemExit "2")).

End CliMain.

(** ** Further vocabulary *)

(** The remote calls of a trace that read: everything but the messages and
    the playlist creation. *)
Definition is_read (ev : Event) : bool :=
  match ev with
  | Logging _ _ | Stdout _ | Stderr _ | PlexCreatePlaylist _ _ => false
  | _ => true
  end.

Definition reads (t : list Event) : list Event := List.filter is_read t.

(** The remote calls of a trace, of any kind. *)
Definition is_remote (ev : Event) : bool :=
  match ev with
  | Logging _ _ | Stdout _ | Stderr _ => false
  | _ => true
  end.

Definition remote_calls (t : list Event) : list Event := List.filter is_remote t.

(** A section can be read: [section.all()] answers, or raises an
    [Exception] that the lookup of [migrate_playlist.py] tolerates. *)
Definition readable_or_skipped (s : PlexSection) : Prop :=
  match sec_all s with
  | inr _ => True
  | inl e => is_Exception e = true
  end.

(** The section gives nothing for the path in [migrate_playlist.py]: it
    raises an [Exception], or none of its entries has the file. *)
Definition mp_nothing (path : string) (s : PlexSection) : Prop :=
  raises (sec_all s)
  \/ exists items, sec_all s = inr items
                   /\ List.find (MigratePlaylist.has_file path) items = None.

(** A sample command line. *)
Definition sample_args (dry : bool) : MigratePlaylistMain.Args :=
  {| MigratePlaylistMain.playlist_name := "Road Trip";
     MigratePlaylistMain.jellyfin_url := Some "http://jellyfin:8096";
     MigratePlaylistMain.jellyfin_api_key := Some "key";
     MigratePlaylistMain.plex_url := Some "http://plex:32400";
     MigratePlaylistMain.plex_username := Some "me";
     MigratePlaylistMain.dry_run := dry;
     MigratePlaylistMain.verbose := false |}.

Definition sample_cli_args : CliMain.Args :=
  {| CliMain.playlist_name := "Road Trip";
     CliMain.jellyfin_url := Some "http://jellyfin:8096";
     CliMain.jellyfin_token := Some "key";
     CliMain.plex_url := Some "http://plex:32400";
     CliMain.plex_username := None;
     CliMain.plex_password := None |}.

(** [isinstance] tests for the sample runs: an exception is told by its
    message. *)
Definition sample_is_unauthorized (e : Exn) : bool :=
  match e with Exception m => String.eqb m "unauthorized" | _ => false end.

Definition sample_is_connection_error (e : Exn) : bool :=
  match e with RequestException m => String.eqb m "connection refused" | _ => false end.

(** Scenario A on a Plex server that refuses to create playlists. *)
Definition creation_refused : World :=
  {| jf_authenticate := jf_authenticate scenario_a;
     jf_users_me := jf_users_me scenario_a;
     jf_playlists := jf_playlists scenario_a;
     jf_search := jf_search scenario_a;
     jf_playlist_items := jf_playlist_items scenario_a;
     myplex_account := myplex_account scenario_a;
     plex_server := plex_server scenario_a;
     plex_sections := plex_sections scenario_a;
     plex_create := fun _ _ => inl (Exception "refused") |}.

(** The source playlist exists and is empty. *)
Definition empty_playlist : World :=
  world_of [road_trip] [] [section_of "Music" [track "/media/a.mp3"]].

(** Jellyfin rejects the login; Plex rejects the login; the search of the
    playlists fails. *)
Definition jellyfin_login_fails : World :=
  {| jf_authenticate := inl (RequestException "401 Unauthorized");
     jf_users_me := jf_users_me scenario_a;
     jf_playlists := jf_playlists scenario_a;
     jf_search := jf_search scenario_a;
     jf_playlist_items := jf_playlist_items scenario_a;
     myplex_account := myplex_account scenario_a;
     plex_server := plex_server scenario_a;
     plex_sections := plex_sections scenario_a;
     plex_create := plex_create scenario_a |}.

Definition plex_login_fails : World :=
  {| jf_authenticate := jf_authenticate scenario_a;
     jf_users_me := jf_users_me scenario_a;
     jf_playlists := jf_playlists scenario_a;
     jf_search := jf_search scenario_a;
     jf_playlist_items := jf_playlist_items scenario_a;
     myplex_account := inl (Exception "unauthorized");
     plex_server := plex_server scenario_a;
     plex_sections := plex_sections scenario_a;
     plex_create := plex_create scenario_a |}.

Definition search_fails : World :=
  {| jf_authenticate := jf_authenticate scenario_a;
     jf_users_me := jf_users_me scenario_a;
     jf_playlists := inl (RequestException "connection refused");
     jf_search := fun _ => inl (RequestException "connection refused");
     jf_playlist_items := jf_playlist_items scenario_a;
     myplex_account := myplex_account scenario_a;
     plex_server := plex_server scenario_a;
     plex_sections := plex_sections scenario_a;
     plex_create := plex_create scenario_a |}.

(** A remote call that fails raises an [Exception] (not a [SystemExit]). *)
Definition raises_exception {A} (answer : Exn + A) : Prop :=
  match answer with
  | inl e => is_Exception e = true
  | inr _ => True
  end.

Definition section_raises_exceptions (s : PlexSection) : Prop :=
  raises_exception (sec_all s)
  /\ (forall path, raises_exception (sec_search_filepath s path))
  /\ (forall path, raises_exception (sec_search_filename s path)).

(** The servers of this world fail with exceptions only. *)
Definition servers_raise_exceptions (w : World) : Prop :=
  raises_exception (jf_authenticate w)
  /\ raises_exception (jf_users_me w)
  /\ raises_exception (jf_playlists w)
  /\ (forall term, raises_exception (jf_search w term))
  /\ (forall playlist_id, raises_exception (jf_playlist_items w playlist_id))
  /\ raises_exception (myplex_account w)
  /\ raises_exception (plex_server w)
  /\ raises_exception (plex_sections w)
  /\ (forall sections, plex_sections w = inr sections ->
                       Forall section_raises_exceptions sections)
  /\ (forall name items, raises_exception (plex_create w name items)).

(** Every exception that leaves the run satisfies [P]. *)
Definition escapes {A} (P : Exn -> Prop) (m : Run A) : Prop :=
  match outcome m with
  | inl e => P e
  | inr _ => True
  end.

(** The exception ends the process with status 1. *)
Definition exits_with_1 (e : Exn) : Prop := exit_status (@inl Exn unit e) = 1.

(** A library whose search is looser than the equality of paths: it
    answers with the entries that have a file starting with the path that
    is searched for. *)
Definition has_file_prefix (p : string) (item : PlexItem) : bool :=
  match media item with
  | None => false
  | Some medias =>
      existsb (fun m => existsb (fun part => String.prefix p (file part)) (parts m))
              medias
  end.

Definition loose_section (name : string) (entries : list PlexItem) : PlexSection :=
  {| sec_title := name;
     sec_all := inr entries;
     sec_search_filepath := fun p => inr (List.filter (has_file_prefix p) entries);
     sec_search_filename := fun p => inr (List.filter (has_file_prefix p) entries) |}.

(** The library holds a backup copy of the file of the playlist, but not the
    file itself. *)
Definition backup_copy : World :=
  world_of [road_trip] [jf_item "a" (Some "/media/a.mp3")]
           [loose_section "Music" [track "/media/a.mp3.bak"]].

(** * Properties *)

(** ** The scenarios of the specification, run on the three migrators *)

(** Scenario A: two of three items are found; the playlist is created with
    [a] then [b], the order of the source, not that of the library. *)
Example scenario_a_runs :
  creations (trace (MigratePlaylist.migrate_playlist str_lower scenario_a "Road Trip" false))
  = [("Road Trip", [track "/media/a.mp3"; track "/media/b.mp3"])]
  /\ creations (trace (PlaylistMigrator.migrate_playlist str_lower scenario_a "Road Trip"))
     = [("Road Trip (from Jellyfin)", [track "/media/a.mp3"; track "/media/b.mp3"])]
  /\ creations (trace (Cli.migrate_playlist scenario_a "Road Trip"))
     = [("Road Trip", [track "/media/a.mp3"; track "/media/b.mp3"])].
Proof. repeat split. Qed.

(** Scenario B: nothing is found, nothing is written. *)
Example scenario_b_runs :
  MigratePlaylist.migrate_playlist str_lower scenario_b "Road Trip" false
  = ([Logging INFO "Starting migration of playlist: Road Trip";
      JfGetPlaylists;
      Logging INFO "Found playlist: Road Trip (ID: 7)";
      JfGetPlaylistItems "7";
      Logging INFO "Playlist contains 1 items";
      Logging INFO "Processing item: x";
      PlexSections;
      PlexSectionAll "Music";
      Logging WARNING "No matching Plex item found for path: /media/x.mp3";
      Logging WARNING "Could not find 1 items in Plex:";
      Logging WARNING "  - x (/media/x.mp3)";
      Logging ERROR "No matching items found in Plex. Cannot create playlist."],
     inr false)
  /\ outcome (PlaylistMigrator.migrate_playlist str_lower scenario_b "Road Trip")
     = inr false
  /\ outcome (Cli.migrate_playlist scenario_b "Road Trip")
     = inl (SystemExit "No matching items found in Plex").
Proof. repeat split. Qed.

(** Scenario C: the first library fails, the second one has the file. *)
Example scenario_c_runs :
  MigratePlaylist.find_media_by_path scenario_c "/media/a.mp3"
  = ([PlexSections;
      PlexSectionAll "Films";
      Logging WARNING "Error searching section Films: timeout";
      PlexSectionAll "Music"],
     inr (Some (track "/media/a.mp3")))
  /\ outcome (MigratePlaylist.migrate_playlist str_lower scenario_c "Road Trip" false)
     = inr true.
Proof. repeat split. Qed.

(** Scenario D: the source has no playlist of that name (and, here, none
    that the search would return). *)
Example scenario_d_runs :
  outcome (MigratePlaylist.migrate_playlist str_lower
             (world_of [] [] []) "Road Trip" false) = inr false
  /\ messages (trace (PlaylistMigrator.migrate_playlist str_lower
                        (world_of [] [] []) "Road Trip"))
     = ["Starting migration of playlist 'Road Trip'...";
        "Successfully authenticated with Jellyfin as user: demo";
        "Successfully authenticated with MyPlex as user: plex-user";
        "Successfully connected to Plex server: plex-server";
        "Searching for playlist 'Road Trip' in Jellyfin...";
        "No playlist found with name 'Road Trip'"]
  /\ outcome (Cli.migrate_playlist (world_of [] [] []) "Road Trip")
     = inl (SystemExit "Playlist 'Road Trip' not found on Jellyfin").
Proof. repeat split. Qed.

(** ** The monad *)

Lemma bind_emit {B} (ev : Event) (k : unit -> Run B) :
  bind (emit ev) k = (ev :: trace (k tt), outcome (k tt)).
Proof. unfold bind, emit. by destruct (k tt). Qed.

Lemma call_inr {A} (ev : Event) (a : A) : call ev (inr a) = ([ev], inr a).
Proof. reflexivity. Qed.

Lemma only_ret {A} P (a : A) : only P (ret a).
Proof. constructor. Qed.

Lemma only_emit P (ev : Event) : P ev -> only P (emit ev).
Proof. intros; by repeat constructor. Qed.

Lemma only_bind {A B} P (m : Run A) (k : A -> Run B) :
  only P m -> (forall a, outcome m = inr a -> only P (k a)) -> only P (bind m k).
Proof.
  destruct m as [t [e|a]]; unfold only; simpl; intros Hm Hk; [done|].
  specialize (Hk a eq_refl). destruct (k a) as [t' r]; simpl in *.
  by apply Forall_app.
Qed.

Lemma only_try_except {A} P (m : Run A) caught h :
  only P m -> (forall e, outcome m = inl e -> only P (h e)) ->
  only P (try_except m caught h).
Proof.
  destruct m as [t [e|a]]; unfold only; simpl; intros Hm Hh; [|done].
  destruct (caught e); [|done].
  specialize (Hh e eq_refl). destruct (h e) as [t' r]; simpl in *.
  by apply Forall_app.
Qed.

Lemma only_call {A} P (ev : Event) (answer : Exn + A) : P ev -> only P (call ev answer).
Proof. intros; destruct answer; by repeat constructor. Qed.

Lemma only_print P msg : P (Stdout msg) -> only P (print msg).
Proof. apply only_emit. Qed.

Lemma only_log P lvl msg : P (Logging lvl msg) -> only P (log lvl msg).
Proof. apply only_emit. Qed.

(** ** Traces *)

Lemma creations_app (t1 t2 : list Event) :
  creations (t1 ++ t2) = creations t1 ++ creations t2.
Proof. apply omap_app. Qed.

Lemma messages_app (t1 t2 : list Event) :
  messages (t1 ++ t2) = messages t1 ++ messages t2.
Proof. apply omap_app. Qed.

Lemma creations_none (t : list Event) : Forall no_creation t -> creations t = [].
Proof.
  induction 1 as [|ev t Hev _ IH]; [done|].
  destruct ev; simpl in *; try done.
Qed.

Lemma messages_none (t : list Event) : Forall no_message t -> messages t = [].
Proof.
  induction 1 as [|ev t Hev _ IH]; [done|].
  destruct ev; simpl in *; try done.
Qed.

Lemma searched_paths_for (path : string) (t : list Event) :
  Forall (search_for path) t -> Forall (eq path) (searched_paths t).
Proof.
  induction 1 as [|ev t Hev _ IH]; [constructor|].
  destruct ev; simpl in *; try done. by constructor.
Qed.

(** ** C1: an item without a file path *)

(** C1 (amended).  An item whose file path is absent is left unmatched at
    once, without any library query (listing, reading or searching a
    section) and with the list of matched entries unchanged.  In
    [migrate_playlist.py] and [playlist_migrator.py] the loop body says "No
    file path found for item: ..." and files the item's name among the
    missing ones.  In [cli.py] it does nothing at all: no record is kept and
    nothing is reported, so that the loop runs as if the item were not in
    the playlist. *)
Theorem C1_no_file_path_no_query (w : World) (item : JfItem) :
  (media_source_path item = None ->
   forall plex_items missing_items,
     MigratePlaylist.loop_body w (plex_items, missing_items) item
     = ([Logging INFO ("Processing item: " +:+ item_name item);
         Logging WARNING ("No file path found for item: " +:+ item_name item)],
        inr (plex_items, missing_items ++ [item_name item]))
     /\ library_queries
          (trace (MigratePlaylist.loop_body w (plex_items, missing_items) item)) = [])
  /\ (media_source_path item = None ->
      forall plex_items not_found_items,
        PlaylistMigrator.loop_body w (plex_items, not_found_items) item
        = ([Stdout ("No file path found for item: " +:+ item_name item)],
           inr (plex_items, not_found_items ++ [item_name item]))
        /\ library_queries
             (trace (PlaylistMigrator.loop_body w (plex_items, not_found_items) item)) = [])
  /\ (it_Path item = None ->
      forall plex_items,
        Cli.loop_body w plex_items item = ([], inr plex_items))
  /\ (it_Path item = None ->
      forall before after plex_items,
        Cli.for_items w (before ++ item :: after) plex_items
        = Cli.for_items w (before ++ after) plex_items).
Proof.
  split; [|split; [|split]]; intros Hpath.
  - intros. unfold MigratePlaylist.loop_body. by rewrite Hpath.
  - intros. unfold PlaylistMigrator.loop_body. by rewrite Hpath.
  - intros. unfold Cli.loop_body. by rewrite Hpath.
  - intros before after. induction before as [|x before IH]; intros plex_items.
    + simpl. unfold Cli.loop_body at 1. rewrite Hpath. simpl.
      by destruct (Cli.for_items w after plex_items).
    + simpl. unfold bind.
      destruct (Cli.loop_body w plex_items x) as [t [e|plex_items']]; [done|].
      by rewrite IH.
Qed.

Lemma C1_witness :
  MigratePlaylist.loop_body scenario_a ([], []) (jf_item "c" None)
  = ([Logging INFO "Processing item: c";
      Logging WARNING "No file path found for item: c"],
     inr ([], ["c"]))
  /\ PlaylistMigrator.loop_body scenario_a ([], []) (jf_item "c" None)
     = ([Stdout "No file path found for item: c"], inr ([], ["c"]))
  /\ Cli.loop_body scenario_a [] (jf_item "c" None) = ([], inr [])
  /\ Cli.for_items scenario_a
       [jf_item "a" (Some "/media/a.mp3"); jf_item "c" None;
        jf_item "b" (Some "/media/b.mp3")] []
     = Cli.for_items scenario_a
         [jf_item "a" (Some "/media/a.mp3"); jf_item "b" (Some "/media/b.mp3")] [].
Proof.
  destruct (C1_no_file_path_no_query scenario_a (jf_item "c" None))
    as (Hmp & Hpm & Hcli & Hskip).
  split; [|split; [|split]].
  - apply (Hmp eq_refl [] []).
  - apply (Hpm eq_refl [] []).
  - apply (Hcli eq_refl []).
  - apply (Hskip eq_refl [jf_item "a" (Some "/media/a.mp3")]
                 [jf_item "b" (Some "/media/b.mp3")] []).
Defined.

(** C1 as stated fails for [cli.py]: the item "c" of scenario A, which has
    no file path, is not returned as unmatched with a reason.  The loop body
    leaves no record and no message, the item has no entry among the
    messages that [cli.py] gives for unmatched items, and the whole run
    reports the creation only. *)
Lemma C1_counterexample :
  it_Path (jf_item "c" None) = None
  /\ Cli.loop_body scenario_a [] (jf_item "c" None) = ([], inr [])
  /\ cli_unmatched_message scenario_a (jf_item "c" None) = None
  /\ Cli.for_items scenario_a [jf_item "c" None] [] = Cli.for_items scenario_a [] []
  /\ messages (trace (Cli.migrate_playlist scenario_a "Road Trip"))
     = ["Created playlist 'Road Trip' in Plex with 2 items"].
Proof. repeat split. Qed.

(** ** The traversal of the libraries *)

Lemma cli_find_step (section : PlexSection) (rest : list PlexSection) (path : string) :
  Cli.find_in_sections (section :: rest) path
  = match sec_search_filename section path with
    | inr (first :: _) => ([PlexSearch (sec_title section) path], inr (Some first))
    | inr [] => (PlexSearch (sec_title section) path
                   :: trace (Cli.find_in_sections rest path),
                 outcome (Cli.find_in_sections rest path))
    | inl e => if is_Exception e
               then (PlexSearch (sec_title section) path
                       :: trace (Cli.find_in_sections rest path),
                     outcome (Cli.find_in_sections rest path))
               else ([PlexSearch (sec_title section) path], inl e)
    end.
Proof.
  simpl. destruct (sec_search_filename section path) as [e|[|first more]]; simpl.
  - destruct (is_Exception e); simpl; [|done].
    by destruct (Cli.find_in_sections rest path).
  - by destruct (Cli.find_in_sections rest path).
  - done.
Qed.

Lemma pm_find_step (library : PlexSection) (rest : list PlexSection) (path : string) :
  PlaylistMigrator.find_in_sections (library :: rest) path
  = match sec_search_filepath library path with
    | inr (first :: _) => ([PlexSearch (sec_title library) path], inr (Some first))
    | _ => (PlexSearch (sec_title library) path
              :: trace (PlaylistMigrator.find_in_sections rest path),
            outcome (PlaylistMigrator.find_in_sections rest path))
    end.
Proof.
  simpl. destruct (sec_search_filepath library path) as [e|[|first more]]; simpl.
  - by destruct (PlaylistMigrator.find_in_sections rest path).
  - by destruct (PlaylistMigrator.find_in_sections rest path).
  - done.
Qed.

Lemma mp_find_step (section : PlexSection) (rest : list PlexSection) (path : string) :
  MigratePlaylist.find_in_sections (section :: rest) path
  = match sec_all section with
    | inr items =>
        match List.find (MigratePlaylist.has_file path) items with
        | Some item => ([PlexSectionAll (sec_title section)], inr (Some item))
        | None => (PlexSectionAll (sec_title section)
                     :: trace (MigratePlaylist.find_in_sections rest path),
                   outcome (MigratePlaylist.find_in_sections rest path))
        end
    | inl e =>
        if is_Exception e
        then (PlexSectionAll (sec_title section)
                :: Logging WARNING ("Error searching section " +:+ sec_title section
                                    +:+ ": " +:+ str_exn e)
                :: trace (MigratePlaylist.find_in_sections rest path),
              outcome (MigratePlaylist.find_in_sections rest path))
        else ([PlexSectionAll (sec_title section)], inl e)
    end.
Proof.
  simpl. destruct (sec_all section) as [e|items]; simpl.
  - destruct (is_Exception e); simpl; [|done].
    by destruct (MigratePlaylist.find_in_sections rest path).
  - destruct (List.find _ items); simpl; [done|].
    by destruct (MigratePlaylist.find_in_sections rest path).
Qed.

(** A library whose query raises counts for nothing in the result. *)
Lemma cli_find_skip (before after : list PlexSection) (bad : PlexSection) (path : string) :
  raises (sec_search_filename bad path) ->
  outcome (Cli.find_in_sections (before ++ bad :: after) path)
  = outcome (Cli.find_in_sections (before ++ after) path).
Proof.
  intros (e & He & Hexc). induction before as [|s before IH].
  - simpl app. rewrite cli_find_step, He, Hexc. done.
  - rewrite <- !app_comm_cons, !cli_find_step.
    destruct (sec_search_filename s path) as [e'|[|first more]]; simpl; try done.
    destruct (is_Exception e'); simpl; done.
Qed.

Lemma pm_find_skip (before after : list PlexSection) (bad : PlexSection) (path : string) :
  (exists e, sec_search_filepath bad path = inl e) ->
  outcome (PlaylistMigrator.find_in_sections (before ++ bad :: after) path)
  = outcome (PlaylistMigrator.find_in_sections (before ++ after) path).
Proof.
  intros (e & He). induction before as [|s before IH].
  - simpl app. rewrite pm_find_step, He. done.
  - rewrite <- !app_comm_cons, !pm_find_step.
    destruct (sec_search_filepath s path) as [e'|[|first more]]; simpl; done.
Qed.

Lemma mp_find_skip (before after : list PlexSection) (bad : PlexSection) (path : string) :
  raises (sec_all bad) ->
  outcome (MigratePlaylist.find_in_sections (before ++ bad :: after) path)
  = outcome (MigratePlaylist.find_in_sections (before ++ after) path).
Proof.
  intros (e & He & Hexc). induction before as [|s before IH].
  - simpl app. rewrite mp_find_step, He, Hexc. done.
  - rewrite <- !app_comm_cons, !mp_find_step.
    destruct (sec_all s) as [e'|items]; simpl.
    + destruct (is_Exception e'); simpl; done.
    + destruct (List.find _ items); simpl; done.
Qed.

Lemma cli_find_media (w : World) (sections : list PlexSection) (path : string) :
  plex_sections w = inr sections ->
  Cli.find_plex_item w path
  = (PlexSections :: trace (Cli.find_in_sections sections path),
     outcome (Cli.find_in_sections sections path)).
Proof.
  intros Hs. unfold Cli.find_plex_item. rewrite Hs, call_inr.
  unfold bind. by destruct (Cli.find_in_sections sections path).
Qed.

Lemma mp_find_media (w : World) (sections : list PlexSection) (path : string) :
  plex_sections w = inr sections ->
  MigratePlaylist.find_media_by_path w path
  = (PlexSections :: trace (MigratePlaylist.find_in_sections sections path),
     outcome (MigratePlaylist.find_in_sections sections path)).
Proof.
  intros Hs. unfold MigratePlaylist.find_media_by_path. rewrite Hs, call_inr.
  unfold bind. by destruct (MigratePlaylist.find_in_sections sections path).
Qed.

(** In [playlist_migrator.py] the loop itself never raises. *)
Lemma pm_find_total (sections : list PlexSection) (path : string) :
  exists found, outcome (PlaylistMigrator.find_in_sections sections path) = inr found.
Proof.
  induction sections as [|s rest IH]; [by eexists|].
  rewrite pm_find_step.
  destruct (sec_search_filepath s path) as [e|[|first more]]; simpl; eauto.
Qed.

Lemma pm_find_media (w : World) (sections : list PlexSection) (path : string) :
  plex_sections w = inr sections ->
  PlaylistMigrator.find_media_by_path w path
  = (PlexSections :: trace (PlaylistMigrator.find_in_sections sections path),
     outcome (PlaylistMigrator.find_in_sections sections path)).
Proof.
  intros Hs. unfold PlaylistMigrator.find_media_by_path. rewrite Hs, call_inr.
  destruct (pm_find_total sections path) as [found Hf].
  unfold bind; simpl.
  destruct (PlaylistMigrator.find_in_sections sections path) as [t r].
  simpl in Hf; subst r. reflexivity.
Qed.

(** ** C4: a library whose search raises *)

(** C4 (amended). When the query of one library raises an error, the
    traversal goes on with the next library and returns what it returns
    without the failing library, so a later library can still give the
    match.  [migrate_playlist.py] logs the error as a warning;
    [playlist_migrator.py] and [cli.py] go on without any message: the only
    event the failing library leaves is the search call itself. *)
Theorem C4_failing_library_is_skipped
  (before after : list PlexSection) (bad : PlexSection) (path : string) :
  (forall e, sec_all bad = inl e -> is_Exception e = true ->
     outcome (MigratePlaylist.find_in_sections (before ++ bad :: after) path)
     = outcome (MigratePlaylist.find_in_sections (before ++ after) path)
     /\ MigratePlaylist.find_in_sections (bad :: after) path
        = (PlexSectionAll (sec_title bad)
             :: Logging WARNING ("Error searching section " +:+ sec_title bad
                                 +:+ ": " +:+ str_exn e)
             :: trace (MigratePlaylist.find_in_sections after path),
           outcome (MigratePlaylist.find_in_sections after path)))
  /\ (forall e, sec_search_filepath bad path = inl e ->
        outcome (PlaylistMigrator.find_in_sections (before ++ bad :: after) path)
        = outcome (PlaylistMigrator.find_in_sections (before ++ after) path)
        /\ PlaylistMigrator.find_in_sections (bad :: after) path
           = (PlexSearch (sec_title bad) path
                :: trace (PlaylistMigrator.find_in_sections after path),
              outcome (PlaylistMigrator.find_in_sections after path)))
  /\ (forall e, sec_search_filename bad path = inl e -> is_Exception e = true ->
        outcome (Cli.find_in_sections (before ++ bad :: after) path)
        = outcome (Cli.find_in_sections (before ++ after) path)
        /\ Cli.find_in_sections (bad :: after) path
           = (PlexSearch (sec_title bad) path
                :: trace (Cli.find_in_sections after path),
              outcome (Cli.find_in_sections after path))).
Proof.
  split; [|split].
  - intros e He Hexc. split.
    + apply mp_find_skip. by exists e.
    + by rewrite mp_find_step, He, Hexc.
  - intros e He. split.
    + apply pm_find_skip. by exists e.
    + by rewrite pm_find_step, He.
  - intros e He Hexc. split.
    + apply cli_find_skip. by exists e.
    + by rewrite cli_find_step, He, Hexc.
Qed.

Lemma C4_witness :
  let music := section_of "Music" [track "/media/a.mp3"] in
  outcome (MigratePlaylist.find_in_sections [broken_section "Films"; music] "/media/a.mp3")
  = inr (Some (track "/media/a.mp3"))
  /\ outcome (PlaylistMigrator.find_in_sections [broken_section "Films"; music] "/media/a.mp3")
     = inr (Some (track "/media/a.mp3"))
  /\ outcome (Cli.find_in_sections [broken_section "Films"; music] "/media/a.mp3")
     = inr (Some (track "/media/a.mp3")).
Proof.
  intros music.
  destruct (C4_failing_library_is_skipped
              [] [music] (broken_section "Films") "/media/a.mp3")
    as (Hmp & Hpm & Hcli).
  split; [|split].
  - etransitivity; [apply (Hmp (Exception "timeout") eq_refl eq_refl)|reflexivity].
  - etransitivity; [apply (Hpm (Exception "timeout") eq_refl)|reflexivity].
  - etransitivity; [apply (Hcli (Exception "timeout") eq_refl eq_refl)|reflexivity].
Defined.

(** C4 as stated fails: in [cli.py] and [playlist_migrator.py] the first
    library of scenario C raises, the second one gives the match, and not
    one message is issued about the error. *)
Lemma C4_counterexample :
  sec_search_filename (broken_section "Films") "/media/a.mp3"
  = inl (Exception "timeout")
  /\ Cli.find_plex_item scenario_c "/media/a.mp3"
     = ([PlexSections; PlexSearch "Films" "/media/a.mp3";
         PlexSearch "Music" "/media/a.mp3"],
        inr (Some (track "/media/a.mp3")))
  /\ messages (trace (Cli.find_plex_item scenario_c "/media/a.mp3")) = []
  /\ messages (trace (PlaylistMigrator.find_media_by_path scenario_c "/media/a.mp3")) = [].
Proof. repeat split. Qed.

(** ** C5: every library fails *)

Lemma mp_find_nothing (sections : list PlexSection) (path : string) :
  Forall (fun s => raises (sec_all s)
                   \/ exists items, sec_all s = inr items
                                    /\ List.find (MigratePlaylist.has_file path) items = None)
         sections ->
  outcome (MigratePlaylist.find_in_sections sections path) = inr None.
Proof.
  induction 1 as [|s rest Hs _ IH]; [done|].
  rewrite mp_find_step.
  destruct Hs as [(e & He & Hexc)|(items & Hi & Hf)].
  - by rewrite He, Hexc.
  - by rewrite Hi, Hf.
Qed.

Lemma pm_find_nothing (sections : list PlexSection) (path : string) :
  Forall (fun s => (exists e, sec_search_filepath s path = inl e)
                   \/ no_hit (sec_search_filepath s path))
         sections ->
  PlaylistMigrator.find_in_sections sections path
  = (map (fun s => PlexSearch (sec_title s) path) sections, inr None).
Proof.
  induction 1 as [|s rest Hs _ IH]; [done|].
  rewrite pm_find_step, IH.
  destruct Hs as [(e & He)|He]; by rewrite He.
Qed.

Lemma cli_find_nothing (sections : list PlexSection) (path : string) :
  Forall (fun s => raises (sec_search_filename s path)
                   \/ no_hit (sec_search_filename s path))
         sections ->
  Cli.find_in_sections sections path
  = (map (fun s => PlexSearch (sec_title s) path) sections, inr None).
Proof.
  induction 1 as [|s rest Hs _ IH]; [done|].
  rewrite cli_find_step, IH.
  destruct Hs as [(e & He & Hexc)|He].
  - by rewrite He, Hexc.
  - by rewrite He.
Qed.

(** C5 (amended). When every library's query raised an error, the lookup
    returns no entry, and the item is filed exactly as an item that was
    looked up and not found: the same holds whenever each library either
    raised or had no hit.  The outcome carries no reason that tells a
    failed lookup from a missing file; in [playlist_migrator.py] and
    [cli.py] the messages are those of "not found" too. *)
Theorem C5_failed_lookup_is_filed_as_not_found
  (w : World) (sections : list PlexSection) (item : JfItem) (path : string) :
  plex_sections w = inr sections ->
  (truthy (media_source_path item) = Some path ->
   Forall (fun s => raises (sec_all s)
                    \/ exists items, sec_all s = inr items
                         /\ List.find (MigratePlaylist.has_file path) items = None)
          sections ->
   forall plex_items missing_items,
     outcome (MigratePlaylist.find_media_by_path w path) = inr None
     /\ outcome (MigratePlaylist.loop_body w (plex_items, missing_items) item)
        = inr (plex_items,
               missing_items ++ [item_name item +:+ " (" +:+ path +:+ ")"]))
  /\ (truthy (media_source_path item) = Some path ->
      Forall (fun s => (exists e, sec_search_filepath s path = inl e)
                       \/ no_hit (sec_search_filepath s path))
             sections ->
      forall plex_items not_found_items,
        outcome (PlaylistMigrator.find_media_by_path w path) = inr None
        /\ outcome (PlaylistMigrator.loop_body w (plex_items, not_found_items) item)
           = inr (plex_items, not_found_items ++ [item_name item])
        /\ messages (trace (PlaylistMigrator.loop_body w (plex_items, not_found_items) item))
           = ["✗ Not found in Plex: " +:+ item_name item
              +:+ " (path: " +:+ path +:+ ")"])
  /\ (truthy (it_Path item) = Some path ->
      Forall (fun s => raises (sec_search_filename s path)
                       \/ no_hit (sec_search_filename s path))
             sections ->
      forall plex_items,
        outcome (Cli.find_plex_item w path) = inr None
        /\ outcome (Cli.loop_body w plex_items item) = inr plex_items
        /\ messages (trace (Cli.loop_body w plex_items item))
           = ["Warning: could not find '" +:+ path +:+ "' in Plex"]).
Proof.
  intros Hsec. split; [|split]; intros Hpath Hall **.
  - unfold MigratePlaylist.loop_body.
    rewrite Hpath, (mp_find_media _ _ _ Hsec).
    pose proof (mp_find_nothing _ _ Hall) as Hnone.
    destruct (MigratePlaylist.find_in_sections sections path) as [t r].
    simpl in Hnone; subst r. done.
  - unfold PlaylistMigrator.loop_body.
    rewrite Hpath, (pm_find_media _ _ _ Hsec), (pm_find_nothing _ _ Hall).
    repeat split. simpl.
    rewrite messages_app. simpl.
    rewrite messages_none; [done|].
    apply Forall_map, Forall_true. done.
  - unfold Cli.loop_body.
    rewrite Hpath, (cli_find_media _ _ _ Hsec), (cli_find_nothing _ _ Hall).
    repeat split. simpl.
    rewrite messages_app. simpl.
    rewrite messages_none; [done|].
    apply Forall_map, Forall_true. done.
Qed.

Lemma C5_witness :
  outcome (MigratePlaylist.loop_body all_broken ([], []) (jf_item "a" (Some "/media/a.mp3")))
  = inr ([], ["a (/media/a.mp3)"])
  /\ outcome (PlaylistMigrator.loop_body all_broken ([], []) (jf_item "a" (Some "/media/a.mp3")))
     = inr ([], ["a"])
  /\ outcome (Cli.loop_body all_broken [] (jf_item "a" (Some "/media/a.mp3"))) = inr [].
Proof.
  destruct (C5_failed_lookup_is_filed_as_not_found
              all_broken [broken_section "Films"; broken_section "Music"]
              (jf_item "a" (Some "/media/a.mp3")) "/media/a.mp3" eq_refl)
    as (Hmp & Hpm & Hcli).
  split; [|split].
  - refine (proj2 (Hmp eq_refl _ [] [])).
    do 2 (constructor; [left; exists (Exception "timeout"); by split|]).
    constructor.
  - refine (proj1 (proj2 (Hpm eq_refl _ [] []))).
    do 2 (constructor; [left; by exists (Exception "timeout")|]).
    constructor.
  - refine (proj1 (proj2 (Hcli eq_refl _ []))).
    do 2 (constructor; [left; exists (Exception "timeout"); by split|]).
    constructor.
Defined.

(** C5 as stated fails: with every library failing the three lookups
    return what they return when every library answers and has no hit, and
    the item is filed the same way; in [playlist_migrator.py] and [cli.py]
    even the messages are the same. *)
Lemma C5_counterexample :
  let item := jf_item "a" (Some "/media/a.mp3") in
  Forall (fun s => raises (sec_all s)
                   /\ raises (sec_search_filepath s "/media/a.mp3")
                   /\ raises (sec_search_filename s "/media/a.mp3"))
         [broken_section "Films"; broken_section "Music"]
  /\ outcome (MigratePlaylist.find_media_by_path all_broken "/media/a.mp3")
     = outcome (MigratePlaylist.find_media_by_path all_empty "/media/a.mp3")
  /\ outcome (MigratePlaylist.loop_body all_broken ([], []) item)
     = outcome (MigratePlaylist.loop_body all_empty ([], []) item)
  /\ outcome (PlaylistMigrator.loop_body all_broken ([], []) item)
     = outcome (PlaylistMigrator.loop_body all_empty ([], []) item)
  /\ messages (trace (PlaylistMigrator.loop_body all_broken ([], []) item))
     = messages (trace (PlaylistMigrator.loop_body all_empty ([], []) item))
  /\ outcome (Cli.loop_body all_broken [] item)
     = outcome (Cli.loop_body all_empty [] item)
  /\ messages (trace (Cli.loop_body all_broken [] item))
     = messages (trace (Cli.loop_body all_empty [] item)).
Proof.
  intros item. split; [|by repeat split].
  do 2 (constructor;
        [repeat split; exists (Exception "timeout"); by split|]).
  constructor.
Qed.

(** ** C9: the match test *)

Lemma has_file_indexed (path : string) (p : PlexItem) :
  MigratePlaylist.has_file path p = true <-> indexed_under p path.
Proof.
  unfold MigratePlaylist.has_file, indexed_under. split.
  - destruct (media p) as [medias|]; [|done].
    rewrite existsb_exists. intros (m & Hm & Hparts).
    apply existsb_exists in Hparts as (part & Hpart & Heq).
    apply String.eqb_eq in Heq.
    exists medias, m, part. by rewrite <- !list_elem_of_In in *.
  - intros (medias & m & part & -> & Hm & Hpart & Hfile).
    apply existsb_exists. exists m. split; [by apply list_elem_of_In|].
    apply existsb_exists. exists part. split; [by apply list_elem_of_In|].
    by apply String.eqb_eq.
Qed.

Lemma mp_find_sound (sections : list PlexSection) (path : string) (p : PlexItem) :
  outcome (MigratePlaylist.find_in_sections sections path) = inr (Some p) ->
  MigratePlaylist.has_file path p = true
  /\ exists s items, s ∈ sections /\ sec_all s = inr items /\ p ∈ items.
Proof.
  induction sections as [|s rest IH]; [done|].
  rewrite mp_find_step.
  destruct (sec_all s) as [e|items] eqn:Hall.
  - destruct (is_Exception e); simpl; [|done].
    intros (? & s' & items' & ? & ?)%IH. split; [done|].
    exists s', items'. split; [by right|done].
  - destruct (List.find _ items) as [item|] eqn:Hfind; simpl.
    + intros [= ->]. apply find_some in Hfind as [Hin Hfile].
      split; [done|]. exists s, items.
      split; [by left|split; [done|by apply list_elem_of_In]].
    + intros (? & s' & items' & ? & ?)%IH. split; [done|].
      exists s', items'. split; [by right|done].
Qed.

Lemma pm_find_sound (sections : list PlexSection) (path : string) (p : PlexItem) :
  outcome (PlaylistMigrator.find_in_sections sections path) = inr (Some p) ->
  exists s more, s ∈ sections /\ sec_search_filepath s path = inr (p :: more).
Proof.
  induction sections as [|s rest IH]; [done|].
  rewrite pm_find_step.
  destruct (sec_search_filepath s path) as [e|[|first more]] eqn:Hs; simpl.
  - intros (s' & more & ? & ?)%IH. exists s', more. split; [by right|done].
  - intros (s' & more & ? & ?)%IH. exists s', more. split; [by right|done].
  - intros [= ->]. exists s, more. split; [by left|done].
Qed.

Lemma cli_find_sound (sections : list PlexSection) (path : string) (p : PlexItem) :
  outcome (Cli.find_in_sections sections path) = inr (Some p) ->
  exists s more, s ∈ sections /\ sec_search_filename s path = inr (p :: more).
Proof.
  induction sections as [|s rest IH]; [done|].
  rewrite cli_find_step.
  destruct (sec_search_filename s path) as [e|[|first more]] eqn:Hs; simpl.
  - destruct (is_Exception e); simpl; [|done].
    intros (s' & more & ? & ?)%IH. exists s', more. split; [by right|done].
  - intros (s' & more & ? & ?)%IH. exists s', more. split; [by right|done].
  - intros [= ->]. exists s, more. split; [by left|done].
Qed.

Lemma pm_find_searches (sections : list PlexSection) (path : string) :
  only (search_for path) (PlaylistMigrator.find_in_sections sections path).
Proof.
  induction sections as [|s rest IH]; [constructor|].
  unfold only. rewrite pm_find_step.
  destruct (sec_search_filepath s path) as [e|[|first more]]; simpl;
    repeat constructor; done.
Qed.

Lemma cli_find_searches (sections : list PlexSection) (path : string) :
  only (search_for path) (Cli.find_in_sections sections path).
Proof.
  induction sections as [|s rest IH]; [constructor|].
  unfold only. rewrite cli_find_step.
  destruct (sec_search_filename s path) as [e|[|first more]]; simpl;
    [destruct (is_Exception e)|..]; simpl; repeat constructor; done.
Qed.

Lemma pm_find_app_nothing (before rest : list PlexSection) (path : string) :
  Forall (fun s => (exists e, sec_search_filepath s path = inl e)
                   \/ no_hit (sec_search_filepath s path)) before ->
  PlaylistMigrator.find_in_sections (before ++ rest) path
  = (map (fun s => PlexSearch (sec_title s) path) before
       ++ trace (PlaylistMigrator.find_in_sections rest path),
     outcome (PlaylistMigrator.find_in_sections rest path)).
Proof.
  induction 1 as [|s before Hs _ IH].
  - simpl. by destruct (PlaylistMigrator.find_in_sections rest path).
  - rewrite <- app_comm_cons, !pm_find_step, IH.
    destruct Hs as [(e & He)|He]; by rewrite He.
Qed.

Lemma cli_find_app_nothing (before rest : list PlexSection) (path : string) :
  Forall (fun s => raises (sec_search_filename s path)
                   \/ no_hit (sec_search_filename s path)) before ->
  Cli.find_in_sections (before ++ rest) path
  = (map (fun s => PlexSearch (sec_title s) path) before
       ++ trace (Cli.find_in_sections rest path),
     outcome (Cli.find_in_sections rest path)).
Proof.
  induction 1 as [|s before Hs _ IH].
  - simpl. by destruct (Cli.find_in_sections rest path).
  - rewrite <- app_comm_cons, !cli_find_step, IH.
    destruct Hs as [(e & He & Hexc)|He].
    + by rewrite He, Hexc.
    + by rewrite He.
Qed.

(** C9 (amended).  In [migrate_playlist.py] the match test is the
    equality of strings [part.file == file_path]: the entry returned for a
    path has a part indexed under exactly that path, so an entry none of
    whose indexed paths equals the item's path is never the match.
    [playlist_migrator.py] and [cli.py] make no test of their own: every
    search they issue carries the item's path unchanged, the match is the
    first answer of a library to that very path, and the first answer of
    the first library that answers is taken whatever path it is indexed
    under. *)
Theorem C9_where_the_match_is_tested (w : World) (path : string) (p : PlexItem) :
  (outcome (MigratePlaylist.find_media_by_path w path) = inr (Some p) ->
   indexed_under p path)
  /\ (~ indexed_under p path ->
      outcome (MigratePlaylist.find_media_by_path w path) <> inr (Some p))
  /\ Forall (eq path) (searched_paths (trace (PlaylistMigrator.find_media_by_path w path)))
  /\ (outcome (PlaylistMigrator.find_media_by_path w path) = inr (Some p) ->
      exists sections s more,
        plex_sections w = inr sections /\ s ∈ sections
        /\ sec_search_filepath s path = inr (p :: more))
  /\ (forall before s after more,
        plex_sections w = inr (before ++ s :: after) ->
        Forall (fun s' => (exists e, sec_search_filepath s' path = inl e)
                          \/ no_hit (sec_search_filepath s' path)) before ->
        sec_search_filepath s path = inr (p :: more) ->
        outcome (PlaylistMigrator.find_media_by_path w path) = inr (Some p))
  /\ Forall (eq path) (searched_paths (trace (Cli.find_plex_item w path)))
  /\ (outcome (Cli.find_plex_item w path) = inr (Some p) ->
      exists sections s more,
        plex_sections w = inr sections /\ s ∈ sections
        /\ sec_search_filename s path = inr (p :: more))
  /\ (forall before s after more,
        plex_sections w = inr (before ++ s :: after) ->
        Forall (fun s' => raises (sec_search_filename s' path)
                          \/ no_hit (sec_search_filename s' path)) before ->
        sec_search_filename s path = inr (p :: more) ->
        outcome (Cli.find_plex_item w path) = inr (Some p)).
Proof.
  assert (Hmp : outcome (MigratePlaylist.find_media_by_path w path) = inr (Some p) ->
                indexed_under p path).
  { destruct (plex_sections w) as [e|sections] eqn:Hsec.
    - unfold MigratePlaylist.find_media_by_path. by rewrite Hsec.
    - rewrite (mp_find_media _ _ _ Hsec). simpl.
      intros [Hfile _]%mp_find_sound. by apply has_file_indexed. }
  split; [done|]. split; [by intros Hno Hout%Hmp|].
  destruct (plex_sections w) as [e|sections] eqn:Hsec.
  - unfold PlaylistMigrator.find_media_by_path, Cli.find_plex_item.
    rewrite Hsec. repeat split.
    + destruct (is_Exception e) eqn:He; simpl; rewrite He; simpl; constructor.
    + destruct (is_Exception e) eqn:He; simpl; rewrite He; done.
    + done.
    + constructor.
    + done.
    + done.
  - rewrite (pm_find_media _ _ _ Hsec), (cli_find_media _ _ _ Hsec). simpl.
    repeat split.
    + apply searched_paths_for, pm_find_searches.
    + intros (s & more & ? & ?)%pm_find_sound. by exists sections, s, more.
    + intros before s after more [= ->] Hbefore Hs.
      by rewrite (pm_find_app_nothing _ _ _ Hbefore), pm_find_step, Hs.
    + apply searched_paths_for, cli_find_searches.
    + intros (s & more & ? & ?)%cli_find_sound. by exists sections, s, more.
    + intros before s after more [= ->] Hbefore Hs.
      by rewrite (cli_find_app_nothing _ _ _ Hbefore), cli_find_step, Hs.
Qed.

Lemma C9_witness :
  indexed_under (track "/media/a.mp3") "/media/a.mp3"
  /\ outcome (MigratePlaylist.find_media_by_path scenario_a "/media/b.mp3")
     <> inr (Some (track "/media/a.mp3"))
  /\ outcome (PlaylistMigrator.find_media_by_path scenario_c "/media/a.mp3")
     = inr (Some (track "/media/a.mp3"))
  /\ outcome (Cli.find_plex_item scenario_c "/media/a.mp3")
     = inr (Some (track "/media/a.mp3")).
Proof.
  destruct (C9_where_the_match_is_tested scenario_a "/media/a.mp3"
              (track "/media/a.mp3")) as (Hyes & _).
  destruct (C9_where_the_match_is_tested scenario_a "/media/b.mp3"
              (track "/media/a.mp3")) as (_ & Hno & _).
  destruct (C9_where_the_match_is_tested scenario_c "/media/a.mp3"
              (track "/media/a.mp3")) as (_ & _ & _ & _ & Hpm & _ & _ & Hcli).
  split; [|split; [|split]].
  - apply Hyes. reflexivity.
  - apply Hno. intros (medias & m & part & Hmedia & Hm & Hpart & Hfile).
    injection Hmedia as <-.
    apply list_elem_of_singleton in Hm as ->.
    apply list_elem_of_singleton in Hpart as ->.
    discriminate Hfile.
  - apply (Hpm [broken_section "Films"]
               (section_of "Music" [track "/media/a.mp3"]) [] []);
      [reflexivity| |reflexivity].
    constructor; [|constructor]. left. by eexists.
  - apply (Hcli [broken_section "Films"]
                (section_of "Music" [track "/media/a.mp3"]) [] []);
      [reflexivity| |reflexivity].
    constructor; [|constructor]. left. by eexists _.
Defined.

(** C9 as stated fails for [playlist_migrator.py] and [cli.py].  The
    library holds "/media/a.mp3.bak" only and its search goes by prefix: the
    entry, which is not indexed under "/media/a.mp3", is the match for that
    path and is handed to the creation call.  [migrate_playlist.py], which
    compares the paths itself, finds nothing. *)
Lemma C9_counterexample :
  ~ indexed_under (track "/media/a.mp3.bak") "/media/a.mp3"
  /\ outcome (PlaylistMigrator.find_media_by_path backup_copy "/media/a.mp3")
     = inr (Some (track "/media/a.mp3.bak"))
  /\ outcome (Cli.find_plex_item backup_copy "/media/a.mp3")
     = inr (Some (track "/media/a.mp3.bak"))
  /\ creations (trace (PlaylistMigrator.migrate_playlist str_lower backup_copy "Road Trip"))
     = [("Road Trip (from Jellyfin)", [track "/media/a.mp3.bak"])]
  /\ creations (trace (Cli.migrate_playlist backup_copy "Road Trip"))
     = [("Road Trip", [track "/media/a.mp3.bak"])]
  /\ outcome (MigratePlaylist.find_media_by_path backup_copy "/media/a.mp3") = inr None.
Proof.
  split; [|repeat split].
  intros (medias & m & part & Hmedia & Hm & Hpart & Hfile).
  injection Hmedia as <-.
  apply list_elem_of_singleton in Hm as ->.
  apply list_elem_of_singleton in Hpart as ->.
  discriminate Hfile.
Qed.

(** ** The loop over the items *)

Lemma outcome_bind_inr {A B} (m : Run A) (k : A -> Run B) (b : B) :
  outcome (bind m k) = inr b ->
  exists a, outcome m = inr a /\ outcome (k a) = inr b.
Proof.
  destruct m as [t [e|a]]; simpl; [done|].
  intros H. exists a. split; [done|]. by destruct (k a).
Qed.

Lemma trace_bind {A B} (m : Run A) (k : A -> Run B) :
  trace (bind m k)
  = trace m ++ match outcome m with inr a => trace (k a) | inl _ => [] end.
Proof.
  destruct m as [t [e|a]]; simpl; [by rewrite app_nil_r|]. by destruct (k a).
Qed.

Lemma omap_sublist {A B} (f : A -> option B) (l : list A) :
  exists sub, sub `sublist_of` l /\ Forall2 (fun x y => f x = Some y) sub (omap f l).
Proof.
  induction l as [|x l (sub & Hsub & Hall)]; [exists []; by split|].
  simpl. destruct (f x) as [y|] eqn:Hfx.
  - exists (x :: sub). split; [by constructor|by constructor].
  - exists sub. split; [by constructor|done].
Qed.

(** [cli.py] *)

Lemma cli_find_quiet (w : World) (path : string) :
  only no_message (Cli.find_plex_item w path).
Proof.
  unfold Cli.find_plex_item. apply only_bind; [by apply only_call|].
  intros sections _. induction sections as [|s rest IH]; [apply only_ret|].
  simpl. apply only_bind.
  - apply only_try_except; [|intros; apply only_ret].
    apply only_bind; [by apply only_call|]. intros [|??] _; apply only_ret.
  - intros [?|] _; [apply only_ret|done].
Qed.

Lemma cli_loop_body_spec (w : World) (plex_items : list PlexItem) (item : JfItem)
  (r : list PlexItem) :
  outcome (Cli.loop_body w plex_items item) = inr r ->
  r = plex_items ++ option_list (cli_resolve w item)
  /\ messages (trace (Cli.loop_body w plex_items item))
     = option_list (cli_unmatched_message w item).
Proof.
  unfold Cli.loop_body, cli_resolve, cli_unmatched_message, lookup_result.
  destruct (truthy (it_Path item)) as [path|]; simpl.
  - pose proof (cli_find_quiet w path) as Hq. apply messages_none in Hq.
    destruct (Cli.find_plex_item w path) as [t [e|[p|]]]; simpl in *; [done|..].
    + intros [= <-]. by rewrite app_nil_r.
    + intros [= <-]. rewrite app_nil_r, messages_app, Hq. done.
  - intros [= <-]. by rewrite app_nil_r.
Qed.

Lemma cli_for_items_spec (w : World) (items : list JfItem) (acc r : list PlexItem) :
  outcome (Cli.for_items w items acc) = inr r ->
  r = acc ++ omap (cli_resolve w) items
  /\ messages (trace (Cli.for_items w items acc))
     = omap (cli_unmatched_message w) items.
Proof.
  revert acc. induction items as [|item rest IH]; intros acc; simpl.
  - intros [= <-]. by rewrite app_nil_r.
  - intros (acc' & Hbody & Hrest)%outcome_bind_inr.
    rewrite trace_bind, Hbody, messages_app.
    apply cli_loop_body_spec in Hbody as [-> ->].
    apply IH in Hrest as [-> ->].
    rewrite <- app_assoc.
    unfold cli_resolve, cli_unmatched_message.
    destruct (truthy (it_Path item)); [|done].
    by destruct (lookup_result _).
Qed.

Lemma cli_for_items_no_creation (w : World) (items : list JfItem) (acc : list PlexItem) :
  only no_creation (Cli.for_items w items acc).
Proof.
  revert acc. induction items as [|item rest IH]; intros acc; [apply only_ret|].
  simpl. apply only_bind; [|done].
  unfold Cli.loop_body. destruct (truthy _); [|apply only_ret].
  apply only_bind.
  - unfold Cli.find_plex_item. apply only_bind; [by apply only_call|].
    intros sections _. induction sections as [|sec secs IHsecs]; [apply only_ret|].
    simpl. apply only_bind.
    + apply only_try_except; [|intros; apply only_ret].
      apply only_bind; [by apply only_call|]. intros [|??] _; apply only_ret.
    + intros [?|] _; [apply only_ret|done].
  - intros [?|] _; [apply only_ret|].
    apply only_bind; [by apply only_emit|intros; apply only_ret].
Qed.

(** [playlist_migrator.py] *)

Lemma pm_find_only (P : Event -> Prop) (w : World) (path : string) :
  P PlexSections -> (forall s p, P (PlexSearch s p)) -> (forall m, P (Stdout m)) ->
  only P (PlaylistMigrator.find_media_by_path w path).
Proof.
  intros Hsections Hsearch Hprint. unfold PlaylistMigrator.find_media_by_path.
  apply only_try_except.
  - apply only_bind; [by apply only_call|].
    intros sections _. induction sections as [|sec secs IHsecs]; [apply only_ret|].
    simpl. apply only_bind.
    + apply only_try_except; [|intros; apply only_ret].
      apply only_bind; [by apply only_call|]. intros [|??] _; apply only_ret.
    + intros [?|] _; [apply only_ret|done].
  - intros e _. apply only_bind; [by apply only_print|intros; apply only_ret].
Qed.

Lemma pm_loop_body_spec (w : World) (acc r : list PlexItem * list string) (item : JfItem) :
  outcome (PlaylistMigrator.loop_body w acc item) = inr r ->
  r = (acc.1 ++ option_list (pm_resolve w item),
       acc.2 ++ option_list (pm_missing_entry w item))
  /\ forall m, pm_unmatched_message w item = Some m ->
               m ∈ messages (trace (PlaylistMigrator.loop_body w acc item)).
Proof.
  destruct acc as [plex_items not_found_items].
  unfold PlaylistMigrator.loop_body, pm_missing_entry, pm_resolve,
    pm_unmatched_message, lookup_result.
  destruct (truthy (media_source_path item)) as [path|]; simpl.
  - destruct (PlaylistMigrator.find_media_by_path w path) as [t [e|[p|]]];
      simpl; [done|..].
    + intros [= <-]. by rewrite !app_nil_r.
    + intros [= <-]. rewrite !app_nil_r. split; [done|].
      intros m [= <-]. rewrite messages_app. apply elem_of_app. right. by left.
  - intros [= <-]. rewrite !app_nil_r. split; [done|].
    intros m [= <-]. by left.
Qed.

Lemma pm_for_items_spec (w : World) (items : list JfItem)
  (acc r : list PlexItem * list string) :
  outcome (PlaylistMigrator.for_items w items acc) = inr r ->
  r = (acc.1 ++ omap (pm_resolve w) items, acc.2 ++ omap (pm_missing_entry w) items)
  /\ forall item m, item ∈ items -> pm_unmatched_message w item = Some m ->
                    m ∈ messages (trace (PlaylistMigrator.for_items w items acc)).
Proof.
  revert acc. induction items as [|item rest IH]; intros acc; simpl.
  - intros [= <-]. rewrite !app_nil_r. split; [by destruct acc|].
    intros ?? []%elem_of_nil.
  - intros (acc' & Hbody & Hrest)%outcome_bind_inr.
    rewrite trace_bind, Hbody, messages_app.
    apply pm_loop_body_spec in Hbody as [-> Hmsg].
    apply IH in Hrest as [-> Hmsgs]. simpl. split.
    + rewrite <- !app_assoc. unfold pm_missing_entry.
      by destruct (pm_resolve w item).
    + intros it m [->|Hin]%elem_of_cons Hm; apply elem_of_app; eauto.
Qed.

Lemma pm_for_items_only (P : Event -> Prop) (w : World) (items : list JfItem)
  (acc : list PlexItem * list string) :
  P PlexSections -> (forall s p, P (PlexSearch s p)) -> (forall m, P (Stdout m)) ->
  only P (PlaylistMigrator.for_items w items acc).
Proof.
  intros Hsections Hsearch Hprint.
  revert acc. induction items as [|item rest IH]; intros acc; [apply only_ret|].
  simpl. apply only_bind; [|done].
  destruct acc as [plex_items not_found_items].
  unfold PlaylistMigrator.loop_body. destruct (truthy _).
  - apply only_bind; [by apply pm_find_only|].
    intros [?|] _; (apply only_bind; [by apply only_print|intros; apply only_ret]).
  - apply only_bind; [by apply only_print|intros; apply only_ret].
Qed.

(** [migrate_playlist.py] *)

Lemma mp_find_only (P : Event -> Prop) (w : World) (path : string) :
  P PlexSections -> (forall s, P (PlexSectionAll s)) -> (forall l m, P (Logging l m)) ->
  only P (MigratePlaylist.find_media_by_path w path).
Proof.
  intros Hsections Hall Hlog. unfold MigratePlaylist.find_media_by_path.
  apply only_bind; [by apply only_call|].
  intros sections _. induction sections as [|sec secs IHsecs]; [apply only_ret|].
  simpl. apply only_bind.
  - apply only_try_except.
    + apply only_bind; [by apply only_call|]. intros; apply only_ret.
    + intros e _. unfold only; simpl. by repeat constructor.
  - intros [?|] _; [apply only_ret|done].
Qed.

Lemma mp_loop_body_spec (w : World) (acc r : list PlexItem * list string) (item : JfItem) :
  outcome (MigratePlaylist.loop_body w acc item) = inr r ->
  r = (acc.1 ++ option_list (mp_resolve w item),
       acc.2 ++ option_list (mp_missing_entry w item))
  /\ forall m, mp_unmatched_message w item = Some m ->
               m ∈ messages (trace (MigratePlaylist.loop_body w acc item)).
Proof.
  destruct acc as [plex_items missing_items].
  unfold MigratePlaylist.loop_body, mp_missing_entry, mp_resolve,
    mp_unmatched_message, lookup_result, log.
  rewrite bind_emit.
  destruct (truthy (media_source_path item)) as [path|]; simpl.
  - destruct (MigratePlaylist.find_media_by_path w path) as [t [e|[p|]]];
      simpl; [done|..].
    + intros [= <-]. by rewrite !app_nil_r.
    + intros [= <-]. rewrite !app_nil_r. split; [done|].
      intros m [= <-]. right. rewrite messages_app. apply elem_of_app. right. by left.
  - intros [= <-]. rewrite !app_nil_r. split; [done|].
    intros m [= <-]. right. by left.
Qed.

Lemma mp_for_items_spec (w : World) (items : list JfItem)
  (acc r : list PlexItem * list string) :
  outcome (MigratePlaylist.for_items w items acc) = inr r ->
  r = (acc.1 ++ omap (mp_resolve w) items, acc.2 ++ omap (mp_missing_entry w) items)
  /\ forall item m, item ∈ items -> mp_unmatched_message w item = Some m ->
                    m ∈ messages (trace (MigratePlaylist.for_items w items acc)).
Proof.
  revert acc. induction items as [|item rest IH]; intros acc; simpl.
  - intros [= <-]. rewrite !app_nil_r. split; [by destruct acc|].
    intros ?? []%elem_of_nil.
  - intros (acc' & Hbody & Hrest)%outcome_bind_inr.
    rewrite trace_bind, Hbody, messages_app.
    apply mp_loop_body_spec in Hbody as [-> Hmsg].
    apply IH in Hrest as [-> Hmsgs]. simpl. split.
    + rewrite <- !app_assoc.
      by destruct (mp_resolve w item), (mp_missing_entry w item).
    + intros it m [->|Hin]%elem_of_cons Hm; apply elem_of_app; eauto.
Qed.

Lemma mp_for_items_only (P : Event -> Prop) (w : World) (items : list JfItem)
  (acc : list PlexItem * list string) :
  P PlexSections -> (forall s, P (PlexSectionAll s)) -> (forall l m, P (Logging l m)) ->
  only P (MigratePlaylist.for_items w items acc).
Proof.
  intros Hsections Hall Hlog.
  revert acc. induction items as [|item rest IH]; intros acc; [apply only_ret|].
  simpl. apply only_bind; [|done].
  destruct acc as [plex_items missing_items].
  unfold MigratePlaylist.loop_body.
  apply only_bind; [by apply only_log|]. intros _ _.
  destruct (truthy _).
  - apply only_bind; [by apply mp_find_only|].
    intros [?|] _; (apply only_bind; [by apply only_log|intros; apply only_ret]).
  - apply only_bind; [by apply only_log|intros; apply only_ret].
Qed.

(** ** The shape of a run *)

(** [cli.py]: a run either fails without any creation call, or went through
    the whole pipeline and issued exactly one creation call, with the
    non-empty list the item loop built. *)
Lemma cli_run_cases (w : World) (name : string) :
  (creations (trace (Cli.migrate_playlist w name)) = []
   /\ failed_unit (outcome (Cli.migrate_playlist w name)))
  \/ exists pls pl items plex_items,
       jf_playlists w = inr pls
       /\ Cli.select_playlist pls name = Some pl
       /\ jf_playlist_items w (pl_Id pl) = inr items
       /\ outcome (Cli.for_items w items []) = inr plex_items
       /\ plex_items <> []
       /\ creations (trace (Cli.migrate_playlist w name)) = [(name, plex_items)]
       /\ outcome (Cli.migrate_playlist w name)
          = match plex_create w name plex_items with
            | inr _ => inr tt
            | inl e => inl e
            end
       /\ messages (trace (Cli.migrate_playlist w name))
          = messages (trace (Cli.for_items w items []))
            ++ match plex_create w name plex_items with
               | inr _ => ["Created playlist '" +:+ name +:+ "' in Plex with "
                           +:+ str_len plex_items +:+ " items"]
               | inl _ => []
               end.
Proof.
  unfold Cli.migrate_playlist. run_unfold.
  destruct (jf_users_me w) as [e|uid]; simpl; [left; split; [done|by eexists]|].
  destruct (jf_playlists w) as [e|pls]; simpl; [left; split; [done|by eexists]|].
  destruct (Cli.select_playlist pls name) as [pl|] eqn:Hsel; simpl;
    [|left; split; [done|by eexists]].
  destruct (jf_playlist_items w (pl_Id pl)) as [e|items] eqn:Hitems; simpl;
    [left; split; [done|by eexists]|].
  destruct (myplex_account w) as [e|account]; simpl;
    [left; split; [done|by eexists]|].
  destruct (plex_server w) as [e|plex]; simpl; [left; split; [done|by eexists]|].
  pose proof (cli_for_items_no_creation w items []) as Hquiet.
  apply creations_none in Hquiet.
  destruct (Cli.for_items w items []) as [t [e|plex_items]] eqn:Hloop;
    simpl in *; [left; split; [done|by eexists]|].
  destruct plex_items as [|p ps]; simpl.
  { left. rewrite app_nil_r. split; [done|by eexists]. }
  right. exists pls, pl, items, (p :: ps).
  rewrite Hloop. repeat (split; [done|]).
  destruct (plex_create w name (p :: ps)) as [e|created]; simpl;
    rewrite creations_app, messages_app, Hquiet; done.
Qed.

Lemma for_each_emit {A} (f : A -> Event) (xs : list A) :
  for_each (fun x => ([f x], inr tt)) xs = (map f xs, inr tt).
Proof.
  induction xs as [|x xs IH]; [done|]. simpl. rewrite IH. done.
Qed.

Lemma creations_map_log {A} (lvl : Level) (f : A -> string) (xs : list A) :
  creations (map (fun x => Logging lvl (f x)) xs) = [].
Proof. by induction xs. Qed.

Lemma creations_map_print {A} (f : A -> string) (xs : list A) :
  creations (map (fun x => Stdout (f x)) xs) = [].
Proof. by induction xs. Qed.

Ltac creations_solve H :=
  repeat (progress (rewrite ?creations_app, ?H, ?creations_map_log,
                      ?creations_map_print; simpl));
  try done.

(** [migrate_playlist.py]: a run either fails without any creation call, or
    the item loop ended with at least one matched entry; then a dry run
    succeeds without a creation call, and a real run issues exactly one,
    under the name of the playlist found, and succeeds unless the call
    raises. *)
Lemma mp_run_cases (lower : string -> string) (w : World) (name : string)
  (dry_run : bool) :
  (creations (trace (MigratePlaylist.migrate_playlist lower w name dry_run)) = []
   /\ failed_bool (outcome (MigratePlaylist.migrate_playlist lower w name dry_run)))
  \/ exists pls pl items plex_items missing_items,
       jf_playlists w = inr pls
       /\ List.find (fun p => String.eqb (lower (pl_Name p)) (lower name)) pls = Some pl
       /\ jf_playlist_items w (pl_Id pl) = inr items
       /\ outcome (MigratePlaylist.for_items w items ([], []))
          = inr (plex_items, missing_items)
       /\ plex_items <> []
       /\ trace (MigratePlaylist.for_items w items ([], []))
            ⊆ trace (MigratePlaylist.migrate_playlist lower w name dry_run)
       /\ if dry_run
          then creations (trace (MigratePlaylist.migrate_playlist lower w name true)) = []
               /\ outcome (MigratePlaylist.migrate_playlist lower w name true) = inr true
          else creations (trace (MigratePlaylist.migrate_playlist lower w name false))
               = [(pl_Name pl, plex_items)]
               /\ outcome (MigratePlaylist.migrate_playlist lower w name false)
                  = match plex_create w (pl_Name pl) plex_items with
                    | inr _ => inr true
                    | inl e => if is_Exception e then inr false else inl e
                    end.
Proof.
  unfold MigratePlaylist.migrate_playlist, MigratePlaylist.find_playlist_by_name,
    MigratePlaylist.get_playlists, MigratePlaylist.get_playlist_items,
    MigratePlaylist.create_playlist.
  run_unfold.
  unfold failed_bool.
  destruct (jf_playlists w) as [e|pls]; simpl; [by left|].
  destruct (List.find _ pls) as [pl|] eqn:Hfind; simpl; [|by left].
  destruct (jf_playlist_items w (pl_Id pl)) as [e|items] eqn:Hitems; simpl;
    [by left|].
  pose proof (mp_for_items_only no_creation w items ([], [])
                I (fun _ => I) (fun _ _ => I)) as Hquiet.
  apply creations_none in Hquiet.
  destruct (MigratePlaylist.for_items w items ([], []))
    as [t [e|[plex_items missing_items]]] eqn:Hloop; simpl in *; [by left|].
  destruct missing_items as [|m ms];
    [|rewrite (for_each_emit (fun item => Logging WARNING ("  - " +:+ item)))];
    (destruct plex_items as [|p ps]; simpl;
     [left; split; [creations_solve Hquiet|by intros [=]]|]).
  all: right; exists pls, pl, items, (p :: ps); eexists; rewrite Hloop;
    repeat (split; [done|]).
  all: destruct dry_run;
    [rewrite (for_each_emit (fun item => Logging INFO ("  - " +:+ title item)))
    |destruct (plex_create w (pl_Name pl) (p :: ps)) as [e|created];
     [destruct (is_Exception e)|]];
    (split; [simpl; set_solver|split; [creations_solve Hquiet|simpl; done]]).
Qed.

Lemma pm_select_total (lower : string -> string) (pls : list JfPlaylist) (name : string) :
  pls <> [] ->
  exists pl msg, PlaylistMigrator.select_playlist lower pls name = ([Stdout msg], inr pl).
Proof.
  intros Hne. unfold PlaylistMigrator.select_playlist.
  destruct (List.find _ pls) as [pl|]; [by eexists _, _|].
  destruct pls as [|pl rest]; [done|]. by eexists _, _.
Qed.

Arguments PlaylistMigrator.select_playlist : simpl never.
Arguments PlaylistMigrator.for_items : simpl never.

(** A branch that ends in failure, with no creation call behind it. *)
Ltac run_failed := left; split; [creations_solve I|by intros [=]].

(** [playlist_migrator.py]: a run either fails without any creation call, or
    issued exactly one, for the non-empty list the item loop built, under
    the name of the selected playlist followed by " (from Jellyfin)". *)
Lemma pm_run_cases (lower : string -> string) (w : World) (name : string) :
  (creations (trace (PlaylistMigrator.migrate_playlist lower w name)) = []
   /\ failed_bool (outcome (PlaylistMigrator.migrate_playlist lower w name)))
  \/ exists pls pl items plex_items not_found_items,
       outcome (PlaylistMigrator.search_playlists w name) = inr pls
       /\ outcome (PlaylistMigrator.select_playlist lower pls name) = inr pl
       /\ outcome (PlaylistMigrator.get_playlist_items w (pl_Id pl)) = inr items
       /\ outcome (PlaylistMigrator.for_items w items ([], []))
          = inr (plex_items, not_found_items)
       /\ plex_items <> []
       /\ trace (PlaylistMigrator.for_items w items ([], []))
            ⊆ trace (PlaylistMigrator.migrate_playlist lower w name)
       /\ creations (trace (PlaylistMigrator.migrate_playlist lower w name))
          = [(pl_Name pl +:+ " (from Jellyfin)", plex_items)]
       /\ outcome (PlaylistMigrator.migrate_playlist lower w name)
          = match plex_create w (pl_Name pl +:+ " (from Jellyfin)") plex_items with
            | inr _ => inr true
            | inl e => if is_Exception e then inr false else inl e
            end.
Proof.
  unfold PlaylistMigrator.migrate_playlist, PlaylistMigrator.JellyfinClient,
    PlaylistMigrator.PlexClient, PlaylistMigrator.search_playlists,
    PlaylistMigrator.get_playlist_items, PlaylistMigrator.create_playlist, failed_bool.
  run_unfold.
  destruct (jf_authenticate w) as [e|user]; simpl;
    [destruct (is_RequestException e); simpl; run_failed|].
  destruct (myplex_account w) as [e|account]; simpl;
    [destruct (is_Exception e); simpl; run_failed|].
  destruct (plex_server w) as [e|server]; simpl;
    [destruct (is_Exception e); simpl; run_failed|].
  destruct (jf_search w name) as [e|pls] eqn:Hsearch; simpl;
    [destruct (is_RequestException e); simpl; run_failed|].
  destruct pls as [|pl0 pls]; simpl; [run_failed|].
  destruct (pm_select_total lower (pl0 :: pls) name ltac:(done)) as (pl & msg & Hsel).
  rewrite Hsel; simpl.
  destruct (jf_playlist_items w (pl_Id pl)) as [e|items] eqn:Hitems; simpl;
    [destruct (is_RequestException e); simpl; run_failed|].
  destruct items as [|item items]; simpl; [run_failed|].
  pose proof (pm_for_items_only no_creation w (item :: items) ([], [])
                I (fun _ _ => I) (fun _ => I)) as Hquiet.
  apply creations_none in Hquiet.
  destruct (PlaylistMigrator.for_items w (item :: items) ([], []))
    as [t [e|[plex_items not_found_items]]] eqn:Hloop; simpl in Hquiet |- *;
    [left; split; [creations_solve Hquiet|by intros [=]]|].
  destruct plex_items as [|p ps]; simpl;
    [left; split; [creations_solve Hquiet|by intros [=]]|].
  right. exists (pl0 :: pls), pl, (item :: items), (p :: ps), not_found_items.
  rewrite Hsel, Hitems, Hloop. repeat (split; [done|]).
  destruct not_found_items as [|m ms];
    [|rewrite (for_each_emit (fun item_name => Stdout ("  - " +:+ item_name)))];
    (destruct (plex_create w (pl_Name pl +:+ " (from Jellyfin)") (p :: ps))
       as [e|created]; [destruct (is_Exception e)|]);
    (split; [simpl; set_solver|split; [creations_solve Hquiet|simpl; done]]).
Qed.

(** ** C2: nothing matched *)

Lemma omap_all_none {A B} (f : A -> option B) (l : list A) :
  Forall (fun x => f x = None) l -> omap f l = [].
Proof. induction 1 as [|x l Hx _ IH]; [done|]. simpl. by rewrite Hx. Qed.

(** C2. A run in which no item of the source playlist resolves to a
    destination entry issues no playlist-creation call and ends in failure
    ([False] is returned, or [SystemExit] is raised in [cli.py]); and
    whatever the run, a creation call never carries an empty list of items. *)
Theorem C2_no_match_no_creation (lower : string -> string) (w : World) (name : string) :
  (forall dry_run,
     Forall (fun c => c.2 <> [])
            (creations (trace (MigratePlaylist.migrate_playlist lower w name dry_run)))
     /\ forall pls pl items,
          jf_playlists w = inr pls ->
          List.find (fun p => String.eqb (lower (pl_Name p)) (lower name)) pls = Some pl ->
          jf_playlist_items w (pl_Id pl) = inr items ->
          Forall (fun item => mp_resolve w item = None) items ->
          creations (trace (MigratePlaylist.migrate_playlist lower w name dry_run)) = []
          /\ failed_bool (outcome (MigratePlaylist.migrate_playlist lower w name dry_run)))
  /\ (Forall (fun c => c.2 <> [])
             (creations (trace (PlaylistMigrator.migrate_playlist lower w name)))
      /\ forall pls pl items,
           outcome (PlaylistMigrator.search_playlists w name) = inr pls ->
           outcome (PlaylistMigrator.select_playlist lower pls name) = inr pl ->
           outcome (PlaylistMigrator.get_playlist_items w (pl_Id pl)) = inr items ->
           Forall (fun item => pm_resolve w item = None) items ->
           creations (trace (PlaylistMigrator.migrate_playlist lower w name)) = []
           /\ failed_bool (outcome (PlaylistMigrator.migrate_playlist lower w name)))
  /\ (Forall (fun c => c.2 <> []) (creations (trace (Cli.migrate_playlist w name)))
      /\ forall pls pl items,
           jf_playlists w = inr pls ->
           Cli.select_playlist pls name = Some pl ->
           jf_playlist_items w (pl_Id pl) = inr items ->
           Forall (fun item => cli_resolve w item = None) items ->
           creations (trace (Cli.migrate_playlist w name)) = []
           /\ failed_unit (outcome (Cli.migrate_playlist w name))).
Proof.
  split; [|split].
  - intros dry_run.
    destruct (mp_run_cases lower w name dry_run)
      as [[Hnone Hfail]|(pls & pl & items & plex_items & missing & Hpls & Hfind
                         & Hitems & Hloop & Hne & _ & Hrun)].
    { rewrite Hnone. split; [constructor|done]. }
    split.
    + destruct dry_run; destruct Hrun as [-> _]; by repeat constructor.
    + intros pls' pl' items' Hpls' Hfind' Hitems' Hall.
      rewrite Hpls in Hpls'. injection Hpls' as <-.
      rewrite Hfind in Hfind'. injection Hfind' as <-.
      rewrite Hitems in Hitems'. injection Hitems' as <-.
      apply mp_for_items_spec in Hloop as [[= -> _] _].
      by rewrite (omap_all_none _ _ Hall) in Hne.
  - destruct (pm_run_cases lower w name)
      as [[Hnone Hfail]|(pls & pl & items & plex_items & missing & Hpls & Hsel
                         & Hitems & Hloop & Hne & _ & Hcreate & Hout)].
    { rewrite Hnone. split; [constructor|done]. }
    split.
    + rewrite Hcreate. by repeat constructor.
    + intros pls' pl' items' Hpls' Hsel' Hitems' Hall.
      rewrite Hpls in Hpls'. injection Hpls' as <-.
      rewrite Hsel in Hsel'. injection Hsel' as <-.
      rewrite Hitems in Hitems'. injection Hitems' as <-.
      apply pm_for_items_spec in Hloop as [[= -> _] _].
      by rewrite (omap_all_none _ _ Hall) in Hne.
  - destruct (cli_run_cases w name)
      as [[Hnone Hfail]|(pls & pl & items & plex_items & Hpls & Hsel
                         & Hitems & Hloop & Hne & Hcreate & Hout & _)].
    { rewrite Hnone. split; [constructor|done]. }
    split.
    + rewrite Hcreate. by repeat constructor.
    + intros pls' pl' items' Hpls' Hsel' Hitems' Hall.
      rewrite Hpls in Hpls'. injection Hpls' as <-.
      rewrite Hsel in Hsel'. injection Hsel' as <-.
      rewrite Hitems in Hitems'. injection Hitems' as <-.
      apply cli_for_items_spec in Hloop as [-> _].
      by rewrite (omap_all_none _ _ Hall) in Hne.
Qed.

Lemma C2_witness :
  (creations (trace (MigratePlaylist.migrate_playlist str_lower scenario_b "Road Trip" false))
   = []
   /\ failed_bool (outcome (MigratePlaylist.migrate_playlist
                              str_lower scenario_b "Road Trip" false)))
  /\ (creations (trace (PlaylistMigrator.migrate_playlist str_lower scenario_b "Road Trip"))
      = []
      /\ failed_bool (outcome (PlaylistMigrator.migrate_playlist
                                 str_lower scenario_b "Road Trip")))
  /\ (creations (trace (Cli.migrate_playlist scenario_b "Road Trip")) = []
      /\ failed_unit (outcome (Cli.migrate_playlist scenario_b "Road Trip"))).
Proof.
  destruct (C2_no_match_no_creation str_lower scenario_b "Road Trip")
    as (Hmp & [_ Hpm] & [_ Hcli]).
  destruct (Hmp false) as [_ Hmp'].
  split; [|split].
  - apply (Hmp' [road_trip] road_trip [jf_item "x" (Some "/media/x.mp3")]);
      try reflexivity.
    constructor; [reflexivity|constructor].
  - apply (Hpm [road_trip] road_trip [jf_item "x" (Some "/media/x.mp3")]);
      try reflexivity.
    constructor; [reflexivity|constructor].
  - apply (Hcli [road_trip] road_trip [jf_item "x" (Some "/media/x.mp3")]);
      try reflexivity.
    constructor; [reflexivity|constructor].
Defined.

(** ** C3: the order of the created playlist *)

(** C3. The list of entries handed to the creation call is, in order, what
    the items of the source playlist resolve to: the unmatched items are
    left out and the matched ones keep their relative order, so the list
    corresponds entry by entry to a subsequence of the source items. *)
Theorem C3_created_items_follow_source_order
  (lower : string -> string) (w : World) (name n : string) (its : list PlexItem) :
  (forall dry_run,
     (n, its) ∈ creations (trace (MigratePlaylist.migrate_playlist lower w name dry_run)) ->
     exists pls pl items,
       jf_playlists w = inr pls
       /\ List.find (fun p => String.eqb (lower (pl_Name p)) (lower name)) pls = Some pl
       /\ jf_playlist_items w (pl_Id pl) = inr items
       /\ its = omap (mp_resolve w) items
       /\ exists sub, sub `sublist_of` items
                      /\ Forall2 (fun item p => mp_resolve w item = Some p) sub its)
  /\ ((n, its) ∈ creations (trace (PlaylistMigrator.migrate_playlist lower w name)) ->
      exists pls pl items,
        outcome (PlaylistMigrator.search_playlists w name) = inr pls
        /\ outcome (PlaylistMigrator.select_playlist lower pls name) = inr pl
        /\ outcome (PlaylistMigrator.get_playlist_items w (pl_Id pl)) = inr items
        /\ its = omap (pm_resolve w) items
        /\ exists sub, sub `sublist_of` items
                       /\ Forall2 (fun item p => pm_resolve w item = Some p) sub its)
  /\ ((n, its) ∈ creations (trace (Cli.migrate_playlist w name)) ->
      exists pls pl items,
        jf_playlists w = inr pls
        /\ Cli.select_playlist pls name = Some pl
        /\ jf_playlist_items w (pl_Id pl) = inr items
        /\ its = omap (cli_resolve w) items
        /\ exists sub, sub `sublist_of` items
                       /\ Forall2 (fun item p => cli_resolve w item = Some p) sub its).
Proof.
  split; [|split].
  - intros dry_run Hin.
    destruct (mp_run_cases lower w name dry_run)
      as [[Hnone _]|(pls & pl & items & plex_items & missing & Hpls & Hfind
                     & Hitems & Hloop & Hne & _ & Hrun)].
    { rewrite Hnone in Hin. by apply elem_of_nil in Hin. }
    destruct dry_run; destruct Hrun as [Hcreate _]; rewrite Hcreate in Hin.
    { by apply elem_of_nil in Hin. }
    apply list_elem_of_singleton in Hin as [= -> ->].
    apply mp_for_items_spec in Hloop as [[= -> _] _].
    exists pls, pl, items. repeat (split; [done|]). apply omap_sublist.
  - intros Hin.
    destruct (pm_run_cases lower w name)
      as [[Hnone _]|(pls & pl & items & plex_items & missing & Hpls & Hsel
                     & Hitems & Hloop & Hne & _ & Hcreate & _)].
    { rewrite Hnone in Hin. by apply elem_of_nil in Hin. }
    rewrite Hcreate in Hin. apply list_elem_of_singleton in Hin as [= -> ->].
    apply pm_for_items_spec in Hloop as [[= -> _] _].
    exists pls, pl, items. repeat (split; [done|]). apply omap_sublist.
  - intros Hin.
    destruct (cli_run_cases w name)
      as [[Hnone _]|(pls & pl & items & plex_items & Hpls & Hsel
                     & Hitems & Hloop & Hne & Hcreate & _)].
    { rewrite Hnone in Hin. by apply elem_of_nil in Hin. }
    rewrite Hcreate in Hin. apply list_elem_of_singleton in Hin as [= -> ->].
    apply cli_for_items_spec in Hloop as [-> _].
    exists pls, pl, items. repeat (split; [done|]). apply omap_sublist.
Qed.

Lemma C3_witness :
  (exists sub,
     sub `sublist_of` [jf_item "a" (Some "/media/a.mp3");
                       jf_item "b" (Some "/media/b.mp3"); jf_item "c" None]
     /\ Forall2 (fun item p => mp_resolve scenario_a item = Some p) sub
                [track "/media/a.mp3"; track "/media/b.mp3"])
  /\ (exists sub,
        sub `sublist_of` [jf_item "a" (Some "/media/a.mp3");
                          jf_item "b" (Some "/media/b.mp3"); jf_item "c" None]
        /\ Forall2 (fun item p => pm_resolve scenario_a item = Some p) sub
                   [track "/media/a.mp3"; track "/media/b.mp3"])
  /\ (exists sub,
        sub `sublist_of` [jf_item "a" (Some "/media/a.mp3");
                          jf_item "b" (Some "/media/b.mp3"); jf_item "c" None]
        /\ Forall2 (fun item p => cli_resolve scenario_a item = Some p) sub
                   [track "/media/a.mp3"; track "/media/b.mp3"]).
Proof.
  split; [|split].
  - destruct (C3_created_items_follow_source_order
                str_lower scenario_a "Road Trip" "Road Trip"
                [track "/media/a.mp3"; track "/media/b.mp3"]) as (Hmp & _).
    destruct (Hmp false) as (pls & pl & items & _ & _ & Hitems & _ & Hsub).
    { vm_compute. constructor. }
    injection Hitems as <-. exact Hsub.
  - destruct (C3_created_items_follow_source_order
                str_lower scenario_a "Road Trip" "Road Trip (from Jellyfin)"
                [track "/media/a.mp3"; track "/media/b.mp3"]) as (_ & Hpm & _).
    destruct Hpm as (pls & pl & items & _ & _ & Hitems & _ & Hsub).
    { vm_compute. constructor. }
    injection Hitems as <-. exact Hsub.
  - destruct (C3_created_items_follow_source_order
                str_lower scenario_a "Road Trip" "Road Trip"
                [track "/media/a.mp3"; track "/media/b.mp3"]) as (_ & _ & Hcli).
    destruct Hcli as (pls & pl & items & _ & _ & Hitems & _ & Hsub).
    { vm_compute. constructor. }
    injection Hitems as <-. exact Hsub.
Defined.

(** ** C6: dry run *)



(** ** C10: the name of the created playlist *)

Lemma append_suffix_ne (s : string) : s +:+ " (from Jellyfin)" <> s.
Proof. induction s as [|c s IH]; simpl; [done|]. intros [= H]. by apply IH. Qed.

(** C10. Whenever [playlist_migrator.py] reaches the creation step, the
    playlist is created under the name of the selected source playlist
    followed by " (from Jellyfin)", which is never the source name itself;
    [migrate_playlist.py] creates it under the name of the playlist found,
    and [cli.py] under the requested name, both unmodified. *)
Theorem C10_created_under_suffixed_name
  (lower : string -> string) (w : World) (name n : string) (its : list PlexItem) :
  ((n, its) ∈ creations (trace (PlaylistMigrator.migrate_playlist lower w name)) ->
   exists pls pl,
     outcome (PlaylistMigrator.search_playlists w name) = inr pls
     /\ outcome (PlaylistMigrator.select_playlist lower pls name) = inr pl
     /\ n = pl_Name pl +:+ " (from Jellyfin)"
     /\ n <> pl_Name pl)
  /\ (forall dry_run,
        (n, its) ∈ creations (trace (MigratePlaylist.migrate_playlist lower w name dry_run)) ->
        exists pls pl,
          jf_playlists w = inr pls
          /\ List.find (fun p => String.eqb (lower (pl_Name p)) (lower name)) pls = Some pl
          /\ n = pl_Name pl)
  /\ ((n, its) ∈ creations (trace (Cli.migrate_playlist w name)) -> n = name).
Proof.
  split; [|split].
  - intros Hin.
    destruct (pm_run_cases lower w name)
      as [[Hnone _]|(pls & pl & items & plex_items & missing & Hpls & Hsel
                     & Hitems & Hloop & Hne & _ & Hcreate & _)].
    { rewrite Hnone in Hin. by apply elem_of_nil in Hin. }
    rewrite Hcreate in Hin. apply list_elem_of_singleton in Hin as [= -> ->].
    exists pls, pl. repeat (split; [done|]). apply append_suffix_ne.
  - intros dry_run Hin.
    destruct (mp_run_cases lower w name dry_run)
      as [[Hnone _]|(pls & pl & items & plex_items & missing & Hpls & Hfind
                     & Hitems & Hloop & Hne & _ & Hrun)].
    { rewrite Hnone in Hin. by apply elem_of_nil in Hin. }
    destruct dry_run; destruct Hrun as [Hcreate _]; rewrite Hcreate in Hin.
    { by apply elem_of_nil in Hin. }
    apply list_elem_of_singleton in Hin as [= -> ->]. by exists pls, pl.
  - intros Hin.
    destruct (cli_run_cases w name)
      as [[Hnone _]|(pls & pl & items & plex_items & Hpls & Hsel
                     & Hitems & Hloop & Hne & Hcreate & _)].
    { rewrite Hnone in Hin. by apply elem_of_nil in Hin. }
    rewrite Hcreate in Hin. by apply list_elem_of_singleton in Hin as [= -> ->].
Qed.

Lemma C10_witness :
  exists pls pl,
    outcome (PlaylistMigrator.search_playlists scenario_a "Road Trip") = inr pls
    /\ outcome (PlaylistMigrator.select_playlist str_lower pls "Road Trip") = inr pl
    /\ "Road Trip (from Jellyfin)" = pl_Name pl +:+ " (from Jellyfin)"
    /\ "Road Trip (from Jellyfin)" <> pl_Name pl.
Proof.
  destruct (C10_created_under_suffixed_name
              str_lower scenario_a "Road Trip" "Road Trip (from Jellyfin)"
              [track "/media/a.mp3"; track "/media/b.mp3"]) as (Hpm & _).
  apply Hpm. vm_compute. constructor.
Defined.

(** ** C7: looking the source playlist up *)

Lemma find_first {A} (f : A -> bool) (l : list A) :
  (exists x, x ∈ l /\ f x = true) ->
  exists y, List.find f l = Some y /\ y ∈ l /\ f y = true.
Proof.
  intros (x & Hin & Hfx). induction l as [|a l IH]; [by apply elem_of_nil in Hin|].
  simpl. destruct (f a) eqn:Hfa.
  - exists a. split; [done|]. split; [by left|done].
  - apply elem_of_cons in Hin as [->|Hin]; [congruence|].
    destruct (IH Hin) as (y & ? & ? & ?). exists y. split; [done|]. split; [by right|done].
Qed.

Lemma find_nothing {A} (f : A -> bool) (l : list A) :
  Forall (fun x => f x = false) l -> List.find f l = None.
Proof. induction 1 as [|a l Ha _ IH]; [done|]. simpl. by rewrite Ha. Qed.

(** C7 (amended).  [playlist_migrator.py], which searches by term, selects
    a search result whose name equals the requested name case-insensitively;
    when there is none and the result set is not empty it falls back to the
    first result, and says so ("Exact match not found, using playlist: ...").
    [migrate_playlist.py] selects from the full listing a playlist whose
    name equals the requested one case-insensitively, and [cli.py] one
    whose name equals it exactly; neither falls back: without such a
    playlist the run stops with a "not found" message. *)
Theorem C7_playlist_lookup
  (lower : string -> string) (w : World) (name : string) (pls : list JfPlaylist) :
  ((exists p, p ∈ pls /\ lower (pl_Name p) = lower name) ->
   exists pl,
     PlaylistMigrator.select_playlist lower pls name
     = ([Stdout ("Found playlist: " +:+ pl_Name pl)], inr pl)
     /\ pl ∈ pls /\ lower (pl_Name pl) = lower name)
  /\ (forall first rest,
        pls = first :: rest ->
        Forall (fun p => lower (pl_Name p) <> lower name) pls ->
        PlaylistMigrator.select_playlist lower pls name
        = ([Stdout ("Exact match not found, using playlist: " +:+ pl_Name first)],
           inr first))
  /\ (jf_playlists w = inr pls ->
      (exists p, p ∈ pls /\ lower (pl_Name p) = lower name) ->
      exists pl,
        outcome (MigratePlaylist.find_playlist_by_name lower w name) = inr (Some pl)
        /\ pl ∈ pls /\ lower (pl_Name pl) = lower name)
  /\ (jf_playlists w = inr pls ->
      Forall (fun p => lower (pl_Name p) <> lower name) pls ->
      forall dry_run,
        outcome (MigratePlaylist.find_playlist_by_name lower w name) = inr None
        /\ MigratePlaylist.migrate_playlist lower w name dry_run
           = ([Logging INFO ("Starting migration of playlist: " +:+ name);
               JfGetPlaylists;
               Logging ERROR ("Playlist '" +:+ name +:+ "' not found in Jellyfin")],
              inr false))
  /\ ((exists p, p ∈ pls /\ pl_Name p = name) ->
      exists pl, Cli.select_playlist pls name = Some pl /\ pl ∈ pls /\ pl_Name pl = name)
  /\ (jf_playlists w = inr pls ->
      Forall (fun p => pl_Name p <> name) pls ->
      forall user_id,
        jf_users_me w = inr user_id ->
        Cli.select_playlist pls name = None
        /\ Cli.migrate_playlist w name
           = ([JfUsersMe; JfGetPlaylists],
              inl (SystemExit ("Playlist '" +:+ name +:+ "' not found on Jellyfin")))).
Proof.
  assert (Hci : (exists p, p ∈ pls /\ lower (pl_Name p) = lower name) ->
                exists pl,
                  List.find (fun p => String.eqb (lower (pl_Name p)) (lower name)) pls
                  = Some pl /\ pl ∈ pls /\ lower (pl_Name pl) = lower name).
  { intros (p & Hin & Heq).
    destruct (find_first (fun p => String.eqb (lower (pl_Name p)) (lower name)) pls)
      as (pl & Hfind & Hpl & Hname).
    - exists p. split; [done|]. by apply String.eqb_eq.
    - exists pl. repeat split; [done..|]. by apply String.eqb_eq. }
  assert (Hnone : Forall (fun p => lower (pl_Name p) <> lower name) pls ->
                  List.find (fun p => String.eqb (lower (pl_Name p)) (lower name)) pls
                  = None).
  { intros Hall. apply find_nothing. eapply Forall_impl; [exact Hall|].
    intros p Hne. by apply String.eqb_neq. }
  split; [|split; [|split; [|split; [|split]]]].
  - intros (pl & Hfind & Hin & Heq)%Hci. exists pl.
    unfold PlaylistMigrator.select_playlist. by rewrite Hfind.
  - intros first rest -> Hall%Hnone.
    unfold PlaylistMigrator.select_playlist. by rewrite Hall.
  - intros Hpls (pl & Hfind & Hin & Heq)%Hci. exists pl.
    unfold MigratePlaylist.find_playlist_by_name, MigratePlaylist.get_playlists.
    rewrite Hpls, call_inr. run_unfold. by rewrite Hfind.
  - intros Hpls Hall%Hnone dry_run.
    unfold MigratePlaylist.migrate_playlist, MigratePlaylist.find_playlist_by_name,
      MigratePlaylist.get_playlists.
    rewrite Hpls, call_inr. run_unfold. by rewrite Hall.
  - intros (p & Hin & Heq).
    destruct (find_first (fun p => String.eqb (pl_Name p) name) pls)
      as (pl & Hfind & Hpl & Hname).
    + exists p. split; [done|]. by apply String.eqb_eq.
    + exists pl. repeat split; [done..|]. by apply String.eqb_eq.
  - intros Hpls Hall user_id Hme.
    assert (Hsel : Cli.select_playlist pls name = None).
    { apply find_nothing. eapply Forall_impl; [exact Hall|].
      intros p Hne. by apply String.eqb_neq. }
    split; [done|].
    unfold Cli.migrate_playlist. rewrite Hpls, Hme, !call_inr.
    run_unfold. by rewrite Hsel.
Qed.

Lemma C7_witness :
  PlaylistMigrator.select_playlist str_lower [road_trip_mix; road_trip] "road trip"
  = ([Stdout "Found playlist: Road Trip"], inr road_trip)
  /\ PlaylistMigrator.select_playlist str_lower [road_trip_mix] "Road Trip"
     = ([Stdout "Exact match not found, using playlist: Road Trip Mix"],
        inr road_trip_mix)
  /\ MigratePlaylist.migrate_playlist str_lower only_the_mix "Road Trip" false
     = ([Logging INFO "Starting migration of playlist: Road Trip";
         JfGetPlaylists;
         Logging ERROR "Playlist 'Road Trip' not found in Jellyfin"],
        inr false)
  /\ Cli.migrate_playlist only_the_mix "Road Trip"
     = ([JfUsersMe; JfGetPlaylists],
        inl (SystemExit "Playlist 'Road Trip' not found on Jellyfin")).
Proof.
  assert (Hmix : Forall (fun p => str_lower (pl_Name p) <> str_lower "Road Trip")
                        [road_trip_mix]).
  { constructor; [|constructor]. vm_compute. discriminate. }
  assert (Hmix' : Forall (fun p => pl_Name p <> "Road Trip") [road_trip_mix]).
  { constructor; [|constructor]. vm_compute. discriminate. }
  split; [|split; [|split]].
  - destruct (C7_playlist_lookup str_lower scenario_a "road trip"
                [road_trip_mix; road_trip]) as (Hfound & _).
    destruct Hfound as (pl & Hsel & _).
    { exists road_trip. split; [|reflexivity]. right. left. }
    assert (pl = road_trip) as ->.
    { pose proof (f_equal snd Hsel) as Hpl. vm_compute in Hpl. by injection Hpl. }
    exact Hsel.
  - destruct (C7_playlist_lookup str_lower scenario_a "Road Trip" [road_trip_mix])
      as (_ & Hfallback & _).
    apply (Hfallback road_trip_mix [] eq_refl Hmix).
  - destruct (C7_playlist_lookup str_lower only_the_mix "Road Trip" [road_trip_mix])
      as (_ & _ & _ & Hmp & _).
    apply (Hmp eq_refl Hmix false).
  - destruct (C7_playlist_lookup str_lower only_the_mix "Road Trip" [road_trip_mix])
      as (_ & _ & _ & _ & _ & Hcli).
    apply (Hcli eq_refl Hmix' "user-1" eq_refl).
Defined.

(** C7 as stated fails.  In [migrate_playlist.py] the listing is not empty
    and holds no playlist of the requested name: the lookup gives nothing
    instead of the first playlist, and the run fails.  In [cli.py] the
    comparison is case-sensitive: "Road Trip" is not found under the name
    "road trip", which it equals case-insensitively. *)
Lemma C7_counterexample :
  jf_playlists only_the_mix = inr [road_trip_mix]
  /\ outcome (MigratePlaylist.find_playlist_by_name str_lower only_the_mix "Road Trip")
     = inr None
  /\ outcome (MigratePlaylist.migrate_playlist str_lower only_the_mix "Road Trip" false)
     = inr false
  /\ outcome (Cli.migrate_playlist only_the_mix "Road Trip")
     = inl (SystemExit "Playlist 'Road Trip' not found on Jellyfin")
  /\ jf_playlists scenario_a = inr [road_trip]
  /\ str_lower (pl_Name road_trip) = str_lower "road trip"
  /\ Cli.select_playlist [road_trip] "road trip" = None
  /\ outcome (Cli.migrate_playlist scenario_a "road trip")
     = inl (SystemExit "Playlist 'road trip' not found on Jellyfin").
Proof. repeat split. Qed.

(** ** C8: the report *)

Lemma messages_mono (t1 t2 : list Event) : t1 ⊆ t2 -> messages t1 ⊆ messages t2.
Proof.
  intros Hsub m (ev & Hev & Hm)%list_elem_of_omap.
  apply list_elem_of_omap. exists ev. split; [by apply Hsub|done].
Qed.

Lemma mp_unmatched_has_message (w : World) (item : JfItem) :
  mp_resolve w item = None -> exists m, mp_unmatched_message w item = Some m.
Proof.
  unfold mp_resolve, mp_unmatched_message.
  destruct (truthy (media_source_path item)); [|by eexists].
  intros ->. by eexists.
Qed.

Lemma pm_unmatched_has_message (w : World) (item : JfItem) :
  pm_resolve w item = None -> exists m, pm_unmatched_message w item = Some m.
Proof.
  unfold pm_resolve, pm_unmatched_message.
  destruct (truthy (media_source_path item)); [|by eexists].
  intros ->. by eexists.
Qed.

(** The events of the item loop are part of the run, whatever follows
    the loop. *)
Lemma mp_loop_in_run (lower : string -> string) (w : World) (name : string)
  (dry_run : bool) (pls : list JfPlaylist) (pl : JfPlaylist) (items : list JfItem) :
  jf_playlists w = inr pls ->
  List.find (fun p => String.eqb (lower (pl_Name p)) (lower name)) pls = Some pl ->
  jf_playlist_items w (pl_Id pl) = inr items ->
  trace (MigratePlaylist.for_items w items ([], []))
    ⊆ trace (MigratePlaylist.migrate_playlist lower w name dry_run).
Proof.
  intros Hpls Hfind Hitems.
  unfold MigratePlaylist.migrate_playlist, MigratePlaylist.find_playlist_by_name,
    MigratePlaylist.get_playlists, MigratePlaylist.get_playlist_items,
    MigratePlaylist.create_playlist.
  rewrite Hpls. run_unfold. rewrite Hfind. simpl. rewrite Hitems. simpl.
  destruct (MigratePlaylist.for_items w items ([], []))
    as [t [e|[plex_items missing_items]]]; simpl; [set_solver|].
  destruct missing_items as [|m ms];
    [|rewrite (for_each_emit (fun item => Logging WARNING ("  - " +:+ item)))];
    (destruct plex_items as [|p ps]; simpl; [set_solver|]).
  all: destruct dry_run;
    [rewrite (for_each_emit (fun item => Logging INFO ("  - " +:+ title item)))
    |destruct (plex_create w (pl_Name pl) (p :: ps)) as [e|created];
     [destruct (is_Exception e)|]];
    simpl; set_solver.
Qed.

Lemma pm_loop_in_run (lower : string -> string) (w : World) (name : string)
  (pls : list JfPlaylist) (pl : JfPlaylist) (items : list JfItem) :
  outcome (PlaylistMigrator.JellyfinClient w) = inr tt ->
  outcome (PlaylistMigrator.PlexClient w) = inr tt ->
  outcome (PlaylistMigrator.search_playlists w name) = inr pls ->
  outcome (PlaylistMigrator.select_playlist lower pls name) = inr pl ->
  outcome (PlaylistMigrator.get_playlist_items w (pl_Id pl)) = inr items ->
  items <> [] ->
  trace (PlaylistMigrator.for_items w items ([], []))
    ⊆ trace (PlaylistMigrator.migrate_playlist lower w name).
Proof.
  intros Hjf Hplex Hsearch Hsel Hitems Hne.
  assert (pls <> []) as Hpls.
  { intros ->. unfold PlaylistMigrator.select_playlist in Hsel. done. }
  destruct (pm_select_total lower pls name Hpls) as (pl' & msg & Hsel').
  rewrite Hsel' in Hsel. injection Hsel as ->.
  unfold PlaylistMigrator.migrate_playlist, PlaylistMigrator.JellyfinClient,
    PlaylistMigrator.PlexClient, PlaylistMigrator.search_playlists,
    PlaylistMigrator.get_playlist_items in *.
  revert Hjf Hplex Hsearch Hitems. run_unfold.
  destruct (jf_authenticate w) as [e|user]; simpl;
    [destruct (is_RequestException e); simpl; intros [=]|intros _].
  destruct (myplex_account w) as [e|account]; simpl;
    [destruct (is_Exception e); simpl; intros [=]|].
  destruct (plex_server w) as [e|server]; simpl;
    [destruct (is_Exception e); simpl; intros [=]|intros _].
  destruct (jf_search w name) as [e|pls'] eqn:Hs; simpl;
    [destruct (is_RequestException e); simpl; intros [=]; subst; done|].
  intros [= ->]. destruct pls as [|pl0 pls]; [done|]. simpl.
  rewrite Hsel'. simpl.
  destruct (jf_playlist_items w (pl_Id pl)) as [e|items']; simpl;
    [destruct (is_RequestException e); simpl; intros [=]; subst; done|].
  intros [= ->]. destruct items as [|item items]; [done|]. simpl.
  destruct (PlaylistMigrator.for_items w (item :: items) ([], []))
    as [t [e|[plex_items not_found_items]]]; simpl; [set_solver|].
  destruct plex_items as [|p ps]; simpl; [set_solver|].
  unfold PlaylistMigrator.create_playlist. run_unfold.
  destruct not_found_items as [|m ms];
    [|rewrite (for_each_emit (fun item_name => Stdout ("  - " +:+ item_name)))];
    (destruct (plex_create w (pl_Name pl +:+ " (from Jellyfin)") (p :: ps))
       as [e|created]; [destruct (is_Exception e)|]);
    simpl; set_solver.
Qed.

(** The whole report of [cli.py] once the item loop is over. *)
Lemma cli_run_messages (w : World) (name user_id account plex : string)
  (pls : list JfPlaylist) (pl : JfPlaylist) (items : list JfItem)
  (plex_items : list PlexItem) :
  jf_users_me w = inr user_id ->
  jf_playlists w = inr pls ->
  Cli.select_playlist pls name = Some pl ->
  jf_playlist_items w (pl_Id pl) = inr items ->
  myplex_account w = inr account ->
  plex_server w = inr plex ->
  outcome (Cli.for_items w items []) = inr plex_items ->
  messages (trace (Cli.migrate_playlist w name))
  = omap (cli_unmatched_message w) items
    ++ match plex_items, plex_create w name plex_items with
       | _ :: _, inr _ => ["Created playlist '" +:+ name +:+ "' in Plex with "
                           +:+ str_len plex_items +:+ " items"]
       | _, _ => []
       end.
Proof.
  intros Hme Hpls Hsel Hitems Hacc Hsrv Hloop.
  pose proof (cli_for_items_spec _ _ _ _ Hloop) as [_ Hmsgs].
  unfold Cli.migrate_playlist.
  rewrite Hme, Hpls. run_unfold. rewrite Hsel. simpl.
  rewrite Hitems, Hacc, Hsrv. simpl.
  destruct (Cli.for_items w items []) as [t r]; simpl in *. subst r.
  destruct plex_items as [|p ps]; simpl.
  { by rewrite app_nil_r, Hmsgs, app_nil_r. }
  destruct (plex_create w name (p :: ps)) as [e|created]; simpl;
    rewrite messages_app, Hmsgs; done.
Qed.

(** C8 (amended).  In every run of [migrate_playlist.py] (a dry run or a
    failing one included) and of [playlist_migrator.py] whose item loop
    completes, every unmatched item of the source playlist has its message
    in the report, which names it and tells a missing file path from a path
    not found in Plex.  In [cli.py] the report of such a run holds a warning
    for the paths not found only, and nothing for the items without a path.
    In the three of them a run whose creation call succeeds ends as a plain
    success ([True], or a normal return), whether or not some items stayed
    unmatched: there is no partial-success outcome. *)
Theorem C8_report_of_a_run
  (lower : string -> string) (w : World) (name : string)
  (pls : list JfPlaylist) (pl : JfPlaylist) (items : list JfItem) :
  (forall dry_run acc,
     jf_playlists w = inr pls ->
     List.find (fun p => String.eqb (lower (pl_Name p)) (lower name)) pls = Some pl ->
     jf_playlist_items w (pl_Id pl) = inr items ->
     outcome (MigratePlaylist.for_items w items ([], [])) = inr acc ->
     forall item, item ∈ items -> mp_resolve w item = None ->
       exists m, mp_unmatched_message w item = Some m
                 /\ m ∈ messages (trace (MigratePlaylist.migrate_playlist
                                           lower w name dry_run)))
  /\ (forall acc,
        outcome (PlaylistMigrator.JellyfinClient w) = inr tt ->
        outcome (PlaylistMigrator.PlexClient w) = inr tt ->
        outcome (PlaylistMigrator.search_playlists w name) = inr pls ->
        outcome (PlaylistMigrator.select_playlist lower pls name) = inr pl ->
        outcome (PlaylistMigrator.get_playlist_items w (pl_Id pl)) = inr items ->
        outcome (PlaylistMigrator.for_items w items ([], [])) = inr acc ->
        forall item, item ∈ items -> pm_resolve w item = None ->
          exists m, pm_unmatched_message w item = Some m
                    /\ m ∈ messages (trace (PlaylistMigrator.migrate_playlist
                                              lower w name)))
  /\ (forall user_id account plex plex_items,
        jf_users_me w = inr user_id ->
        jf_playlists w = inr pls ->
        Cli.select_playlist pls name = Some pl ->
        jf_playlist_items w (pl_Id pl) = inr items ->
        myplex_account w = inr account ->
        plex_server w = inr plex ->
        outcome (Cli.for_items w items []) = inr plex_items ->
        messages (trace (Cli.migrate_playlist w name))
        = omap (cli_unmatched_message w) items
          ++ match plex_items, plex_create w name plex_items with
             | _ :: _, inr _ => ["Created playlist '" +:+ name +:+ "' in Plex with "
                                 +:+ str_len plex_items +:+ " items"]
             | _, _ => []
             end)
  /\ (forall n its created,
        plex_create w n its = inr created ->
        (forall dry_run,
           (n, its) ∈ creations (trace (MigratePlaylist.migrate_playlist
                                          lower w name dry_run)) ->
           outcome (MigratePlaylist.migrate_playlist lower w name dry_run) = inr true)
        /\ ((n, its) ∈ creations (trace (PlaylistMigrator.migrate_playlist lower w name)) ->
            outcome (PlaylistMigrator.migrate_playlist lower w name) = inr true)
        /\ ((n, its) ∈ creations (trace (Cli.migrate_playlist w name)) ->
            outcome (Cli.migrate_playlist w name) = inr tt)).
Proof.
  split; [|split; [|split]].
  - intros dry_run acc Hpls Hfind Hitems Hloop item Hitem
      [m Hm]%mp_unmatched_has_message.
    exists m. split; [done|].
    apply mp_for_items_spec in Hloop as [_ Hmsgs].
    apply (messages_mono _ _ (mp_loop_in_run lower w name dry_run _ _ _
                                Hpls Hfind Hitems)).
    by apply (Hmsgs item).
  - intros acc Hjf Hplex Hsearch Hsel Hitems Hloop item Hitem
      [m Hm]%pm_unmatched_has_message.
    exists m. split; [done|].
    apply pm_for_items_spec in Hloop as [_ Hmsgs].
    assert (items <> []) as Hne by (intros ->; by apply elem_of_nil in Hitem).
    apply (messages_mono _ _ (pm_loop_in_run lower w name _ _ _
                                Hjf Hplex Hsearch Hsel Hitems Hne)).
    by apply (Hmsgs item).
  - intros. by eapply cli_run_messages.
  - intros n its created Hcreated. split; [|split].
    + intros dry_run Hin.
      destruct (mp_run_cases lower w name dry_run)
        as [[Hnone _]|(? & pl' & ? & plex_items & ? & _ & _ & _ & _ & _ & _ & Hrun)].
      { rewrite Hnone in Hin. by apply elem_of_nil in Hin. }
      destruct dry_run; destruct Hrun as [Hcreate Hout]; [done|].
      rewrite Hcreate in Hin. apply list_elem_of_singleton in Hin as [= -> ->].
      by rewrite Hout, Hcreated.
    + intros Hin.
      destruct (pm_run_cases lower w name)
        as [[Hnone _]|(? & pl' & ? & plex_items & ? & _ & _ & _ & _ & _ & _
                       & Hcreate & Hout)].
      { rewrite Hnone in Hin. by apply elem_of_nil in Hin. }
      rewrite Hcreate in Hin. apply list_elem_of_singleton in Hin as [= -> ->].
      by rewrite Hout, Hcreated.
    + intros Hin.
      destruct (cli_run_cases w name)
        as [[Hnone _]|(? & ? & ? & plex_items & _ & _ & _ & _ & _
                       & Hcreate & Hout & _)].
      { rewrite Hnone in Hin. by apply elem_of_nil in Hin. }
      rewrite Hcreate in Hin. apply list_elem_of_singleton in Hin as [= -> ->].
      by rewrite Hout, Hcreated.
Qed.

Lemma C8_witness :
  "No matching Plex item found for path: /media/x.mp3"
    ∈ messages (trace (MigratePlaylist.migrate_playlist
                         str_lower scenario_b "Road Trip" true))
  /\ "No file path found for item: c"
       ∈ messages (trace (PlaylistMigrator.migrate_playlist
                            str_lower scenario_a "Road Trip"))
  /\ messages (trace (Cli.migrate_playlist scenario_b "Road Trip"))
     = ["Warning: could not find '/media/x.mp3' in Plex"]
  /\ outcome (MigratePlaylist.migrate_playlist str_lower scenario_a "Road Trip" false)
     = inr true.
Proof.
  split; [|split; [|split]].
  - destruct (C8_report_of_a_run str_lower scenario_b "Road Trip"
                [road_trip] road_trip [jf_item "x" (Some "/media/x.mp3")])
      as (Hmp & _).
    destruct (Hmp true ([], ["x (/media/x.mp3)"]) eq_refl eq_refl eq_refl eq_refl
                (jf_item "x" (Some "/media/x.mp3"))) as (m & Hm & Hin).
    + by left.
    + reflexivity.
    + injection Hm as <-. exact Hin.
  - destruct (C8_report_of_a_run str_lower scenario_a "Road Trip"
                [road_trip] road_trip
                [jf_item "a" (Some "/media/a.mp3"); jf_item "b" (Some "/media/b.mp3");
                 jf_item "c" None])
      as (_ & Hpm & _).
    destruct (Hpm ([track "/media/a.mp3"; track "/media/b.mp3"], ["c"])
                eq_refl eq_refl eq_refl eq_refl eq_refl eq_refl
                (jf_item "c" None)) as (m & Hm & Hin).
    + right. right. by left.
    + reflexivity.
    + injection Hm as <-. exact Hin.
  - destruct (C8_report_of_a_run str_lower scenario_b "Road Trip"
                [road_trip] road_trip [jf_item "x" (Some "/media/x.mp3")])
      as (_ & _ & Hcli & _).
    apply (Hcli "user-1" "plex-user" "plex-server" []); reflexivity.
  - destruct (C8_report_of_a_run str_lower scenario_a "Road Trip"
                [road_trip] road_trip [])
      as (_ & _ & _ & Hok).
    destruct (Hok "Road Trip" [track "/media/a.mp3"; track "/media/b.mp3"]
                "Road Trip" eq_refl) as (Hmp & _).
    apply (Hmp false). vm_compute. constructor.
Defined.

(** C8 as stated fails on scenario A, where item "c" has no file path and
    stays unmatched.  [cli.py] creates the playlist and its whole report is
    the line "Created playlist ...": "c" is not mentioned, and the run
    returns normally.  [migrate_playlist.py] does report "c", and returns
    [True], the very value of a complete migration. *)
Lemma C8_counterexample :
  cli_resolve scenario_a (jf_item "c" None) = None
  /\ creations (trace (Cli.migrate_playlist scenario_a "Road Trip"))
     = [("Road Trip", [track "/media/a.mp3"; track "/media/b.mp3"])]
  /\ messages (trace (Cli.migrate_playlist scenario_a "Road Trip"))
     = ["Created playlist 'Road Trip' in Plex with 2 items"]
  /\ outcome (Cli.migrate_playlist scenario_a "Road Trip") = inr tt
  /\ mp_resolve scenario_a (jf_item "c" None) = None
  /\ outcome (MigratePlaylist.migrate_playlist str_lower scenario_a "Road Trip" false)
     = inr true.
Proof. repeat split. Qed.

(** * Further properties of the code *)

(** ** The buckets of the item loop *)

Lemma omap_split_length {A B C} (f : A -> option B) (g : A -> option C) (l : list A) :
  (forall x, match f x with Some _ => g x = None | None => is_Some (g x) end) ->
  length (omap f l) + length (omap g l) = length l.
Proof.
  intros Hfg. induction l as [|x l IH]; [done|].
  change (omap f (x :: l))
    with (match f x with Some y => y :: omap f l | None => omap f l end).
  change (omap g (x :: l))
    with (match g x with Some y => y :: omap g l | None => omap g l end).
  specialize (Hfg x). destruct (f x), (g x); simpl length; try lia.
  - discriminate Hfg.
  - by destruct Hfg.
Qed.

Lemma omap_length_le {A B} (f : A -> option B) (l : list A) :
  length (omap f l) <= length l.
Proof.
  induction l as [|x l IH]; [done|].
  change (omap f (x :: l))
    with (match f x with Some y => y :: omap f l | None => omap f l end).
  destruct (f x); simpl length; lia.
Qed.

(** X1. When the item loop completes, every source item went to exactly
    one bucket: in [migrate_playlist.py] and [playlist_migrator.py] the
    matched and the missing items add up to the items of the playlist; in
    [cli.py], which keeps no list of the missing ones, the matched items
    are at most as many as the items. *)
Theorem X1_every_item_in_one_bucket (w : World) (items : list JfItem) :
  (forall plex_items missing_items,
     outcome (MigratePlaylist.for_items w items ([], [])) = inr (plex_items, missing_items) ->
     length plex_items + length missing_items = length items)
  /\ (forall plex_items not_found_items,
        outcome (PlaylistMigrator.for_items w items ([], []))
        = inr (plex_items, not_found_items) ->
        length plex_items + length not_found_items = length items)
  /\ (forall plex_items,
        outcome (Cli.for_items w items []) = inr plex_items ->
        length plex_items <= length items).
Proof.
  split; [|split].
  - intros plex_items missing_items [[= -> ->] _]%mp_for_items_spec.
    apply omap_split_length. intros item.
    unfold mp_resolve, mp_missing_entry.
    destruct (truthy (media_source_path item)); [|by eexists].
    destruct (lookup_result _); [done|by eexists].
  - intros plex_items not_found_items [[= -> ->] _]%pm_for_items_spec.
    apply omap_split_length. intros item.
    unfold pm_missing_entry. destruct (pm_resolve w item); [done|by eexists].
  - intros plex_items [-> _]%cli_for_items_spec. apply omap_length_le.
Qed.

Lemma X1_witness :
  length [track "/media/a.mp3"; track "/media/b.mp3"] + length ["c"] = 3.
Proof.
  destruct (X1_every_item_in_one_bucket scenario_a
              [jf_item "a" (Some "/media/a.mp3"); jf_item "b" (Some "/media/b.mp3");
               jf_item "c" None]) as (Hmp & _).
  apply (Hmp [track "/media/a.mp3"; track "/media/b.mp3"] ["c"]). reflexivity.
Defined.

(** ** When a library is queried *)

Lemma mp_find_starts (w : World) (path : string) :
  exists t, trace (MigratePlaylist.find_media_by_path w path) = PlexSections :: t.
Proof.
  unfold MigratePlaylist.find_media_by_path. rewrite trace_bind.
  destruct (plex_sections w); simpl; by eexists.
Qed.

Lemma pm_find_starts (w : World) (path : string) :
  exists t, trace (PlaylistMigrator.find_media_by_path w path) = PlexSections :: t.
Proof.
  destruct (plex_sections w) as [e|sections] eqn:Hsec.
  - unfold PlaylistMigrator.find_media_by_path. rewrite Hsec. run_unfold.
    destruct (is_Exception e); simpl; by eexists.
  - rewrite (pm_find_media _ _ _ Hsec). by eexists.
Qed.

Lemma cli_find_starts (w : World) (path : string) :
  exists t, trace (Cli.find_plex_item w path) = PlexSections :: t.
Proof.
  unfold Cli.find_plex_item. rewrite trace_bind.
  destruct (plex_sections w); simpl; by eexists.
Qed.

(** X2. An item triggers a query of the Plex libraries exactly when its
    path is present and not empty: the empty string is handled like a
    missing path ([if not file_path]), and for any other path the libraries
    are listed at once. *)
Theorem X2_queries_iff_nonempty_path (w : World) (item : JfItem) :
  (forall acc,
     library_queries (trace (MigratePlaylist.loop_body w acc item)) = []
     <-> media_source_path item = None \/ media_source_path item = Some EmptyString)
  /\ (forall acc,
        library_queries (trace (PlaylistMigrator.loop_body w acc item)) = []
        <-> media_source_path item = None \/ media_source_path item = Some EmptyString)
  /\ (forall plex_items,
        library_queries (trace (Cli.loop_body w plex_items item)) = []
        <-> it_Path item = None \/ it_Path item = Some EmptyString).
Proof.
  assert (Htruthy : forall p, truthy p = None <-> p = None \/ p = Some EmptyString).
  { intros [[|c s]|]; simpl; split; intros H; try done; auto.
    destruct H as [H|H]; discriminate H. }
  split; [|split].
  - intros [plex_items missing_items]. rewrite <- Htruthy.
    unfold MigratePlaylist.loop_body.
    destruct (truthy (media_source_path item)) as [path|]; [|done].
    split; [|done]. rewrite trace_bind. simpl. rewrite trace_bind.
    destruct (mp_find_starts w path) as [t ->]. done.
  - intros [plex_items not_found_items]. rewrite <- Htruthy.
    unfold PlaylistMigrator.loop_body.
    destruct (truthy (media_source_path item)) as [path|]; [|done].
    split; [|done]. rewrite trace_bind.
    destruct (pm_find_starts w path) as [t ->]. done.
  - intros plex_items. rewrite <- Htruthy.
    unfold Cli.loop_body.
    destruct (truthy (it_Path item)) as [path|]; [|done].
    split; [|done]. rewrite trace_bind.
    destruct (cli_find_starts w path) as [t ->]. done.
Qed.

(** ** Several playlists of the same name *)

Lemma find_app_first {A} (f : A -> bool) (before after : list A) (x : A) :
  Forall (fun y => f y = false) before -> f x = true ->
  List.find f (before ++ x :: after) = Some x.
Proof.
  induction 1 as [|y before Hy _ IH]; simpl; intros Hx.
  - by rewrite Hx.
  - rewrite Hy. by apply IH.
Qed.

(** X3. When several playlists qualify, the first one in the order of the
    server's answer is migrated: every playlist before it fails the name
    test, whatever comes after it. *)
Theorem X3_first_qualifying_playlist_wins
  (lower : string -> string) (w : World) (name : string)
  (before after : list JfPlaylist) (pl : JfPlaylist) :
  (Forall (fun p => lower (pl_Name p) <> lower name) before ->
   lower (pl_Name pl) = lower name ->
   PlaylistMigrator.select_playlist lower (before ++ pl :: after) name
   = ([Stdout ("Found playlist: " +:+ pl_Name pl)], inr pl)
   /\ (jf_playlists w = inr (before ++ pl :: after) ->
       outcome (MigratePlaylist.find_playlist_by_name lower w name) = inr (Some pl)))
  /\ (Forall (fun p => pl_Name p <> name) before ->
      pl_Name pl = name ->
      Cli.select_playlist (before ++ pl :: after) name = Some pl).
Proof.
  split.
  - intros Hbefore Hpl.
    assert (Hfind : List.find (fun p => String.eqb (lower (pl_Name p)) (lower name))
                              (before ++ pl :: after) = Some pl).
    { apply find_app_first; [|by apply String.eqb_eq].
      eapply Forall_impl; [exact Hbefore|]. intros p Hne. by apply String.eqb_neq. }
    split.
    + unfold PlaylistMigrator.select_playlist. by rewrite Hfind.
    + intros Hpls.
      unfold MigratePlaylist.find_playlist_by_name, MigratePlaylist.get_playlists.
      rewrite Hpls, call_inr. run_unfold. by rewrite Hfind.
  - intros Hbefore Hpl. apply find_app_first; [|by apply String.eqb_eq].
    eapply Forall_impl; [exact Hbefore|]. intros p Hne. by apply String.eqb_neq.
Qed.

Lemma X3_witness :
  PlaylistMigrator.select_playlist str_lower
    [road_trip_mix; road_trip; {| pl_Name := "ROAD TRIP"; pl_Id := "9" |}] "road trip"
  = ([Stdout "Found playlist: Road Trip"], inr road_trip)
  /\ Cli.select_playlist
       [road_trip_mix; road_trip; {| pl_Name := "Road Trip"; pl_Id := "9" |}] "Road Trip"
     = Some road_trip.
Proof.
  destruct (X3_first_qualifying_playlist_wins str_lower scenario_a "road trip"
              [road_trip_mix] [{| pl_Name := "ROAD TRIP"; pl_Id := "9" |}] road_trip)
    as [Hci _].
  destruct (X3_first_qualifying_playlist_wins str_lower scenario_a "Road Trip"
              [road_trip_mix] [{| pl_Name := "Road Trip"; pl_Id := "9" |}] road_trip)
    as [_ Hexact].
  split.
  - apply Hci; [|reflexivity].
    constructor; [|constructor]. vm_compute. discriminate.
  - apply Hexact; [|reflexivity].
    constructor; [|constructor]. vm_compute. discriminate.
Defined.

Lemma X2_witness :
  library_queries
    (trace (MigratePlaylist.loop_body scenario_a ([], []) (jf_item "e" (Some EmptyString))))
  = []
  /\ library_queries
       (trace (Cli.loop_body scenario_a [] (jf_item "e" (Some EmptyString)))) = [].
Proof.
  destruct (X2_queries_iff_nonempty_path scenario_a (jf_item "e" (Some EmptyString)))
    as (Hmp & _ & Hcli).
  split.
  - apply (Hmp ([], [])). right. reflexivity.
  - apply (Hcli []). right. reflexivity.
Defined.

(** ** The first hit wins *)

Lemma mp_find_app_nothing (before rest : list PlexSection) (path : string) :
  Forall (mp_nothing path) before ->
  MigratePlaylist.find_in_sections (before ++ rest) path
  = (trace (MigratePlaylist.find_in_sections before path)
       ++ trace (MigratePlaylist.find_in_sections rest path),
     outcome (MigratePlaylist.find_in_sections rest path)).
Proof.
  induction 1 as [|s before Hs _ IH].
  - simpl. by destruct (MigratePlaylist.find_in_sections rest path).
  - rewrite <- app_comm_cons, !mp_find_step.
    destruct Hs as [(e & He & Hexc)|(items & Hitems & Hfind)].
    + by rewrite He, Hexc, IH.
    + by rewrite Hitems, Hfind, IH.
Qed.

Lemma has_file_not_indexed (path : string) (p : PlexItem) :
  MigratePlaylist.has_file path p = false <-> ~ indexed_under p path.
Proof.
  rewrite <- has_file_indexed. by destruct (MigratePlaylist.has_file path p).
Qed.

(** X4. In [migrate_playlist.py] the match is the first entry, in the
    order of the libraries and then of the entries of a library, that is
    indexed under the path: libraries that fail or have no such entry are
    passed over, and once the entry is found no later library is read. *)
Theorem X4_first_indexed_entry_wins
  (before after : list PlexSection) (s : PlexSection)
  (pre post : list PlexItem) (p : PlexItem) (path : string) :
  Forall (mp_nothing path) before ->
  sec_all s = inr (pre ++ p :: post) ->
  Forall (fun q => ~ indexed_under q path) pre ->
  indexed_under p path ->
  MigratePlaylist.find_in_sections (before ++ s :: after) path
  = (trace (MigratePlaylist.find_in_sections before path)
       ++ [PlexSectionAll (sec_title s)],
     inr (Some p)).
Proof.
  intros Hbefore Hs Hpre Hp.
  rewrite (mp_find_app_nothing _ _ _ Hbefore), mp_find_step, Hs.
  rewrite find_app_first; [done| |by apply has_file_indexed].
  eapply Forall_impl; [exact Hpre|]. intros q Hq. by apply has_file_not_indexed.
Qed.

Lemma X4_witness :
  MigratePlaylist.find_in_sections
    [broken_section "Films";
     section_of "Music" [track "/media/b.mp3"; track "/media/a.mp3"];
     section_of "More" [track "/media/a.mp3"]]
    "/media/a.mp3"
  = ([PlexSectionAll "Films";
      Logging WARNING "Error searching section Films: timeout";
      PlexSectionAll "Music"],
     inr (Some (track "/media/a.mp3"))).
Proof.
  apply (X4_first_indexed_entry_wins
           [broken_section "Films"] [section_of "More" [track "/media/a.mp3"]]
           (section_of "Music" [track "/media/b.mp3"; track "/media/a.mp3"])
           [track "/media/b.mp3"] [] (track "/media/a.mp3") "/media/a.mp3").
  - constructor; [|constructor]. left. exists (Exception "timeout"). by split.
  - reflexivity.
  - constructor; [|constructor]. apply has_file_not_indexed. reflexivity.
  - apply has_file_indexed. reflexivity.
Defined.

(** X5. In [playlist_migrator.py] and [cli.py] the match is the first
    result of the first library whose search answers with a non-empty list:
    the libraries before it, which raised or had no hit, are each searched
    once, and the libraries after it are not searched at all. *)
Theorem X5_first_answering_library_wins
  (before after : list PlexSection) (s : PlexSection)
  (first : PlexItem) (more : list PlexItem) (path : string) :
  (Forall (fun s' => (exists e, sec_search_filepath s' path = inl e)
                     \/ no_hit (sec_search_filepath s' path)) before ->
   sec_search_filepath s path = inr (first :: more) ->
   PlaylistMigrator.find_in_sections (before ++ s :: after) path
   = (map (fun s' => PlexSearch (sec_title s') path) before
        ++ [PlexSearch (sec_title s) path],
      inr (Some first)))
  /\ (Forall (fun s' => raises (sec_search_filename s' path)
                        \/ no_hit (sec_search_filename s' path)) before ->
      sec_search_filename s path = inr (first :: more) ->
      Cli.find_in_sections (before ++ s :: after) path
      = (map (fun s' => PlexSearch (sec_title s') path) before
           ++ [PlexSearch (sec_title s) path],
         inr (Some first))).
Proof.
  split; intros Hbefore Hs.
  - by rewrite (pm_find_app_nothing _ _ _ Hbefore), pm_find_step, Hs.
  - by rewrite (cli_find_app_nothing _ _ _ Hbefore), cli_find_step, Hs.
Qed.

Lemma X5_witness :
  let music := section_of "Music" [track "/media/a.mp3"] in
  let more := section_of "More" [track "/media/a.mp3"] in
  PlaylistMigrator.find_in_sections [broken_section "Films"; music; more] "/media/a.mp3"
  = ([PlexSearch "Films" "/media/a.mp3"; PlexSearch "Music" "/media/a.mp3"],
     inr (Some (track "/media/a.mp3")))
  /\ Cli.find_in_sections [broken_section "Films"; music; more] "/media/a.mp3"
     = ([PlexSearch "Films" "/media/a.mp3"; PlexSearch "Music" "/media/a.mp3"],
        inr (Some (track "/media/a.mp3"))).
Proof.
  intros music more.
  destruct (X5_first_answering_library_wins
              [broken_section "Films"] [more] music (track "/media/a.mp3") []
              "/media/a.mp3") as [Hpm Hcli].
  split.
  - apply Hpm; [|reflexivity].
    constructor; [|constructor]. left. by exists (Exception "timeout").
  - apply Hcli; [|reflexivity].
    constructor; [|constructor]. left. exists (Exception "timeout"). by split.
Defined.

(** ** What the lookup of migrate_playlist.py finds *)

Lemma mp_find_complete (sections : list PlexSection) (path : string) :
  Forall readable_or_skipped sections ->
  (exists s items p, s ∈ sections /\ sec_all s = inr items /\ p ∈ items
                     /\ indexed_under p path) ->
  exists q, outcome (MigratePlaylist.find_in_sections sections path) = inr (Some q).
Proof.
  induction 1 as [|s0 rest Hs0 _ IH]; intros (s & items & p & Hs & Hitems & Hp & Hidx).
  { by apply elem_of_nil in Hs. }
  rewrite mp_find_step. unfold readable_or_skipped in Hs0.
  destruct (sec_all s0) as [e|items0] eqn:Hall.
  - rewrite Hs0. simpl. apply IH.
    apply elem_of_cons in Hs as [->|Hs]; [congruence|]. by exists s, items, p.
  - destruct (List.find _ items0) as [q|] eqn:Hfind; [by exists q|]. simpl.
    apply IH. apply elem_of_cons in Hs as [->|Hs]; [|by exists s, items, p].
    exfalso. rewrite Hall in Hitems. injection Hitems as <-.
    apply list_elem_of_In in Hp.
    pose proof (find_none _ _ Hfind p Hp) as Hno.
    by apply has_file_not_indexed in Hno.
Qed.

(** X6. In [migrate_playlist.py], when the libraries can be listed and
    every library either answers or raises an [Exception], the lookup
    returns an entry exactly when some library that answers holds an entry
    indexed under the path: a file that Plex indexes in a readable library
    is never reported missing. *)
Theorem X6_lookup_finds_what_is_indexed
  (w : World) (sections : list PlexSection) (path : string) :
  plex_sections w = inr sections ->
  Forall readable_or_skipped sections ->
  ((exists q, outcome (MigratePlaylist.find_media_by_path w path) = inr (Some q))
   <-> exists s items p, s ∈ sections /\ sec_all s = inr items /\ p ∈ items
                         /\ indexed_under p path).
Proof.
  intros Hsec Hread. rewrite (mp_find_media _ _ _ Hsec). simpl. split.
  - intros [q Hq]. apply mp_find_sound in Hq as (Hfile & s & items & Hs & Hitems & Hin).
    exists s, items, q. repeat (split; [done|]). by apply has_file_indexed.
  - by apply mp_find_complete.
Qed.

Lemma X6_witness :
  exists q, outcome (MigratePlaylist.find_media_by_path scenario_c "/media/a.mp3")
            = inr (Some q).
Proof.
  apply (X6_lookup_finds_what_is_indexed scenario_c
           [broken_section "Films"; section_of "Music" [track "/media/a.mp3"]]
           "/media/a.mp3" eq_refl).
  - constructor; [reflexivity|]. constructor; [exact I|constructor].
  - exists (section_of "Music" [track "/media/a.mp3"]), [track "/media/a.mp3"],
      (track "/media/a.mp3").
    split; [right; left|]. split; [reflexivity|]. split; [left|].
    apply has_file_indexed. reflexivity.
Defined.

(** ** Listing the libraries fails *)

(** X7. [find_media_by_path] of [playlist_migrator.py] lets no
    [Exception] out: when listing the libraries raises one, it prints
    "Error searching for media by path ..." and answers that nothing was
    found; the only exception that can leave it is one that is not an
    [Exception], raised by the listing itself. *)
Theorem X7_lookup_contains_exceptions (w : World) (path : string) :
  (forall e, plex_sections w = inl e -> is_Exception e = true ->
     PlaylistMigrator.find_media_by_path w path
     = ([PlexSections;
         Stdout ("Error searching for media by path " +:+ path +:+ ": " +:+ str_exn e)],
        inr None))
  /\ (forall e, outcome (PlaylistMigrator.find_media_by_path w path) = inl e ->
        plex_sections w = inl e /\ is_Exception e = false).
Proof.
  split.
  - intros e Hsec Hexc. unfold PlaylistMigrator.find_media_by_path.
    rewrite Hsec. run_unfold. by rewrite Hexc.
  - intros e. destruct (plex_sections w) as [e'|sections] eqn:Hsec.
    + unfold PlaylistMigrator.find_media_by_path. rewrite Hsec. run_unfold.
      destruct (is_Exception e') eqn:Hexc; simpl; [done|]. by intros [= <-].
    + rewrite (pm_find_media _ _ _ Hsec). simpl.
      destruct (pm_find_total sections path) as [found ->]. done.
Qed.

Lemma X7_witness :
  PlaylistMigrator.find_media_by_path
    {| jf_authenticate := inr "demo"; jf_users_me := inr "user-1";
       jf_playlists := inr []; jf_search := fun _ => inr [];
       jf_playlist_items := fun _ => inr [];
       myplex_account := inr "plex-user"; plex_server := inr "plex-server";
       plex_sections := inl (Exception "timeout");
       plex_create := fun name _ => inr name |}
    "/media/a.mp3"
  = ([PlexSections; Stdout "Error searching for media by path /media/a.mp3: timeout"],
     inr None).
Proof.
  match goal with
  | |- PlaylistMigrator.find_media_by_path ?w ?p = _ =>
      destruct (X7_lookup_contains_exceptions w p) as [Hcaught _]
  end.
  apply (Hcaught (Exception "timeout")); reflexivity.
Defined.

Lemma mp_loop_body_no_path (w : World) (acc : list PlexItem * list string)
  (item : JfItem) :
  truthy (media_source_path item) = None ->
  outcome (MigratePlaylist.loop_body w acc item) = inr (acc.1, acc.2 ++ [item_name item]).
Proof.
  intros Hpath. destruct acc as [plex_items missing_items].
  unfold MigratePlaylist.loop_body. by rewrite Hpath.
Qed.

Lemma mp_for_items_skip (w : World) (before rest : list JfItem)
  (acc : list PlexItem * list string) :
  Forall (fun item => truthy (media_source_path item) = None) before ->
  outcome (MigratePlaylist.for_items w (before ++ rest) acc)
  = outcome (MigratePlaylist.for_items w rest (acc.1, acc.2 ++ map item_name before)).
Proof.
  intros Hbefore. revert acc.
  induction Hbefore as [|item before Hitem _ IH]; intros acc.
  - simpl. rewrite app_nil_r. by destruct acc.
  - rewrite <- app_comm_cons.
    change (MigratePlaylist.for_items w (item :: before ++ rest) acc)
      with (bind (MigratePlaylist.loop_body w acc item)
                 (fun acc' => MigratePlaylist.for_items w (before ++ rest) acc')).
    pose proof (mp_loop_body_no_path w acc item Hitem) as Hbody.
    destruct (MigratePlaylist.loop_body w acc item) as [t r].
    simpl in Hbody; subst r. unfold bind.
    specialize (IH (acc.1, acc.2 ++ [item_name item])). simpl in IH.
    rewrite <- app_assoc in IH. simpl in IH.
    change (map item_name (item :: before))
      with (item_name item :: map item_name before).
    rewrite <- IH.
    by destruct (MigratePlaylist.for_items w (before ++ rest) _).
Qed.

Lemma cli_for_items_skip (w : World) (before rest : list JfItem) (acc : list PlexItem) :
  Forall (fun item => truthy (it_Path item) = None) before ->
  Cli.for_items w (before ++ rest) acc = Cli.for_items w rest acc.
Proof.
  induction 1 as [|item before Hitem _ IH]; [done|].
  rewrite <- app_comm_cons.
  change (Cli.for_items w (item :: before ++ rest) acc)
    with (bind (Cli.loop_body w acc item)
               (fun acc' => Cli.for_items w (before ++ rest) acc')).
  unfold Cli.loop_body. rewrite Hitem. unfold bind, ret. rewrite IH.
  by destruct (Cli.for_items w rest acc).
Qed.

Lemma pm_find_listing_fails (w : World) (e : Exn) (path : string) :
  plex_sections w = inl e -> is_Exception e = true ->
  PlaylistMigrator.find_media_by_path w path
  = ([PlexSections;
      Stdout ("Error searching for media by path " +:+ path +:+ ": " +:+ str_exn e)],
     inr None).
Proof.
  intros Hsec Hexc. unfold PlaylistMigrator.find_media_by_path.
  rewrite Hsec. run_unfold. by rewrite Hexc.
Qed.

Lemma pm_for_items_all_missing (w : World) (e : Exn) (items : list JfItem)
  (acc : list PlexItem * list string) :
  plex_sections w = inl e -> is_Exception e = true ->
  outcome (PlaylistMigrator.for_items w items acc)
  = inr (acc.1, acc.2 ++ map item_name items).
Proof.
  intros Hsec Hexc. revert acc.
  induction items as [|item items IH]; intros acc.
  - simpl. rewrite app_nil_r. by destruct acc.
  - change (PlaylistMigrator.for_items w (item :: items) acc)
      with (bind (PlaylistMigrator.loop_body w acc item)
                 (fun acc' => PlaylistMigrator.for_items w items acc')).
    assert (Hbody : outcome (PlaylistMigrator.loop_body w acc item)
                    = inr (acc.1, acc.2 ++ [item_name item])).
    { destruct acc as [plex_items not_found_items].
      unfold PlaylistMigrator.loop_body.
      destruct (truthy (media_source_path item)) as [path|]; [|done].
      by rewrite (pm_find_listing_fails w e path Hsec Hexc). }
    destruct (PlaylistMigrator.loop_body w acc item) as [t r].
    simpl in Hbody; subst r. unfold bind.
    specialize (IH (acc.1, acc.2 ++ [item_name item])). simpl in IH.
    rewrite <- app_assoc in IH. simpl in IH.
    change (map item_name (item :: items))
      with (item_name item :: map item_name items).
    rewrite <- IH.
    by destruct (PlaylistMigrator.for_items w items _).
Qed.

(** X8. When listing the Plex libraries raises, [migrate_playlist.py] and
    [cli.py] let the exception out of the item loop at the first item that
    has a path (the items without a path before it were passed over),
    whereas [playlist_migrator.py] catches it, finishes the loop and files
    every item as not found. *)
Theorem X8_listing_the_libraries_fails
  (w : World) (e : Exn) (before after : list JfItem) (item : JfItem) (path : string) :
  plex_sections w = inl e ->
  (Forall (fun it => truthy (media_source_path it) = None) before ->
   truthy (media_source_path item) = Some path ->
   forall acc, outcome (MigratePlaylist.for_items w (before ++ item :: after) acc) = inl e)
  /\ (Forall (fun it => truthy (it_Path it) = None) before ->
      truthy (it_Path item) = Some path ->
      forall acc, outcome (Cli.for_items w (before ++ item :: after) acc) = inl e)
  /\ (is_Exception e = true ->
      forall items acc,
        outcome (PlaylistMigrator.for_items w items acc)
        = inr (acc.1, acc.2 ++ map item_name items)).
Proof.
  intros Hsec. split; [|split].
  - intros Hbefore Hpath acc. rewrite (mp_for_items_skip _ _ _ _ Hbefore).
    change (MigratePlaylist.for_items w (item :: after) ?a)
      with (bind (MigratePlaylist.loop_body w a item)
                 (fun acc' => MigratePlaylist.for_items w after acc')).
    unfold MigratePlaylist.loop_body, MigratePlaylist.find_media_by_path.
    rewrite Hpath, Hsec. reflexivity.
  - intros Hbefore Hpath acc. rewrite (cli_for_items_skip _ _ _ _ Hbefore).
    change (Cli.for_items w (item :: after) acc)
      with (bind (Cli.loop_body w acc item)
                 (fun acc' => Cli.for_items w after acc')).
    unfold Cli.loop_body, Cli.find_plex_item.
    rewrite Hpath, Hsec. reflexivity.
  - intros Hexc items acc. by apply (pm_for_items_all_missing w e).
Qed.

Lemma X8_witness :
  let w := {| jf_authenticate := inr "demo"; jf_users_me := inr "user-1";
              jf_playlists := inr [road_trip]; jf_search := fun _ => inr [road_trip];
              jf_playlist_items := fun _ => inr [];
              myplex_account := inr "plex-user"; plex_server := inr "plex-server";
              plex_sections := inl (Exception "timeout");
              plex_create := fun name _ => inr name |} in
  let items := [jf_item "c" None; jf_item "a" (Some "/media/a.mp3")] in
  outcome (MigratePlaylist.for_items w items ([], [])) = inl (Exception "timeout")
  /\ outcome (Cli.for_items w items []) = inl (Exception "timeout")
  /\ outcome (PlaylistMigrator.for_items w items ([], [])) = inr ([], ["c"; "a"]).
Proof.
  intros w items.
  destruct (X8_listing_the_libraries_fails w (Exception "timeout")
              [jf_item "c" None] [] (jf_item "a" (Some "/media/a.mp3")) "/media/a.mp3"
              eq_refl) as (Hmp & Hcli & Hpm).
  split; [|split].
  - apply (Hmp ltac:(by repeat constructor) eq_refl ([], [])).
  - apply (Hcli ltac:(by repeat constructor) eq_refl []).
  - apply (Hpm eq_refl items ([], [])).
Defined.

(** ** The creation call *)

(** X9. Whatever the servers answer, a run issues at most one
    playlist-creation call: a failed creation is never tried again. *)
Theorem X9_at_most_one_creation (lower : string -> string) (w : World) (name : string) :
  (forall dry_run,
     length (creations (trace (MigratePlaylist.migrate_playlist lower w name dry_run))) <= 1)
  /\ length (creations (trace (PlaylistMigrator.migrate_playlist lower w name))) <= 1
  /\ length (creations (trace (Cli.migrate_playlist w name))) <= 1.
Proof.
  split; [|split].
  - intros dry_run.
    destruct (mp_run_cases lower w name dry_run)
      as [[-> _]|(? & ? & ? & ? & ? & _ & _ & _ & _ & _ & _ & Hrun)]; [simpl; lia|].
    destruct dry_run; destruct Hrun as [-> _]; simpl; lia.
  - destruct (pm_run_cases lower w name)
      as [[-> _]|(? & ? & ? & ? & ? & _ & _ & _ & _ & _ & _ & -> & _)]; simpl; lia.
  - destruct (cli_run_cases w name)
      as [[-> _]|(? & ? & ? & ? & _ & _ & _ & _ & _ & -> & _)]; simpl; lia.
Qed.

Lemma mp_success_iff_created (lower : string -> string) (w : World) (name : string) :
  outcome (MigratePlaylist.migrate_playlist lower w name false) = inr true
  <-> exists n its created,
        creations (trace (MigratePlaylist.migrate_playlist lower w name false))
        = [(n, its)]
        /\ plex_create w n its = inr created.
Proof.
  destruct (mp_run_cases lower w name false)
    as [[Hnone Hfail]|(? & pl & ? & plex_items & ? & _ & _ & _ & _ & _ & _
                       & Hcreate & Hout)].
  { split; [done|]. intros (n & its & created & Hc & _). by rewrite Hnone in Hc. }
  rewrite Hcreate, Hout. split.
  - destruct (plex_create w (pl_Name pl) plex_items) as [e|created] eqn:Hpc.
    + by destruct (is_Exception e).
    + intros _. by exists (pl_Name pl), plex_items, created.
  - intros (n & its & created & [= <- <-] & ->). done.
Qed.

Lemma pm_success_iff_created (lower : string -> string) (w : World) (name : string) :
  outcome (PlaylistMigrator.migrate_playlist lower w name) = inr true
  <-> exists n its created,
        creations (trace (PlaylistMigrator.migrate_playlist lower w name))
        = [(n, its)]
        /\ plex_create w n its = inr created.
Proof.
  destruct (pm_run_cases lower w name)
    as [[Hnone Hfail]|(? & pl & ? & plex_items & ? & _ & _ & _ & _ & _ & _
                       & Hcreate & Hout)].
  { split; [done|]. intros (n & its & created & Hc & _). by rewrite Hnone in Hc. }
  rewrite Hcreate, Hout. split.
  - destruct (plex_create w _ plex_items) as [e|created] eqn:Hpc.
    + by destruct (is_Exception e).
    + intros _. by eexists _, plex_items, created.
  - intros (n & its & created & [= <- <-] & ->). done.
Qed.

Lemma cli_success_iff_created (w : World) (name : string) :
  outcome (Cli.migrate_playlist w name) = inr tt
  <-> exists n its created,
        creations (trace (Cli.migrate_playlist w name)) = [(n, its)]
        /\ plex_create w n its = inr created.
Proof.
  destruct (cli_run_cases w name)
    as [[Hnone [e Hfail]]|(? & ? & ? & plex_items & _ & _ & _ & _ & _
                           & Hcreate & Hout & _)].
  { rewrite Hfail. split; [done|].
    intros (n & its & created & Hc & _). by rewrite Hnone in Hc. }
  rewrite Hcreate, Hout. split.
  - destruct (plex_create w name plex_items) as [e|created] eqn:Hpc; [done|].
    intros _. by exists name, plex_items, created.
  - intros (n & its & created & [= <- <-] & ->). done.
Qed.

(** X10. A real run (not a dry run) succeeds exactly when it issued its
    creation call and Plex accepted it: [True], or a normal return in
    [cli.py], is never reported without a playlist having been created. *)
Theorem X10_success_iff_created (lower : string -> string) (w : World) (name : string) :
  (outcome (MigratePlaylist.migrate_playlist lower w name false) = inr true
   <-> exists n its created,
         creations (trace (MigratePlaylist.migrate_playlist lower w name false))
         = [(n, its)]
         /\ plex_create w n its = inr created)
  /\ (outcome (PlaylistMigrator.migrate_playlist lower w name) = inr true
      <-> exists n its created,
            creations (trace (PlaylistMigrator.migrate_playlist lower w name))
            = [(n, its)]
            /\ plex_create w n its = inr created)
  /\ (outcome (Cli.migrate_playlist w name) = inr tt
      <-> exists n its created,
            creations (trace (Cli.migrate_playlist w name)) = [(n, its)]
            /\ plex_create w n its = inr created).
Proof.
  split; [apply mp_success_iff_created|].
  split; [apply pm_success_iff_created|apply cli_success_iff_created].
Qed.

Lemma X10_witness :
  exists n its created,
    creations (trace (Cli.migrate_playlist scenario_a "Road Trip")) = [(n, its)]
    /\ plex_create scenario_a n its = inr created.
Proof.
  destruct (X10_success_iff_created str_lower scenario_a "Road Trip") as (_ & _ & Hcli).
  apply Hcli. reflexivity.
Defined.

(** X11. When the creation call raises, [migrate_playlist.py] and
    [playlist_migrator.py] catch an [Exception] and return [False], while
    [cli.py] lets the exception end the run. *)
Theorem X11_creation_call_raises
  (lower : string -> string) (w : World) (name n : string) (its : list PlexItem) (e : Exn) :
  plex_create w n its = inl e ->
  ((n, its) ∈ creations (trace (MigratePlaylist.migrate_playlist lower w name false)) ->
   outcome (MigratePlaylist.migrate_playlist lower w name false)
   = if is_Exception e then inr false else inl e)
  /\ ((n, its) ∈ creations (trace (PlaylistMigrator.migrate_playlist lower w name)) ->
      outcome (PlaylistMigrator.migrate_playlist lower w name)
      = if is_Exception e then inr false else inl e)
  /\ ((n, its) ∈ creations (trace (Cli.migrate_playlist w name)) ->
      outcome (Cli.migrate_playlist w name) = inl e).
Proof.
  intros Hpc. split; [|split]; intros Hin.
  - destruct (mp_run_cases lower w name false)
      as [[Hnone _]|(? & pl & ? & plex_items & ? & _ & _ & _ & _ & _ & _
                     & Hcreate & Hout)].
    { rewrite Hnone in Hin. by apply elem_of_nil in Hin. }
    rewrite Hcreate in Hin. apply list_elem_of_singleton in Hin as [= -> ->].
    by rewrite Hout, Hpc.
  - destruct (pm_run_cases lower w name)
      as [[Hnone _]|(? & pl & ? & plex_items & ? & _ & _ & _ & _ & _ & _
                     & Hcreate & Hout)].
    { rewrite Hnone in Hin. by apply elem_of_nil in Hin. }
    rewrite Hcreate in Hin. apply list_elem_of_singleton in Hin as [= -> ->].
    by rewrite Hout, Hpc.
  - destruct (cli_run_cases w name)
      as [[Hnone _]|(? & ? & ? & plex_items & _ & _ & _ & _ & _
                     & Hcreate & Hout & _)].
    { rewrite Hnone in Hin. by apply elem_of_nil in Hin. }
    rewrite Hcreate in Hin. apply list_elem_of_singleton in Hin as [= -> ->].
    by rewrite Hout, Hpc.
Qed.

Lemma X11_witness :
  outcome (MigratePlaylist.migrate_playlist str_lower creation_refused "Road Trip" false)
  = inr false
  /\ outcome (PlaylistMigrator.migrate_playlist str_lower creation_refused "Road Trip")
     = inr false
  /\ outcome (Cli.migrate_playlist creation_refused "Road Trip")
     = inl (Exception "refused").
Proof.
  split; [|split].
  - destruct (X11_creation_call_raises str_lower creation_refused "Road Trip"
                "Road Trip" [track "/media/a.mp3"; track "/media/b.mp3"]
                (Exception "refused") eq_refl) as (Hmp & _).
    apply Hmp. vm_compute. constructor.
  - destruct (X11_creation_call_raises str_lower creation_refused "Road Trip"
                "Road Trip (from Jellyfin)" [track "/media/a.mp3"; track "/media/b.mp3"]
                (Exception "refused") eq_refl) as (_ & Hpm & _).
    apply Hpm. vm_compute. constructor.
  - destruct (X11_creation_call_raises str_lower creation_refused "Road Trip"
                "Road Trip" [track "/media/a.mp3"; track "/media/b.mp3"]
                (Exception "refused") eq_refl) as (_ & _ & Hcli).
    apply Hcli. vm_compute. constructor.
Defined.

(** ** Runs that stop early *)

(** X12. An empty source playlist ends the run in failure before any Plex
    library is queried: [migrate_playlist.py] returns [False] with "No
    matching items found", [playlist_migrator.py] returns [False] with
    "Playlist is empty or could not retrieve items" (also when the request
    for the items failed), [cli.py] exits with "No matching items found in
    Plex". *)
Theorem X12_empty_source_playlist
  (lower : string -> string) (w : World) (name : string)
  (pls : list JfPlaylist) (pl : JfPlaylist) :
  (jf_playlists w = inr pls ->
   List.find (fun p => String.eqb (lower (pl_Name p)) (lower name)) pls = Some pl ->
   jf_playlist_items w (pl_Id pl) = inr [] ->
   forall dry_run,
     MigratePlaylist.migrate_playlist lower w name dry_run
     = ([Logging INFO ("Starting migration of playlist: " +:+ name);
         JfGetPlaylists;
         Logging INFO ("Found playlist: " +:+ pl_Name pl +:+ " (ID: " +:+ pl_Id pl +:+ ")");
         JfGetPlaylistItems (pl_Id pl);
         Logging INFO "Playlist contains 0 items";
         Logging ERROR "No matching items found in Plex. Cannot create playlist."],
        inr false))
  /\ (outcome (PlaylistMigrator.JellyfinClient w) = inr tt ->
      outcome (PlaylistMigrator.PlexClient w) = inr tt ->
      outcome (PlaylistMigrator.search_playlists w name) = inr pls ->
      pls <> [] ->
      outcome (PlaylistMigrator.select_playlist lower pls name) = inr pl ->
      outcome (PlaylistMigrator.get_playlist_items w (pl_Id pl)) = inr [] ->
      outcome (PlaylistMigrator.migrate_playlist lower w name) = inr false
      /\ library_queries (trace (PlaylistMigrator.migrate_playlist lower w name)) = []
      /\ last (messages (trace (PlaylistMigrator.migrate_playlist lower w name)))
         = Some "Playlist is empty or could not retrieve items")
  /\ (forall user_id account plex,
        jf_users_me w = inr user_id ->
        jf_playlists w = inr pls ->
        Cli.select_playlist pls name = Some pl ->
        jf_playlist_items w (pl_Id pl) = inr [] ->
        myplex_account w = inr account ->
        plex_server w = inr plex ->
        Cli.migrate_playlist w name
        = ([JfUsersMe; JfGetPlaylists; JfGetPlaylistItems (pl_Id pl);
            PlexAccount; PlexConnect],
           inl (SystemExit "No matching items found in Plex"))).
Proof.
  split; [|split].
  - intros Hpls Hfind Hitems dry_run.
    unfold MigratePlaylist.migrate_playlist, MigratePlaylist.find_playlist_by_name,
      MigratePlaylist.get_playlists, MigratePlaylist.get_playlist_items.
    rewrite Hpls. run_unfold. rewrite Hfind. simpl. rewrite Hitems. reflexivity.
  - intros Hjf Hplex Hsearch Hne Hsel Hitems.
    destruct (pm_select_total lower pls name Hne) as (pl' & msg & Hsel').
    rewrite Hsel' in Hsel. injection Hsel as ->.
    unfold PlaylistMigrator.migrate_playlist, PlaylistMigrator.JellyfinClient,
      PlaylistMigrator.PlexClient, PlaylistMigrator.search_playlists,
      PlaylistMigrator.get_playlist_items in *.
    revert Hjf Hplex Hsearch Hitems. run_unfold.
    destruct (jf_authenticate w) as [e|user]; simpl;
      [destruct (is_RequestException e); simpl; intros [=]|intros _].
    destruct (myplex_account w) as [e|account]; simpl;
      [destruct (is_Exception e); simpl; intros [=]|].
    destruct (plex_server w) as [e|server]; simpl;
      [destruct (is_Exception e); simpl; intros [=]|intros _].
    destruct (jf_search w name) as [e|pls'] eqn:Hs; simpl;
      [destruct (is_RequestException e); simpl; intros [=]; subst; done|].
    intros [= ->]. destruct pls as [|pl0 pls]; [done|]. simpl.
    rewrite Hsel'. simpl.
    destruct (jf_playlist_items w (pl_Id pl)) as [e|items]; simpl;
      [destruct (is_RequestException e); simpl; intros [=]; done|].
    intros [= ->]. done.
  - intros user_id account plex Hme Hpls Hsel Hitems Hacc Hsrv.
    unfold Cli.migrate_playlist.
    rewrite Hme, Hpls. run_unfold. rewrite Hsel. simpl.
    rewrite Hitems, Hacc, Hsrv. reflexivity.
Qed.

Lemma X12_witness :
  outcome (MigratePlaylist.migrate_playlist str_lower empty_playlist "Road Trip" false)
  = inr false
  /\ library_queries
       (trace (PlaylistMigrator.migrate_playlist str_lower empty_playlist "Road Trip")) = []
  /\ outcome (Cli.migrate_playlist empty_playlist "Road Trip")
     = inl (SystemExit "No matching items found in Plex").
Proof.
  destruct (X12_empty_source_playlist str_lower empty_playlist "Road Trip"
              [road_trip] road_trip) as (Hmp & Hpm & Hcli).
  split; [|split].
  - rewrite (Hmp eq_refl eq_refl eq_refl false). reflexivity.
  - apply Hpm; try reflexivity. discriminate.
  - rewrite (Hcli "user-1" "plex-user" "plex-server"); reflexivity.
Defined.

(** X13. In [playlist_migrator.py] a rejected login ends the run with
    [sys.exit(1)] before anything else is asked of the servers: after a
    failed Jellyfin login Plex is not contacted, and after a failed Plex
    login no playlist is searched for. *)
Theorem X13_login_failure_stops_the_run
  (lower : string -> string) (w : World) (name : string) (e : Exn) :
  (jf_authenticate w = inl e -> is_RequestException e = true ->
   PlaylistMigrator.migrate_playlist lower w name
   = ([Stdout ("Starting migration of playlist '" +:+ name +:+ "'...");
       JfAuthenticate;
       Stdout ("Failed to authenticate with Jellyfin: " +:+ str_exn e)],
      inl (SystemExit "1")))
  /\ (forall user,
        jf_authenticate w = inr user ->
        myplex_account w = inl e -> is_Exception e = true ->
        PlaylistMigrator.migrate_playlist lower w name
        = ([Stdout ("Starting migration of playlist '" +:+ name +:+ "'...");
            JfAuthenticate;
            Stdout ("Successfully authenticated with Jellyfin as user: " +:+ user);
            PlexAccount;
            Stdout ("Failed to connect to Plex server: " +:+ str_exn e)],
           inl (SystemExit "1")))
  /\ (forall user account,
        jf_authenticate w = inr user ->
        myplex_account w = inr account ->
        plex_server w = inl e -> is_Exception e = true ->
        PlaylistMigrator.migrate_playlist lower w name
        = ([Stdout ("Starting migration of playlist '" +:+ name +:+ "'...");
            JfAuthenticate;
            Stdout ("Successfully authenticated with Jellyfin as user: " +:+ user);
            PlexAccount;
            Stdout ("Successfully authenticated with MyPlex as user: " +:+ account);
            PlexConnect;
            Stdout ("Failed to connect to Plex server: " +:+ str_exn e)],
           inl (SystemExit "1"))).
Proof.
  split; [|split].
  - intros Hjf Hexc.
    unfold PlaylistMigrator.migrate_playlist, PlaylistMigrator.JellyfinClient.
    rewrite Hjf. run_unfold. by rewrite Hexc.
  - intros user Hjf Hplex Hexc.
    unfold PlaylistMigrator.migrate_playlist, PlaylistMigrator.JellyfinClient,
      PlaylistMigrator.PlexClient.
    rewrite Hjf, Hplex. run_unfold. by rewrite Hexc.
  - intros user account Hjf Hacc Hplex Hexc.
    unfold PlaylistMigrator.migrate_playlist, PlaylistMigrator.JellyfinClient,
      PlaylistMigrator.PlexClient.
    rewrite Hjf, Hacc, Hplex. run_unfold. by rewrite Hexc.
Qed.

Lemma X13_witness :
  outcome (PlaylistMigrator.migrate_playlist str_lower jellyfin_login_fails "Road Trip")
  = inl (SystemExit "1")
  /\ remote_calls
       (trace (PlaylistMigrator.migrate_playlist str_lower plex_login_fails "Road Trip"))
     = [JfAuthenticate; PlexAccount].
Proof.
  split.
  - destruct (X13_login_failure_stops_the_run str_lower jellyfin_login_fails "Road Trip"
                (RequestException "401 Unauthorized")) as (Hjf & _).
    rewrite (Hjf eq_refl eq_refl). reflexivity.
  - destruct (X13_login_failure_stops_the_run str_lower plex_login_fails "Road Trip"
                (Exception "unauthorized")) as (_ & Hplex & _).
    rewrite (Hplex "demo" eq_refl eq_refl eq_refl). reflexivity.
Defined.

(** X14. In [playlist_migrator.py] a playlist search that fails with a
    [RequestException] is reported and then handled like an empty answer:
    the run returns [False] with "No playlist found", and neither a Plex
    library is queried nor the items of any playlist are requested. *)
Theorem X14_failed_search_is_no_playlist
  (lower : string -> string) (w : World) (name : string) (e : Exn) :
  outcome (PlaylistMigrator.JellyfinClient w) = inr tt ->
  outcome (PlaylistMigrator.PlexClient w) = inr tt ->
  jf_search w name = inl e -> is_RequestException e = true ->
  PlaylistMigrator.search_playlists w name
  = ([JfSearchPlaylists name; Stdout ("Failed to search playlists: " +:+ str_exn e)],
     inr [])
  /\ outcome (PlaylistMigrator.migrate_playlist lower w name) = inr false
  /\ remote_calls (trace (PlaylistMigrator.migrate_playlist lower w name))
     = [JfAuthenticate; PlexAccount; PlexConnect; JfSearchPlaylists name]
  /\ last (messages (trace (PlaylistMigrator.migrate_playlist lower w name)))
     = Some ("No playlist found with name '" +:+ name +:+ "'").
Proof.
  intros Hjf Hplex Hsearch Hexc.
  unfold PlaylistMigrator.migrate_playlist, PlaylistMigrator.JellyfinClient,
    PlaylistMigrator.PlexClient, PlaylistMigrator.search_playlists in *.
  revert Hjf Hplex. rewrite Hsearch. run_unfold. rewrite Hexc.
  destruct (jf_authenticate w) as [e1|user]; simpl;
    [destruct (is_RequestException e1); simpl; intros [=]|intros _].
  destruct (myplex_account w) as [e2|account]; simpl;
    [destruct (is_Exception e2); simpl; intros [=]|].
  destruct (plex_server w) as [e3|server]; simpl;
    [destruct (is_Exception e3); simpl; intros [=]|intros _].
  done.
Qed.

Lemma X14_witness :
  outcome (PlaylistMigrator.migrate_playlist str_lower search_fails "Road Trip")
  = inr false.
Proof.
  pose proof (X14_failed_search_is_no_playlist str_lower search_fails "Road Trip"
                (RequestException "connection refused")
                eq_refl eq_refl eq_refl eq_refl) as (_ & Hout & _).
  exact Hout.
Defined.

(** ** Dry run and real run *)

Lemma reads_app (t1 t2 : list Event) : reads (t1 ++ t2) = reads t1 ++ reads t2.
Proof. apply List.filter_app. Qed.

Lemma reads_map_log {A} (lvl : Level) (f : A -> string) (xs : list A) :
  reads (map (fun x => Logging lvl (f x)) xs) = [].
Proof. by induction xs. Qed.

Lemma messages_titles (l : list PlexItem) :
  messages (map (fun item => Logging INFO ("  - " +:+ title item)) l)
  = map (fun p => "  - " +:+ title p) l.
Proof. induction l as [|x l IH]; [done|]. simpl. by rewrite IH. Qed.

Ltac reads_solve :=
  repeat (progress (rewrite ?reads_app, ?reads_map_log; simpl)); try done.

Lemma mp_dry_and_real (lower : string -> string) (w : World) (name : string) :
  reads (trace (MigratePlaylist.migrate_playlist lower w name true))
  = reads (trace (MigratePlaylist.migrate_playlist lower w name false))
  /\ (outcome (MigratePlaylist.migrate_playlist lower w name true) = inr true
      <-> creations (trace (MigratePlaylist.migrate_playlist lower w name false)) <> [])
  /\ forall n its,
       creations (trace (MigratePlaylist.migrate_playlist lower w name false)) = [(n, its)] ->
       ("DRY RUN: Would create playlist with the following items:"
          :: map (fun p => "  - " +:+ title p) its)
         `suffix_of` messages (trace (MigratePlaylist.migrate_playlist lower w name true)).
Proof.
  unfold MigratePlaylist.migrate_playlist, MigratePlaylist.find_playlist_by_name,
    MigratePlaylist.get_playlists, MigratePlaylist.get_playlist_items,
    MigratePlaylist.create_playlist.
  run_unfold.
  destruct (jf_playlists w) as [e|pls]; simpl; [by repeat split|].
  destruct (List.find _ pls) as [pl|] eqn:Hfind; simpl; [|by repeat split].
  destruct (jf_playlist_items w (pl_Id pl)) as [e|items] eqn:Hitems; simpl;
    [by repeat split|].
  pose proof (mp_for_items_only no_creation w items ([], [])
                I (fun _ => I) (fun _ _ => I)) as Hquiet.
  apply creations_none in Hquiet.
  destruct (MigratePlaylist.for_items w items ([], []))
    as [t [e|[plex_items missing_items]]] eqn:Hloop; simpl in *;
    [split; [done|split; [done|intros ?? Hc; by rewrite Hquiet in Hc]]|].
  destruct missing_items as [|m ms];
    [|rewrite !(for_each_emit (fun item => Logging WARNING ("  - " +:+ item)))];
    (destruct plex_items as [|p ps]; simpl;
     [split; [done|split; [split; [done|creations_solve Hquiet]
                          |intros ?? Hc; revert Hc; creations_solve Hquiet]]|]).
  all: rewrite !(for_each_emit (fun item => Logging INFO ("  - " +:+ title item))).
  all: destruct (plex_create w (pl_Name pl) (p :: ps)) as [e|created];
    [destruct (is_Exception e)|]; simpl.
  all: split; [reads_solve|].
  all: split; [split; [intros _; creations_solve Hquiet|done]|].
  all: intros n its; creations_solve Hquiet; intros [= <- <-].
  all: repeat (progress (rewrite ?app_nil_r, ?messages_app, ?messages_titles; simpl)).
  all: solve [repeat first [reflexivity | apply suffix_cons_r | apply suffix_app_r]].
Qed.

(** X15. A dry run of [migrate_playlist.py] asks the servers exactly what
    the real run asks them, in the same order, short of the creation call;
    and it returns [True] exactly when the real run would get as far as
    issuing the creation call. *)
Theorem X15_dry_run_reads_like_the_real_run
  (lower : string -> string) (w : World) (name : string) :
  reads (trace (MigratePlaylist.migrate_playlist lower w name true))
  = reads (trace (MigratePlaylist.migrate_playlist lower w name false))
  /\ (outcome (MigratePlaylist.migrate_playlist lower w name true) = inr true
      <-> creations (trace (MigratePlaylist.migrate_playlist lower w name false)) <> []).
Proof.
  destruct (mp_dry_and_real lower w name) as (Hreads & Hout & _). by split.
Qed.

(** X16. The report of a dry run ends with the line "DRY RUN: Would create
    playlist with the following items:" followed by the titles of exactly
    the entries that the real run hands to its creation call, in the same
    order. *)
Theorem X16_dry_run_lists_the_playlist
  (lower : string -> string) (w : World) (name n : string) (its : list PlexItem) :
  creations (trace (MigratePlaylist.migrate_playlist lower w name false)) = [(n, its)] ->
  ("DRY RUN: Would create playlist with the following items:"
     :: map (fun p => "  - " +:+ title p) its)
    `suffix_of` messages (trace (MigratePlaylist.migrate_playlist lower w name true)).
Proof.
  destruct (mp_dry_and_real lower w name) as (_ & _ & Hlist). apply Hlist.
Qed.

Lemma X16_witness :
  ["DRY RUN: Would create playlist with the following items:";
   "  - /media/a.mp3"; "  - /media/b.mp3"]
    `suffix_of` messages (trace (MigratePlaylist.migrate_playlist
                                   str_lower scenario_a "Road Trip" true)).
Proof.
  apply (X16_dry_run_lists_the_playlist str_lower scenario_a "Road Trip" "Road Trip"
           [track "/media/a.mp3"; track "/media/b.mp3"]).
  reflexivity.
Defined.

(** ** create_playlist of playlist_migrator.py *)

(** X17. [PlexClient.create_playlist] of [playlist_migrator.py] refuses an
    empty list without contacting the server, lets no [Exception] out, and
    returns [True] exactly when the list is not empty and the server
    created the playlist. *)
Theorem X17_create_playlist_is_guarded (w : World) (name : string) (items : list PlexItem) :
  (items = [] ->
   PlaylistMigrator.create_playlist w name items
   = ([Stdout ("No valid items found to create playlist '" +:+ name +:+ "'")],
      inr false))
  /\ (items <> [] ->
      creations (trace (PlaylistMigrator.create_playlist w name items)) = [(name, items)])
  /\ (forall e, outcome (PlaylistMigrator.create_playlist w name items) = inl e ->
        is_Exception e = false /\ plex_create w name items = inl e)
  /\ (outcome (PlaylistMigrator.create_playlist w name items) = inr true
      <-> items <> [] /\ exists created, plex_create w name items = inr created).
Proof.
  unfold PlaylistMigrator.create_playlist.
  destruct items as [|p ps].
  - split; [done|]. split; [done|]. split; [done|].
    split; [done|]. by intros [Hne _].
  - run_unfold.
    destruct (plex_create w name (p :: ps)) as [e|created]; simpl.
    + destruct (is_Exception e) eqn:Hexc; simpl.
      * split; [done|]. split; [done|]. split; [done|].
        split; [done|]. by intros [_ [created [=]]].
      * split; [done|]. split; [done|]. split; [by intros e' [= <-]|].
        split; [done|]. by intros [_ [created [=]]].
    + split; [done|]. split; [done|]. split; [done|].
      split; [|done]. intros _. split; [done|]. by exists created.
Qed.

Lemma X17_witness :
  PlaylistMigrator.create_playlist scenario_a "Empty" []
  = ([Stdout "No valid items found to create playlist 'Empty'"], inr false)
  /\ creations (trace (PlaylistMigrator.create_playlist
                         creation_refused "Mix" [track "/media/a.mp3"]))
     = [("Mix", [track "/media/a.mp3"])].
Proof.
  split.
  - destruct (X17_create_playlist_is_guarded scenario_a "Empty" []) as (Hempty & _).
    apply Hempty. reflexivity.
  - destruct (X17_create_playlist_is_guarded creation_refused "Mix"
                [track "/media/a.mp3"]) as (_ & Hcall & _).
    apply Hcall. discriminate.
Defined.

(** ** The base URL *)

Lemma rstrip_slash_app (s t : string) :
  rstrip_slash t = EmptyString -> rstrip_slash (s +:+ t) = rstrip_slash s.
Proof. intros Ht. induction s as [|c s IH]; simpl; [done|]. by rewrite IH. Qed.

Lemma rstrip_slash_slashes (n : nat) : rstrip_slash (slashes n) = EmptyString.
Proof. induction n as [|n IH]; [done|]. simpl. by rewrite IH. Qed.

Lemma rstrip_slash_last (s : string) : last_char (rstrip_slash s) <> Some "/"%char.
Proof.
  induction s as [|c s IH]; [done|]. simpl.
  destruct (rstrip_slash s) as [|d kept] eqn:Hs.
  - destruct (Ascii.eqb c "/") eqn:Hc; [done|]. simpl.
    apply Ascii.eqb_neq in Hc. congruence.
  - exact IH.
Qed.

Lemma rstrip_slash_split (s : string) :
  exists n, s = rstrip_slash s +:+ slashes n.
Proof.
  induction s as [|c s [n Hn]]; [by exists 0|]. simpl.
  destruct (rstrip_slash s) as [|d kept] eqn:Hs.
  - destruct (Ascii.eqb c "/") eqn:Hc.
    + apply Ascii.eqb_eq in Hc as ->. exists (S n). simpl. by rewrite Hn at 1.
    + exists n. simpl. by rewrite Hn at 1.
  - exists n. simpl. by rewrite Hn at 1.
Qed.

(** X18. The Jellyfin base URL may be given with any number of trailing
    slashes: [playlist_migrator.py] and [cli.py] request the same URLs, in
    which the path is joined by a single slash to a base that does not end
    with a slash; and only trailing slashes are removed from the base. *)
Theorem X18_trailing_slashes_of_the_base_url (base_url : string) (n : nat) :
  (forall playlist_id user_id,
     PlaylistMigratorUrls.auth_url (base_url +:+ slashes n)
     = PlaylistMigratorUrls.auth_url base_url
     /\ PlaylistMigratorUrls.search_url (base_url +:+ slashes n) user_id
        = PlaylistMigratorUrls.search_url base_url user_id
     /\ PlaylistMigratorUrls.items_url (base_url +:+ slashes n) playlist_id
        = PlaylistMigratorUrls.items_url base_url playlist_id
     /\ CliUrls.get_jf_user (base_url +:+ slashes n) = CliUrls.get_jf_user base_url
     /\ CliUrls.get_jf_playlists (base_url +:+ slashes n)
        = CliUrls.get_jf_playlists base_url
     /\ CliUrls.get_jf_playlist_items (base_url +:+ slashes n) playlist_id
        = CliUrls.get_jf_playlist_items base_url playlist_id)
  /\ last_char (rstrip_slash base_url) <> Some "/"%char
  /\ exists k, base_url = rstrip_slash base_url +:+ slashes k.
Proof.
  assert (Hstrip : rstrip_slash (base_url +:+ slashes n) = rstrip_slash base_url).
  { apply rstrip_slash_app, rstrip_slash_slashes. }
  split; [|split].
  - intros playlist_id user_id.
    unfold PlaylistMigratorUrls.auth_url, PlaylistMigratorUrls.search_url,
      PlaylistMigratorUrls.items_url, CliUrls.get_jf_user, CliUrls.get_jf_playlists,
      CliUrls.get_jf_playlist_items.
    by rewrite Hstrip.
  - apply rstrip_slash_last.
  - apply rstrip_slash_split.
Qed.

(** ** The exceptions that leave a run *)

Lemma escapes_bind {A B} P (m : Run A) (k : A -> Run B) :
  escapes P m -> (forall a, outcome m = inr a -> escapes P (k a)) -> escapes P (bind m k).
Proof.
  destruct m as [t [e|a]]; unfold escapes; simpl; intros Hm Hk; [done|].
  specialize (Hk a eq_refl). by destruct (k a).
Qed.

Lemma exception_exits_with_1 (e : Exn) : is_Exception e = true -> exits_with_1 e.
Proof. by destruct e. Qed.

Lemma mp_find_in_sections_escapes (sections : list PlexSection) (path : string) :
  Forall section_raises_exceptions sections ->
  escapes (fun e => is_Exception e = true)
          (MigratePlaylist.find_in_sections sections path).
Proof.
  induction 1 as [|s rest (Hall & _ & _) _ IH]; [done|].
  unfold escapes in *. rewrite mp_find_step.
  destruct (sec_all s) as [e|items]; simpl in *.
  - by rewrite Hall.
  - by destruct (List.find _ items).
Qed.

Lemma cli_find_in_sections_escapes (sections : list PlexSection) (path : string) :
  Forall section_raises_exceptions sections ->
  escapes (fun e => is_Exception e = true) (Cli.find_in_sections sections path).
Proof.
  induction 1 as [|s rest (_ & _ & Hsearch) _ IH]; [done|].
  unfold escapes in *. rewrite cli_find_step. specialize (Hsearch path).
  destruct (sec_search_filename s path) as [e|[|first more]]; simpl in *; [|done..].
  by rewrite Hsearch.
Qed.

Lemma mp_find_escapes (w : World) (path : string) :
  servers_raise_exceptions w ->
  escapes (fun e => is_Exception e = true) (MigratePlaylist.find_media_by_path w path).
Proof.
  intros (_ & _ & _ & _ & _ & _ & _ & Hsec & Hsecs & _).
  destruct (plex_sections w) as [e|sections] eqn:E.
  - unfold MigratePlaylist.find_media_by_path. by rewrite E.
  - rewrite (mp_find_media _ _ _ E).
    by apply (mp_find_in_sections_escapes sections path), Hsecs.
Qed.

Lemma cli_find_escapes (w : World) (path : string) :
  servers_raise_exceptions w ->
  escapes (fun e => is_Exception e = true) (Cli.find_plex_item w path).
Proof.
  intros (_ & _ & _ & _ & _ & _ & _ & Hsec & Hsecs & _).
  destruct (plex_sections w) as [e|sections] eqn:E.
  - unfold Cli.find_plex_item. by rewrite E.
  - rewrite (cli_find_media _ _ _ E).
    by apply (cli_find_in_sections_escapes sections path), Hsecs.
Qed.

Lemma pm_find_escapes (w : World) (path : string) :
  servers_raise_exceptions w ->
  exists found, outcome (PlaylistMigrator.find_media_by_path w path) = inr found.
Proof.
  intros (_ & _ & _ & _ & _ & _ & _ & Hsec & _).
  destruct (plex_sections w) as [e|sections] eqn:E.
  - simpl in Hsec. rewrite (pm_find_listing_fails w e path E Hsec). by eexists.
  - rewrite (pm_find_media _ _ _ E). simpl. apply pm_find_total.
Qed.

Lemma mp_for_items_escapes (w : World) (items : list JfItem)
  (acc : list PlexItem * list string) :
  servers_raise_exceptions w ->
  escapes (fun e => is_Exception e = true) (MigratePlaylist.for_items w items acc).
Proof.
  intros Hw. revert acc. induction items as [|item rest IH]; intros acc; [done|].
  simpl. apply escapes_bind; [|by intros].
  destruct acc as [plex_items missing_items]. unfold MigratePlaylist.loop_body.
  apply escapes_bind; [done|]. intros _ _.
  destruct (truthy _) as [path|]; [|done].
  apply escapes_bind; [by apply mp_find_escapes|]. by intros [?|] _.
Qed.

Lemma cli_for_items_escapes (w : World) (items : list JfItem) (acc : list PlexItem) :
  servers_raise_exceptions w ->
  escapes (fun e => is_Exception e = true) (Cli.for_items w items acc).
Proof.
  intros Hw. revert acc. induction items as [|item rest IH]; intros acc; [done|].
  simpl. apply escapes_bind; [|by intros].
  unfold Cli.loop_body.
  destruct (truthy _) as [path|]; [|done].
  apply escapes_bind; [by apply cli_find_escapes|]. by intros [?|] _.
Qed.

Lemma pm_for_items_total (w : World) (items : list JfItem)
  (acc : list PlexItem * list string) :
  servers_raise_exceptions w ->
  exists r, outcome (PlaylistMigrator.for_items w items acc) = inr r.
Proof.
  intros Hw. revert acc. induction items as [|item rest IH]; intros acc; [by eexists|].
  change (PlaylistMigrator.for_items w (item :: rest) acc)
    with (bind (PlaylistMigrator.loop_body w acc item)
               (fun acc' => PlaylistMigrator.for_items w rest acc')).
  assert (Hbody : exists acc', outcome (PlaylistMigrator.loop_body w acc item) = inr acc').
  { destruct acc as [plex_items not_found_items]. unfold PlaylistMigrator.loop_body.
    destruct (truthy _) as [path|]; [|by eexists].
    destruct (pm_find_escapes w path Hw) as [found Hfound].
    destruct (PlaylistMigrator.find_media_by_path w path) as [t r].
    simpl in Hfound; subst r. destruct found; by eexists. }
  destruct Hbody as [acc' Hbody].
  destruct (PlaylistMigrator.loop_body w acc item) as [t r].
  simpl in Hbody; subst r. unfold bind.
  destruct (IH acc') as [r Hr].
  destruct (PlaylistMigrator.for_items w rest acc') as [t' r'].
  simpl in Hr; subst r'. by eexists.
Qed.

Lemma mp_run_escapes (lower : string -> string) (w : World) (name : string)
  (dry_run : bool) :
  servers_raise_exceptions w ->
  escapes (fun e => is_Exception e = true)
          (MigratePlaylist.migrate_playlist lower w name dry_run).
Proof.
  intros Hw.
  pose proof Hw as (_ & _ & Hpls & _ & Hitems & _ & _ & _ & _ & Hcreate).
  unfold MigratePlaylist.migrate_playlist, MigratePlaylist.find_playlist_by_name,
    MigratePlaylist.get_playlists, MigratePlaylist.get_playlist_items,
    MigratePlaylist.create_playlist, escapes.
  run_unfold.
  destruct (jf_playlists w) as [e|pls]; simpl; [done|].
  destruct (List.find _ pls) as [pl|]; simpl; [|done].
  specialize (Hitems (pl_Id pl)).
  destruct (jf_playlist_items w (pl_Id pl)) as [e|items]; simpl; [done|].
  pose proof (mp_for_items_escapes w items ([], []) Hw) as Hloop.
  unfold escapes in Hloop.
  destruct (MigratePlaylist.for_items w items ([], []))
    as [t [e|[plex_items missing_items]]]; simpl in *; [done|].
  destruct missing_items as [|m ms];
    [|rewrite (for_each_emit (fun item => Logging WARNING ("  - " +:+ item)))];
    (destruct plex_items as [|p ps]; simpl; [done|]).
  all: destruct dry_run;
    [by rewrite (for_each_emit (fun item => Logging INFO ("  - " +:+ title item)))|].
  all: specialize (Hcreate (pl_Name pl) (p :: ps)).
  all: destruct (plex_create w (pl_Name pl) (p :: ps)) as [e|created]; simpl in *;
    [by rewrite Hcreate|done].
Qed.

Lemma pm_run_escapes (lower : string -> string) (w : World) (name : string) :
  servers_raise_exceptions w ->
  escapes (fun e => is_Exception e = true \/ e = SystemExit "1")
          (PlaylistMigrator.migrate_playlist lower w name).
Proof.
  intros Hw.
  pose proof Hw as (Hjf & _ & _ & Hsearch & Hitems & Hacc & Hsrv & _ & _ & Hcreate).
  unfold PlaylistMigrator.migrate_playlist, PlaylistMigrator.JellyfinClient,
    PlaylistMigrator.PlexClient, PlaylistMigrator.search_playlists,
    PlaylistMigrator.get_playlist_items, PlaylistMigrator.create_playlist, escapes.
  run_unfold.
  destruct (jf_authenticate w) as [e|user]; simpl in *;
    [destruct (is_RequestException e); simpl; auto|].
  destruct (myplex_account w) as [e|account]; simpl in *;
    [rewrite Hacc; simpl; auto|].
  destruct (plex_server w) as [e|server]; simpl in *;
    [rewrite Hsrv; simpl; auto|].
  specialize (Hsearch name).
  destruct (jf_search w name) as [e|pls]; simpl in *;
    [destruct (is_RequestException e); simpl; auto|].
  destruct pls as [|pl0 pls]; simpl; [done|].
  destruct (pm_select_total lower (pl0 :: pls) name ltac:(done)) as (pl & msg & Hsel).
  rewrite Hsel; simpl.
  specialize (Hitems (pl_Id pl)).
  destruct (jf_playlist_items w (pl_Id pl)) as [e|items]; simpl in *;
    [destruct (is_RequestException e); simpl; auto|].
  destruct items as [|item items]; simpl; [done|].
  destruct (pm_for_items_total w (item :: items) ([], []) Hw)
    as [[plex_items not_found_items] Hloop].
  destruct (PlaylistMigrator.for_items w (item :: items) ([], [])) as [t r].
  simpl in Hloop; subst r; simpl.
  destruct plex_items as [|p ps]; simpl; [done|].
  specialize (Hcreate (pl_Name pl +:+ " (from Jellyfin)") (p :: ps)).
  destruct not_found_items as [|m ms];
    [|rewrite (for_each_emit (fun item_name => Stdout ("  - " +:+ item_name)))];
    (destruct (plex_create w (pl_Name pl +:+ " (from Jellyfin)") (p :: ps))
       as [e|created]; simpl in *; [by rewrite Hcreate|done]).
Qed.

Lemma cli_run_escapes (w : World) (name : string) :
  servers_raise_exceptions w ->
  escapes exits_with_1 (Cli.migrate_playlist w name).
Proof.
  intros Hw.
  pose proof Hw as (_ & Hme & Hpls & _ & Hitems & Hacc & Hsrv & _ & _ & Hcreate).
  unfold Cli.migrate_playlist, escapes.
  run_unfold.
  destruct (jf_users_me w) as [e|user_id]; simpl in *;
    [by apply exception_exits_with_1|].
  destruct (jf_playlists w) as [e|pls]; simpl in *; [by apply exception_exits_with_1|].
  destruct (Cli.select_playlist pls name) as [pl|]; simpl; [|done].
  specialize (Hitems (pl_Id pl)).
  destruct (jf_playlist_items w (pl_Id pl)) as [e|items]; simpl in *;
    [by apply exception_exits_with_1|].
  destruct (myplex_account w) as [e|account]; simpl in *;
    [by apply exception_exits_with_1|].
  destruct (plex_server w) as [e|plex]; simpl in *; [by apply exception_exits_with_1|].
  pose proof (cli_for_items_escapes w items [] Hw) as Hloop. unfold escapes in Hloop.
  destruct (Cli.for_items w items []) as [t [e|plex_items]]; simpl in *;
    [by apply exception_exits_with_1|].
  destruct plex_items as [|p ps]; simpl; [done|].
  specialize (Hcreate name (p :: ps)).
  destruct (plex_create w name (p :: ps)) as [e|created]; simpl in *;
    [by apply exception_exits_with_1|done].
Qed.

(** X19. When the servers fail with exceptions only, the exceptions that
    can leave [migrate_playlist] all end the process with status 1: an
    [Exception] in [migrate_playlist.py], an [Exception] or [sys.exit(1)]
    in [playlist_migrator.py], an [Exception] or a [SystemExit] carrying a
    message in [cli.py]. *)
Theorem X19_escaping_exceptions_exit_with_1
  (lower : string -> string) (w : World) (name : string) :
  servers_raise_exceptions w ->
  (forall dry_run e,
     outcome (MigratePlaylist.migrate_playlist lower w name dry_run) = inl e ->
     is_Exception e = true)
  /\ (forall e,
        outcome (PlaylistMigrator.migrate_playlist lower w name) = inl e ->
        is_Exception e = true \/ e = SystemExit "1")
  /\ (forall e,
        outcome (Cli.migrate_playlist w name) = inl e -> exits_with_1 e).
Proof.
  intros Hw. split; [|split].
  - intros dry_run e He. pose proof (mp_run_escapes lower w name dry_run Hw) as H.
    unfold escapes in H. by rewrite He in H.
  - intros e He. pose proof (pm_run_escapes lower w name Hw) as H.
    unfold escapes in H. by rewrite He in H.
  - intros e He. pose proof (cli_run_escapes w name Hw) as H.
    unfold escapes in H. by rewrite He in H.
Qed.

Ltac servers_ok :=
  repeat split; try done;
  intros ? [= <-]; repeat (constructor; [repeat split; done|]); constructor.

Lemma X19_witness :
  exits_with_1 (SystemExit "No matching items found in Plex").
Proof.
  destruct (X19_escaping_exceptions_exit_with_1 str_lower scenario_b "Road Trip")
    as (_ & _ & Hcli).
  { servers_ok. }
  apply Hcli. reflexivity.
Defined.

(** ** The entry points *)

Lemma mp_plex_client_escapes (w : World) :
  servers_raise_exceptions w ->
  escapes (fun e => is_Exception e = true) (MigratePlaylistMain.PlexClient w).
Proof.
  intros (_ & _ & _ & _ & _ & Hacc & Hsrv & _).
  unfold MigratePlaylistMain.PlexClient, escapes. run_unfold.
  destruct (myplex_account w) as [e|account]; simpl in *; [done|].
  destruct (plex_server w) as [e|plex]; simpl in *; done.
Qed.

(** X20. With all four credentials given and servers that fail with
    exceptions only, [main] of [migrate_playlist.py] never returns: it ends
    by [sys.exit(0)] or [sys.exit(1)], and the status is 0 exactly when the
    Plex login succeeded and [migrate_playlist] returned [True]; every
    exception is turned into status 1. *)
Theorem X20_main_exit_status
  (lower : string -> string) (is_Unauthorized is_ConnectionError : Exn -> bool)
  (args : MigratePlaylistMain.Args) (w : World) :
  servers_raise_exceptions w ->
  all_truthy [MigratePlaylistMain.jellyfin_url args;
              MigratePlaylistMain.jellyfin_api_key args;
              MigratePlaylistMain.plex_url args;
              MigratePlaylistMain.plex_username args] = true ->
  let run := MigratePlaylistMain.main lower is_Unauthorized is_ConnectionError args w in
  let migration :=
    MigratePlaylist.migrate_playlist lower w (MigratePlaylistMain.playlist_name args)
                                     (MigratePlaylistMain.dry_run args) in
  (exists code, outcome run = inl (SystemExit code) /\ (code = "0" \/ code = "1"))
  /\ (exit_status (outcome run) = 0
      <-> outcome (MigratePlaylistMain.PlexClient w) = inr tt
          /\ outcome migration = inr true).
Proof.
  intros Hw Hcreds run migration. subst run migration.
  unfold MigratePlaylistMain.main. rewrite Hcreds.
  pose proof (mp_plex_client_escapes w Hw) as Hplex.
  pose proof (mp_run_escapes lower w (MigratePlaylistMain.playlist_name args)
                (MigratePlaylistMain.dry_run args) Hw) as Hrun.
  unfold escapes in Hplex, Hrun.
  destruct (MigratePlaylistMain.PlexClient w) as [t1 [e|[]]]; simpl in *.
  - rewrite Hplex. unfold MigratePlaylistMain.handle. run_unfold.
    destruct (is_Unauthorized e), (is_ConnectionError e),
      (MigratePlaylistMain.verbose args); simpl;
      (split; [eexists; split; [done|by right]|split; [done|by intros [[=] _]]]).
  - destruct (MigratePlaylist.migrate_playlist _ _ _ _) as [t2 [e|[|]]]; simpl in *.
    + rewrite Hrun. unfold MigratePlaylistMain.handle. run_unfold.
      destruct (is_Unauthorized e), (is_ConnectionError e),
        (MigratePlaylistMain.verbose args); simpl;
        (split; [eexists; split; [done|by right]|split; [done|by intros [_ [=]]]]).
    + split; [eexists; split; [done|by left]|done].
    + split; [eexists; split; [done|by right]|split; [done|by intros [_ [=]]]].
Qed.

Lemma X20_witness :
  exit_status (outcome (MigratePlaylistMain.main
                          str_lower sample_is_unauthorized sample_is_connection_error
                          (sample_args false) scenario_a)) = 0
  /\ exit_status (outcome (MigratePlaylistMain.main
                             str_lower sample_is_unauthorized sample_is_connection_error
                             (sample_args false) scenario_b)) <> 0.
Proof.
  split.
  - destruct (X20_main_exit_status str_lower sample_is_unauthorized
                sample_is_connection_error (sample_args false) scenario_a)
      as [_ Hzero]; [servers_ok|reflexivity|].
    apply Hzero. split; reflexivity.
  - destruct (X20_main_exit_status str_lower sample_is_unauthorized
                sample_is_connection_error (sample_args false) scenario_b)
      as [_ Hzero]; [servers_ok|reflexivity|].
    intros [_ Hout]%Hzero. discriminate Hout.
Defined.

Lemma all_truthy_missing (values : list (option string)) (v : option string) :
  v ∈ values -> v = None \/ v = Some EmptyString -> all_truthy values = false.
Proof.
  intros Hin Hv. unfold all_truthy.
  destruct (forallb _ values) eqn:Hall; [|done].
  rewrite forallb_forall in Hall. apply list_elem_of_In in Hin.
  specialize (Hall v Hin). by destruct Hv as [->| ->].
Qed.

(** X21. When one of the four credentials of [migrate_playlist.py] is
    missing or empty, [main] logs what is required and exits with status 1
    without contacting Jellyfin or Plex. *)
Theorem X21_missing_credentials
  (lower : string -> string) (is_Unauthorized is_ConnectionError : Exn -> bool)
  (args : MigratePlaylistMain.Args) (w : World) (v : option string) :
  v ∈ [MigratePlaylistMain.jellyfin_url args;
       MigratePlaylistMain.jellyfin_api_key args;
       MigratePlaylistMain.plex_url args;
       MigratePlaylistMain.plex_username args] ->
  v = None \/ v = Some EmptyString ->
  MigratePlaylistMain.main lower is_Unauthorized is_ConnectionError args w
  = ([Logging ERROR "Missing required credentials. Please provide all of:";
      Logging ERROR "  - Jellyfin URL and API key";
      Logging ERROR "  - Plex URL and username";
      Logging ERROR "Use --help for more information about setting these values."],
     inl (SystemExit "1")).
Proof.
  intros Hin Hv. unfold MigratePlaylistMain.main.
  by rewrite (all_truthy_missing _ v Hin Hv).
Qed.

Lemma X21_witness :
  remote_calls
    (trace (MigratePlaylistMain.main
              str_lower sample_is_unauthorized sample_is_connection_error
              {| MigratePlaylistMain.playlist_name := "Road Trip";
                 MigratePlaylistMain.jellyfin_url := Some "http://jellyfin:8096";
                 MigratePlaylistMain.jellyfin_api_key := Some EmptyString;
                 MigratePlaylistMain.plex_url := Some "http://plex:32400";
                 MigratePlaylistMain.plex_username := Some "me";
                 MigratePlaylistMain.dry_run := false;
                 MigratePlaylistMain.verbose := false |}
              scenario_a)) = [].
Proof.
  rewrite (X21_missing_credentials str_lower sample_is_unauthorized
             sample_is_connection_error _ scenario_a (Some EmptyString)).
  - reflexivity.
  - right. left.
  - right. reflexivity.
Defined.

Ltac same_run := rewrite ?app_nil_r; split; [done|split; done].

(** X22. The [--verbose] flag of [migrate_playlist.py] changes neither the
    way the process ends nor anything that is asked of the servers.  The
    verbose trace is the plain one, followed by the record "Full
    traceback:" exactly when the run ended in the handler of unexpected
    errors: the credentials were given and the Plex login or the migration
    raised an [Exception] that is neither [Unauthorized] nor a
    [ConnectionError]; that record then follows "Unexpected error: ...". *)
Theorem X22_verbose_only_adds_the_traceback
  (lower : string -> string) (is_Unauthorized is_ConnectionError : Exn -> bool)
  (name : string) (jf_url jf_key px_url px_user : option string) (dry : bool)
  (w : World) :
  let args v :=
    {| MigratePlaylistMain.playlist_name := name;
       MigratePlaylistMain.jellyfin_url := jf_url;
       MigratePlaylistMain.jellyfin_api_key := jf_key;
       MigratePlaylistMain.plex_url := px_url;
       MigratePlaylistMain.plex_username := px_user;
       MigratePlaylistMain.dry_run := dry;
       MigratePlaylistMain.verbose := v |} in
  let run v := MigratePlaylistMain.main lower is_Unauthorized is_ConnectionError
                                        (args v) w in
  let attempt := bind (MigratePlaylistMain.PlexClient w)
                      (fun _ => MigratePlaylist.migrate_playlist lower w name dry) in
  let unexpected :=
    all_truthy [jf_url; jf_key; px_url; px_user]
    && match outcome attempt with
       | inl e => is_Exception e && negb (is_Unauthorized e)
                  && negb (is_ConnectionError e)
       | inr _ => false
       end in
  outcome (run true) = outcome (run false)
  /\ remote_calls (trace (run true)) = remote_calls (trace (run false))
  /\ trace (run true)
     = trace (run false)
       ++ (if unexpected then [Logging ERROR "Full traceback:"] else [])
  /\ (unexpected = true ->
      exists e, outcome attempt = inl e
                /\ last (messages (trace (run false)))
                   = Some ("Unexpected error: " +:+ str_exn e)).
Proof.
  intros args run attempt unexpected.
  assert (outcome (run true) = outcome (run false)
          /\ trace (run true)
             = trace (run false)
               ++ (if unexpected then [Logging ERROR "Full traceback:"] else [])
          /\ (unexpected = true ->
              exists e, outcome attempt = inl e
                        /\ last (messages (trace (run false)))
                           = Some ("Unexpected error: " +:+ str_exn e)))
    as (Hout & Htrace & Hlast).
  { subst args run attempt unexpected. unfold MigratePlaylistMain.main.
    cbn [MigratePlaylistMain.jellyfin_url MigratePlaylistMain.jellyfin_api_key
         MigratePlaylistMain.plex_url MigratePlaylistMain.plex_username
         MigratePlaylistMain.playlist_name MigratePlaylistMain.dry_run].
    destruct (all_truthy _); simpl; [|same_run].
    unfold try_except, MigratePlaylistMain.handle.
    destruct (MigratePlaylistMain.PlexClient w) as [t1 [e|[]]]; simpl.
    - destruct (is_Exception e); simpl; [|same_run].
      destruct (is_Unauthorized e); simpl; [same_run|].
      destruct (is_ConnectionError e); simpl; [same_run|].
      split; [done|]. split; [by rewrite <- app_assoc|].
      intros _. exists e. split; [done|].
      rewrite ?app_nil_r, messages_app. simpl. by rewrite last_snoc.
    - destruct (MigratePlaylist.migrate_playlist lower w name dry)
        as [t2 [e|[|]]]; simpl; [|same_run..].
      destruct (is_Exception e); simpl; [|same_run].
      destruct (is_Unauthorized e); simpl; [same_run|].
      destruct (is_ConnectionError e); simpl; [same_run|].
      split; [done|]. split; [by rewrite <- !app_assoc|].
      intros _. exists e. split; [done|].
      rewrite ?app_nil_r, messages_app. simpl. by rewrite last_snoc. }
  split; [done|]. split; [|done].
  rewrite Htrace. unfold remote_calls. rewrite List.filter_app.
  destruct unexpected; simpl; by rewrite app_nil_r.
Qed.

(** X23. [main] of [playlist_migrator.py], with servers that fail with
    exceptions only, ends the process with status 0 or 1, and with 0
    exactly when the run issued its one creation call and Plex accepted
    it. *)
Theorem X23_pm_main_exit_status
  (lower : string -> string) (playlist : string) (w : World) :
  servers_raise_exceptions w ->
  let run := PlaylistMigratorMain.main lower playlist w in
  (exit_status (outcome run) = 0 \/ exit_status (outcome run) = 1)
  /\ (exit_status (outcome run) = 0
      <-> exists n its created,
            creations (trace run) = [(n, its)]
            /\ plex_create w n its = inr created).
Proof.
  intros Hw run. subst run. unfold PlaylistMigratorMain.main.
  pose proof (pm_run_escapes lower w playlist Hw) as Hesc.
  pose proof (pm_success_iff_created lower w playlist) as Hiff.
  unfold escapes in Hesc.
  destruct (PlaylistMigrator.migrate_playlist lower w playlist) as [t [e|[|]]];
    run_unfold; simpl in *; rewrite ?app_nil_r.
  - assert (exit_status (@inl Exn unit e) = 1) as He.
    { destruct Hesc as [He| ->]; [by destruct e|done]. }
    simpl in He. rewrite He. split; [by right|]. split; [done|].
    intros Hc. apply Hiff in Hc. discriminate Hc.
  - split; [by left|]. split; [intros _; by apply Hiff|done].
  - split; [by right|]. split; [done|].
    intros Hc. apply Hiff in Hc. discriminate Hc.
Qed.

Lemma X23_witness :
  exit_status (outcome (PlaylistMigratorMain.main str_lower "Road Trip" scenario_a)) = 0
  /\ exit_status (outcome (PlaylistMigratorMain.main str_lower "Road Trip"
                                                     creation_refused)) = 1.
Proof.
  split.
  - destruct (X23_pm_main_exit_status str_lower "Road Trip" scenario_a)
      as [_ Hzero]; [servers_ok|].
    apply Hzero. by eexists _, _, _.
  - destruct (X23_pm_main_exit_status str_lower "Road Trip" creation_refused)
      as [[Hzero|Hone] _]; [servers_ok| |exact Hone].
    discriminate Hzero.
Defined.

(** X24. [main] of [cli.py] stops with the error of [parser.error] — its
    message on stderr and exit status 2 — when the Jellyfin URL, the
    Jellyfin token or the Plex URL is missing or empty, and then contacts
    no server; a missing Plex user name or password is not an error. *)
Theorem X24_cli_missing_connection_information
  (args : CliMain.Args) (w : World) (v : option string) :
  v ∈ [CliMain.jellyfin_url args; CliMain.jellyfin_token args; CliMain.plex_url args] ->
  v = None \/ v = Some EmptyString ->
  CliMain.main args w
  = ([Stderr "Jellyfin and Plex connection information is required"],
     inl (SystemExit "2")).
Proof.
  intros Hin Hv. unfold CliMain.main.
  by rewrite (all_truthy_missing _ v Hin Hv).
Qed.

Lemma X24_witness :
  exit_status
    (outcome (CliMain.main
                {| CliMain.playlist_name := "Road Trip";
                   CliMain.jellyfin_url := Some "http://jellyfin:8096";
                   CliMain.jellyfin_token := None;
                   CliMain.plex_url := Some "http://plex:32400";
                   CliMain.plex_username := Some "me";
                   CliMain.plex_password := Some "secret" |}
                scenario_a)) = 2.
Proof.
  rewrite (X24_cli_missing_connection_information _ scenario_a None).
  - reflexivity.
  - right. left.
  - by left.
Defined.

(** X25. [main] of [cli.py], given the three connection values and servers
    that fail with exceptions only, ends the process with status 0 or 1
    whether or not a Plex user name and password were given, and with 0
    exactly when the run issued its one creation call and Plex accepted
    it. *)
Theorem X25_cli_main_exit_status (args : CliMain.Args) (w : World) :
  servers_raise_exceptions w ->
  all_truthy [CliMain.jellyfin_url args; CliMain.jellyfin_token args;
              CliMain.plex_url args] = true ->
  let run := CliMain.main args w in
  (exit_status (outcome run) = 0 \/ exit_status (outcome run) = 1)
  /\ (exit_status (outcome run) = 0
      <-> exists n its created,
            creations (trace run) = [(n, its)]
            /\ plex_create w n its = inr created).
Proof.
  intros Hw Hconn run. subst run. unfold CliMain.main. rewrite Hconn.
  pose proof (cli_run_escapes w (CliMain.playlist_name args) Hw) as Hesc.
  pose proof (cli_success_iff_created w (CliMain.playlist_name args)) as Hiff.
  unfold escapes, exits_with_1 in Hesc.
  destruct (Cli.migrate_playlist w (CliMain.playlist_name args)) as [t [e|[]]];
    simpl in *.
  - simpl in Hesc. rewrite Hesc. split; [by right|]. split; [done|].
    intros Hc. apply Hiff in Hc. discriminate Hc.
  - split; [by left|]. split; [intros _; by apply Hiff|done].
Qed.

Lemma X25_witness :
  exit_status (outcome (CliMain.main sample_cli_args scenario_a)) = 0
  /\ exit_status (outcome (CliMain.main sample_cli_args scenario_b)) = 1.
Proof.
  split.
  - destruct (X25_cli_main_exit_status sample_cli_args scenario_a)
      as [_ Hzero]; [servers_ok|reflexivity|].
    apply Hzero. by eexists _, _, _.
  - destruct (X25_cli_main_exit_status sample_cli_args scenario_b)
      as [[Hzero|Hone] _]; [servers_ok|reflexivity| |exact Hone].
    discriminate Hzero.
Defined.
